(** * The Chatu template engine: Loader, Lexer, Parser, BlockBuilder, Engine

    A shallow embedding of the template-compilation pipeline of
    [src/Chatu.py] (lines 1570-1992) and of the fragment of Python that its
    generated render routines are written in.

    Conventions.
    - A Python [str] is a Rocq [string]; a character is a code point below
      256.  The classes [\s] and [\w] of the [re] module are the ones Python 3
      uses for [str] patterns, restricted to that range.
    - Line numbers are [Z]: the builder is started at line -2.
    - Python exceptions are values of [exc]; a function that can raise
      returns a [res]. *)

From Stdlib Require Import String Ascii List ZArith Lia Bool.
From stdpp Require Import gmap strings.
Import ListNotations.
Open Scope string_scope.

(** ** Exceptions and results *)

Inductive exc_kind :=
| SyntaxError | AssertionError | AttributeError | KeyError | NameError
| TypeError | ValueError | IndexError | IOError.

Definition exc_kind_eqb (a b : exc_kind) : bool :=
  match a, b with
  | SyntaxError, SyntaxError | AssertionError, AssertionError
  | AttributeError, AttributeError | KeyError, KeyError
  | NameError, NameError | TypeError, TypeError | ValueError, ValueError
  | IndexError, IndexError | IOError, IOError => true
  | _, _ => false
  end.

Record exc := Exc { exc_type : exc_kind; exc_msg : string }.

(** [Unsupported] marks Python code outside the modelled fragment; [OutOfFuel]
    a recursion bound that was too small.  Neither is a Python behaviour. *)
Inductive res (A : Type) :=
| Ok (a : A)
| Raise (e : exc)
| Unsupported (why : string)
| OutOfFuel.
Arguments Ok {A} a.
Arguments Raise {A} e.
Arguments Unsupported {A} why.
Arguments OutOfFuel {A}.

Definition bind {A B} (r : res A) (k : A -> res B) : res B :=
  match r with
  | Ok a => k a
  | Raise e => Raise e
  | Unsupported w => Unsupported w
  | OutOfFuel => OutOfFuel
  end.

Notation "'do' x <- r ; k" := (bind r (fun x => k))
  (at level 10, x name, r at level 100, k at level 200).
Notation "'do' ' p <- r ; k" := (bind r (fun x => let 'p := x in k))
  (at level 10, p pattern, r at level 100, k at level 200).

Definition raise {A} (t : exc_kind) (msg : string) : res A := Raise (Exc t msg).

(** ** Characters and strings, as Python's [str] methods use them *)

Definition chr (n : nat) : ascii := ascii_of_nat n.
Definition ord (c : ascii) : nat := nat_of_ascii c.
Definition ch_nl : ascii := chr 10.
Definition ch_cr : ascii := chr 13.
Definition ch_tab : ascii := chr 9.
Definition ch_dq : ascii := chr 34.
Definition ch_sq : ascii := "'"%char.
Definition ch_bs : ascii := "\"%char.

Definition nl : string := String ch_nl "".
Definition dq : string := String ch_dq "".

Definition in_range (lo hi : nat) (c : ascii) : bool :=
  (lo <=? ord c)%nat && (ord c <=? hi)%nat.

(** [str.isspace], which is also [\s]: the white space below 256. *)
Definition isspace (c : ascii) : bool :=
  in_range 9 13 c || in_range 28 32 c || (ord c =? 133)%nat || (ord c =? 160)%nat.

(** [\w]: [str.isalnum] or an underscore, below 256. *)
Definition isword (c : ascii) : bool :=
  in_range 48 57 c || in_range 65 90 c || in_range 97 122 c || (ord c =? 95)%nat
  || (ord c =? 170)%nat || in_range 178 179 c || (ord c =? 181)%nat
  || in_range 185 186 c || in_range 188 190 c || in_range 192 214 c
  || in_range 216 246 c || in_range 248 255 c.

Definition is_sp (c : ascii) : bool := Ascii.eqb c " ".
Definition is_nl (c : ascii) : bool := Ascii.eqb c ch_nl.

Fixpoint startswith (p s : string) : bool :=
  match p, s with
  | "", _ => true
  | String a p', String b s' => Ascii.eqb a b && startswith p' s'
  | _, "" => false
  end.

(** [s[n:]] and [s[:n]]. *)
Fixpoint drop (n : nat) (s : string) : string :=
  match n, s with
  | O, _ => s
  | S n', String _ s' => drop n' s'
  | S _, "" => ""
  end.

Fixpoint take (n : nat) (s : string) : string :=
  match n, s with
  | O, _ => ""
  | S n', String c s' => String c (take n' s')
  | S _, "" => ""
  end.

(** The longest prefix whose characters satisfy [f], and the rest. *)
Fixpoint span (f : ascii -> bool) (s : string) : string * string :=
  match s with
  | String c s' =>
      if f c then let '(a, b) := span f s' in (String c a, b) else ("", s)
  | "" => ("", "")
  end.

Fixpoint last_char (d : ascii) (s : string) : ascii :=
  match s with
  | "" => d
  | String c s' => last_char c s'
  end.

Fixpoint count_nl (s : string) : nat :=
  match s with
  | "" => 0
  | String c s' => (if is_nl c then 1 else 0) + count_nl s'
  end.

Fixpoint has_char (x : ascii) (s : string) : bool :=
  match s with
  | "" => false
  | String c s' => Ascii.eqb c x || has_char x s'
  end.

(** [s.replace(old, new)] for a non-empty [old]; [skip] counts the characters
    of a replaced occurrence that are still to be passed over. *)
Fixpoint replace_from (old new : string) (skip : nat) (s : string) : string :=
  match s with
  | "" => ""
  | String c s' =>
      match skip with
      | S k => replace_from old new k s'
      | O =>
          if startswith old s
          then new ++ replace_from old new (String.length old - 1) s'
          else String c (replace_from old new 0 s')
      end
  end.

Definition replace (old new s : string) : string := replace_from old new 0 s.

Definition lstrip (s : string) : string := snd (span isspace s).

Fixpoint rstrip (s : string) : string :=
  match s with
  | "" => ""
  | String c s' =>
      let r := rstrip s' in
      if String.eqb r "" && isspace c then "" else String c r
  end.

Definition strip (s : string) : string := rstrip (lstrip s).

(** [s.split(sep)] for a one-character separator. *)
Fixpoint split_from (sep : ascii) (cur : string) (s : string) : list string :=
  match s with
  | "" => [cur]
  | String c s' =>
      if Ascii.eqb c sep then cur :: split_from sep "" s'
      else split_from sep (cur ++ String c "") s'
  end.

Definition split (sep : ascii) (s : string) : list string := split_from sep "" s.

(** [sep.join(l)]. *)
Fixpoint join (sep : string) (l : list string) : string :=
  match l with
  | [] => ""
  | [x] => x
  | x :: l' => x ++ sep ++ join sep l'
  end.

Definition mem (x : string) (l : list string) : bool :=
  existsb (String.eqb x) l.

(** ["%d" % z]. *)
Fixpoint digits_of (fuel : nat) (n : N) (acc : string) : string :=
  match fuel with
  | O => acc
  | S f =>
      let d := String (chr (48 + N.to_nat (n mod 10))) acc in
      if (n <? 10)%N then d else digits_of f (n / 10)%N d
  end.

Definition str_of_Z (z : Z) : string :=
  let n := Z.to_N (Z.abs z) in
  (if (z <? 0)%Z then "-" else "") ++ digits_of (S (N.to_nat (N.log2 n))) n "".

(** ** Tokens and nodes (module constants, lines 1572-1580) *)

Inductive kind :=
| K_markup | K_var | K_include | K_require | K_import | K_from
| K_statement | K_compound | K_continue | K_end | K_comment
| K_extends | K_def | K_out | K_render.

Definition kind_eqb (a b : kind) : bool :=
  match a, b with
  | K_markup, K_markup | K_var, K_var | K_include, K_include
  | K_require, K_require | K_import, K_import | K_from, K_from
  | K_statement, K_statement | K_compound, K_compound
  | K_continue, K_continue | K_end, K_end | K_comment, K_comment
  | K_extends, K_extends | K_def, K_def | K_out, K_out
  | K_render, K_render => true
  | _, _ => false
  end.

(** [TOKENS.get(word, 'statement')]. *)
Definition TOKENS_get (word : string) : kind :=
  if mem word ["endfor"; "endif"; "endwhile"; "endwith"; "endtry"; "endclass"; "enddef"; "end"]
  then K_end
  else if mem word ["for"; "if"; "while"; "with"; "try"; "class"] then K_compound
  else if mem word ["else"; "elif"; "except"; "finally"] then K_continue
  else if String.eqb word "extends" then K_extends
  else if String.eqb word "require" then K_require
  else if String.eqb word "#" then K_comment
  else if String.eqb word "include" then K_include
  else if String.eqb word "import" then K_import
  else if String.eqb word "from" then K_from
  else if String.eqb word "def" then K_def
  else K_statement.

Definition COMPOUND_TOKENS (k : kind) : bool :=
  match k with K_extends | K_def | K_compound => true | _ => false end.

Definition OUT_TOKENS (k : kind) : bool :=
  match k with K_markup | K_var | K_include => true | _ => false end.

(** The value of a token: a string, the name list of a [require], or [None]
    (the [end] that [end_continue] injects). *)
Inductive tvalue :=
| VStr (s : string)
| VList (l : list string)
| VNone.

Definition token : Type := Z * kind * tvalue.

(** A node is a token, an [out] group of tokens, or a compound
    [(header, children)] pair. *)
Inductive node :=
| Node (lineno : Z) (tok : kind) (value : nvalue)
with nvalue :=
| NLeaf (v : tvalue)
| NOut (operands : list token)
| NBlock (stmt : tvalue) (nodes : list node).

Definition node_line (n : node) : Z := let 'Node l _ _ := n in l.
Definition node_kind (n : node) : kind := let 'Node _ k _ := n in k.
Definition node_value (n : node) : nvalue := let 'Node _ _ v := n in v.

(** ** The regular expressions of [Parser.__init__] (lines 1641-1648)

    Each pattern is rendered as the function that computes the match the
    backtracking matcher finds, on the text from the match position on. *)
Module Re.

(** The tail [(.*?)(?<!\\)(?:\n|$)] of [stmt_match]: the shortest group 2
    ending before a newline (consumed) or the end of the text, where the
    character before that point is not a backslash.  [prev] is the character
    before the current point.  Returns group 2 and the text after the match. *)
Fixpoint stmt_tail (prev : ascii) (s : string) : option (string * string) :=
  match s with
  | "" => if Ascii.eqb prev ch_bs then None else Some ("", "")
  | String c s' =>
      if is_nl c && negb (Ascii.eqb prev ch_bs) then Some ("", s')
      else match stmt_tail c s' with
           | Some (g, r) => Some (String c g, r)
           | None => None
           end
  end.

(** Group 1 of [stmt_match], [(#|\w+ ?)?]: a hash, or a word and at most one
    space after it.  Greedy; giving characters back never helps the tail,
    which can only end at a newline or at the end of the text. *)
Definition stmt_keyword (s : string) : option string * string :=
  match s with
  | String c r =>
      if Ascii.eqb c "#" then (Some "#", r)
      else if isword c then
        let '(w, r') := span isword s in
        match r' with
        | String c' r'' =>
            if is_sp c' then (Some (w ++ " "), r'') else (Some w, r')
        | "" => (Some w, r')
        end
      else (None, s)
  | "" => (None, s)
  end.

(** [stmt_match]: [ *%(?!%) *(#|\w+ ?)? *(.*?)(?<!\\)(?:\n|$)] with [re.S].
    Returns the length of the match, group 1 and group 2. *)
Definition stmt_match (s : string) : option (nat * option string * string) :=
  let '(sp1, s1) := span is_sp s in
  match s1 with
  | String c s2 =>
      if Ascii.eqb c "%" && negb (startswith "%" s2) then
        let '(sp2, s3) := span is_sp s2 in
        let '(g1, s4) := stmt_keyword s3 in
        let '(sp3, s5) := span is_sp s4 in
        let seen := sp1 ++ "%" ++ sp2 ++ default "" g1 ++ sp3 in
        match stmt_tail (last_char "%" seen) s5 with
        | Some (g2, rest) => Some (String.length s - String.length rest, g1, g2)
        | None => None
        end
      else None
  | "" => None
  end.

(** The text up to the first ["}}"], and the text after it. *)
Fixpoint find_close (s : string) : option (string * string) :=
  match s with
  | "" => None
  | String c s' =>
      if startswith "}}" s then Some ("", drop 1 s')
      else match find_close s' with
           | Some (a, b) => Some (String c a, b)
           | None => None
           end
  end.

(** [var_match]: [\{\{\s*(.*?)\s*\}\}] with [re.S].  The lazy group ends
    before the white space in front of the first ["}}"].  Returns the length
    of the match and group 1. *)
Definition var_match (s : string) : option (nat * string) :=
  if startswith "{{" s then
    match find_close (lstrip (drop 2 s)) with
    | Some (body, rest) => Some (String.length s - String.length rest, rstrip body)
    | None => None
    end
  else None.

(** The lookahead [(?= *%[^%])]. *)
Definition stmt_ahead (s : string) : bool :=
  match snd (span is_sp s) with
  | String c (String c' _) => Ascii.eqb c "%" && negb (Ascii.eqb c' "%")
  | _ => false
  end.

(** The first alternative of [markup_match],
    [.*?(?:(?=\{\{)|\n(?= *%[^%]))]: the shortest text that stops in front
    of ["{{"] or just after a newline that a statement line follows. *)
Fixpoint markup_stop (s : string) : option string :=
  match s with
  | "" => None
  | String c s' =>
      if startswith "{{" s then Some ""
      else if is_nl c && stmt_ahead s' then Some (String c "")
      else match markup_stop s' with
           | Some m => Some (String c m)
           | None => None
           end
  end.

(** [markup_match]: the first alternative, or else [.+], the whole rest.
    Returns the matched text. *)
Definition markup_match (s : string) : option string :=
  match markup_stop s with
  | Some m => Some m
  | None => if String.eqb s "" then None else Some s
  end.

(** [line_join_sub('', s)]: every backslash-newline pair removed. *)
Fixpoint line_join_sub (s : string) : string :=
  match s with
  | "" => ""
  | String c s' =>
      match s' with
      | String c' s'' =>
          if Ascii.eqb c ch_bs && is_nl c' then line_join_sub s''
          else String c (line_join_sub s')
      | "" => String c ""
      end
  end.

(** The [_s] of [mtok], [re.compile(r'(\n *%)%').sub] with replacement
    [\1]: a doubled leader at a line start loses one [%].  [ls] holds when
    the text read so far ends with a newline and spaces. *)
Fixpoint unescape_from (ls : bool) (s : string) : string :=
  match s with
  | "" => ""
  | String c s' =>
      if ls && Ascii.eqb c "%" then
        match s' with
        | String c' s'' =>
            if Ascii.eqb c' "%" then String c (unescape_from false s'')
            else String c (unescape_from false s')
        | "" => String c ""
        end
      else String c (unescape_from (is_nl c || (ls && is_sp c)) s')
  end.

Definition unescape (s : string) : string := unescape_from false s.

(** The text up to the first [")"]. *)
Fixpoint find_rparen (s : string) : option string :=
  match s with
  | "" => None
  | String c s' =>
      if Ascii.eqb c ")" then Some ""
      else match find_rparen s' with
           | Some a => Some (String c a)
           | None => None
           end
  end.

(** [re.search(r'\(\s*(.*?)\s*\)', stmt)]: group 1 of the leftmost match, the
    stripped text between an opening parenthesis and the next closing one.
    Without [re.S] the group cannot hold a newline. *)
Fixpoint args_search (s : string) : option string :=
  match s with
  | "" => None
  | String c s' =>
      if Ascii.eqb c "(" then
        match find_rparen (lstrip s') with
        | Some a =>
            let g := rstrip a in
            if has_char ch_nl g then args_search s' else Some g
        | None => args_search s'
        end
      else args_search s'
  end.

(** [re.findall(r'([^\s,]+)[\s,]*', s)]: the runs of characters that are
    neither white space nor commas. *)
Fixpoint findall_from (cur : string) (s : string) : list string :=
  let flush := if String.eqb cur "" then [] else [cur] in
  match s with
  | "" => flush
  | String c s' =>
      if isspace c || Ascii.eqb c ","
      then (flush ++ findall_from "" s')%list
      else findall_from (cur ++ String c "") s'
  end.

Definition findall_names (s : string) : list string := findall_from "" s.

End Re.

(** ** Lexer (lines 1609-1633) *)

(** A tokenizer rule: no match, or the next position, the token and its
    value. *)
Definition rule : Type := string -> nat -> res (option (nat * kind * tvalue)).

Section Lexer.

Variable rules : list rule.

(** The [for tokenizer in self.rules] loop with its [else] clause. *)
Fixpoint first_match (rs : list rule) (source : string) (pos : nat)
  : res (nat * kind * tvalue) :=
  match rs with
  | [] => raise SyntaxError "Lexer pattern mismatch."
  | tokenizer :: rs' =>
      do rv <- tokenizer source pos;
      match rv with
      | Some m => Ok m
      | None => first_match rs' source pos
      end
  end.

(** The [while pos < end] loop.  [fuel] bounds the iterations; the loop
    body advances [pos], so [len(source)] iterations are enough. *)
Fixpoint tokenize_loop (fuel : nat) (source : string) (pos : nat) (lineno : Z)
  : res (list token) :=
  if (pos <? String.length source)%nat then
    match fuel with
    | O => OutOfFuel
    | S fuel' =>
        do '(npos, tok, value) <- first_match rules source pos;
        if (npos <=? pos)%nat then raise AssertionError ""
        else
          let lineno' :=
            (lineno + Z.of_nat (count_nl (take (npos - pos) (drop pos source))))%Z in
          do tokens <- tokenize_loop fuel' source npos lineno';
          Ok ((lineno, tok, value) :: tokens)
    end
  else Ok [].

Definition tokenize (source : string) : res (list token) :=
  let source := replace (String ch_cr nl) nl source in
  tokenize_loop (String.length source) source 0 1%Z.

End Lexer.

(** ** Parser (lines 1636-1708), with the default delimiters *)

(** [source[pos - 1]], for [pos > 0]. *)
Definition char_before (source : string) (pos : nat) : option ascii :=
  match pos with
  | O => None
  | S p => String.get p source
  end.

Definition stmt_token : rule := fun source pos =>
  match Re.stmt_match (drop pos source) with
  | Some (len, g1, g2) =>
      if (0 <? pos)%nat
         && negb (match char_before source pos with
                  | Some c => is_nl c
                  | None => false
                  end)
      then Ok None
      else
        let tok := default "" g1 in
        let stmt := tok ++ Re.line_join_sub g2 in
        let tok := TOKENS_get (rstrip tok) in
        match tok with
        | K_require | K_include | K_extends =>
            match Re.args_search stmt with
            | Some stmt =>
                if kind_eqb tok K_require
                then Ok (Some ((pos + len)%nat, tok, VList (Re.findall_names stmt)))
                else Ok (Some ((pos + len)%nat, tok, VStr stmt))
            | None =>
                raise AttributeError "'NoneType' object has no attribute 'group'"
            end
        | _ => Ok (Some ((pos + len)%nat, tok, VStr stmt))
        end
  | None => Ok None
  end.

Definition var_token : rule := fun source pos =>
  match Re.var_match (drop pos source) with
  | Some (len, g1) => Ok (Some ((pos + len)%nat, K_var, VStr (Re.line_join_sub g1)))
  | None => Ok None
  end.

Definition mtok : rule := fun source pos =>
  match Re.markup_match (drop pos source) with
  | Some m =>
      let prev := match char_before source pos with
                  | Some c => c
                  | None => ch_nl
                  end in
      Ok (Some ((pos + String.length m)%nat, K_markup,
                VStr (Re.line_join_sub (drop 1 (Re.unescape (String prev m))))))
  | None => Ok None
  end.

Definition parser_rules : list rule := [stmt_token; var_token; mtok].

Definition parser_tokenize : string -> res (list token) := tokenize parser_rules.

(** [Parser.end_continue]. *)
Fixpoint end_continue (tokens : list token) : list token :=
  match tokens with
  | [] => []
  | (lineno, tok, value) :: rest =>
      if kind_eqb tok K_continue
      then (lineno, K_end, VNone) :: (lineno, K_compound, value) :: end_continue rest
      else (lineno, tok, value) :: end_continue rest
  end.

Definition flush_operands (operands : list token) : list node :=
  match operands with
  | [] => []
  | (l, _, _) :: _ => [Node l K_out (NOut operands)]
  end.

Definition missing_end (line : Z) : exc :=
  Exc SyntaxError ("Missing " ++ dq ++ "end" ++ dq ++ " statement at line "
                   ++ str_of_Z line ++ ".").

(** [token != 'extends' and vals and vals[-1][1] != 'end'], with the line
    [vals[-1][0]] that the error reports. *)
Definition unclosed (tok : kind) (vals : list node) : option Z :=
  if kind_eqb tok K_extends then None
  else match last vals with
       | Some (Node l k _) => if kind_eqb k K_end then None else Some l
       | None => None
       end.

(** [Parser.parse_iter].  The generator and its recursive instances draw from
    one shared iterator: the model returns the nodes it yields together with
    the tokens it leaves in the iterator.  [fuel] bounds the recursion; every
    call consumes a token first, so [len(tokens) + 1] is enough. *)
Fixpoint parse_iter (fuel : nat) (tokens : list token) (operands : list token)
  : res (list node * list token) :=
  match fuel with
  | O => OutOfFuel
  | S fuel' =>
      match tokens with
      | [] => Ok (flush_operands operands, [])
      | (lineno, tok, value) :: rest =>
          if OUT_TOKENS tok
          then parse_iter fuel' rest (operands ++ [(lineno, tok, value)])%list
          else
            let pre := flush_operands operands in
            if COMPOUND_TOKENS tok then
              do '(vals, rest1) <- parse_iter fuel' rest [];
              match unclosed tok vals with
              | Some l => Raise (missing_end l)
              | None =>
                  do '(more, rest2) <- parse_iter fuel' rest1 [];
                  Ok ((pre ++ Node lineno tok (NBlock value vals) :: more)%list, rest2)
              end
            else if kind_eqb tok K_end
            then Ok ((pre ++ [Node lineno tok (NLeaf value)])%list, rest)
            else
              do '(more, rest1) <- parse_iter fuel' rest [];
              Ok ((pre ++ Node lineno tok (NLeaf value) :: more)%list, rest1)
      end
  end.

(** [self.parser.parse_iter(self.parser.end_continue(tokens))], forced by
    [list(nodes)] in [compile_template]. *)
Definition parse_nodes (tokens : list token) : res (list node) :=
  let tokens := end_continue tokens in
  do '(nodes, _) <- parse_iter (S (length tokens)) tokens [];
  Ok nodes.

(** ** [repr] of a [str] *)

Definition hex_digit (n : nat) : ascii :=
  if (n <? 10)%nat then chr (48 + n) else chr (87 + n).

Definition hex2 (c : ascii) : string :=
  String (hex_digit (ord c / 16)) (String (hex_digit (ord c mod 16)) "").

(** [str.isprintable] of one character below 256. *)
Definition isprintable (c : ascii) : bool :=
  in_range 32 126 c || (in_range 161 255 c && negb (ord c =? 173)%nat).

Definition repr_char (q : ascii) (c : ascii) : string :=
  if Ascii.eqb c q || Ascii.eqb c ch_bs then String ch_bs (String c "")
  else if Ascii.eqb c ch_tab then "\t"
  else if Ascii.eqb c ch_nl then "\n"
  else if Ascii.eqb c ch_cr then "\r"
  else if isprintable c then String c ""
  else "\x" ++ hex2 c.

Fixpoint repr_body (q : ascii) (s : string) : string :=
  match s with
  | "" => ""
  | String c s' => repr_char q c ++ repr_body q s'
  end.

(** The quote is a double quote only when the string holds a single quote
    and no double quote. *)
Definition repr_quote (s : string) : ascii :=
  if has_char ch_sq s && negb (has_char ch_dq s) then ch_dq else ch_sq.

Definition repr (s : string) : string :=
  let q := repr_quote s in
  String q (repr_body q s ++ String q "").

(** ** BlockBuilder (lines 1711-1866) *)

(** The builder is a list of source lines with the fields [indent],
    [lineno], [offset], [local_vars] and [default_filters]. *)
Record builder := Builder {
  lines : list string;
  indent : string;
  lineno : Z;
  offset : Z;
  local_vars : list string;
  default_filters : list string
}.

Definition set_lines (b : builder) (l : list string) : builder :=
  Builder l (indent b) (lineno b) (offset b) (local_vars b) (default_filters b).
Definition set_indent (b : builder) (i : string) : builder :=
  Builder (lines b) i (lineno b) (offset b) (local_vars b) (default_filters b).
Definition set_lineno (b : builder) (n : Z) : builder :=
  Builder (lines b) (indent b) n (offset b) (local_vars b) (default_filters b).
Definition set_local_vars (b : builder) (v : list string) : builder :=
  Builder (lines b) (indent b) (lineno b) (offset b) v (default_filters b).

(** [filters.get(f, f)] on the class attribute [filters = {'e': 'escape'}]. *)
Definition filters_get (f : string) : string :=
  if String.eqb f "e" then "escape" else f.

Definition writer_declare : string := "_b = []; w = _b.append".
Definition writer_return : string := "return " ++ dq ++ dq ++ ".join(_b)".

(** [__enter__] and the [__exit__] of a block that did not raise. *)
Definition enter (b : builder) : builder := set_indent b (indent b ++ "    ").
Definition exit (b : builder) : builder :=
  set_indent b (take (String.length (indent b) - 4) (indent b)).

(** [self[-1] = f(self[-1])]. *)
Fixpoint map_last (f : string -> string) (l : list string) : list string :=
  match l with
  | [] => []
  | [x] => [f x]
  | x :: l' => x :: map_last f l'
  end.

(** [BlockBuilder.add]. *)
Definition add (lineno0 : Z) (code : string) (b : builder) : res builder :=
  if (lineno0 <? lineno b)%Z then raise AssertionError ""
  else
    let code := if String.eqb code "return" then writer_return else code in
    do new_lines <-
      (if (lineno b <? lineno0)%Z then
         let pad := (lineno0 - lineno b - 1)%Z in
         Ok (lines b ++ repeat "" (Z.to_nat pad)
               ++ [if String.eqb code "" then "" else (indent b ++ code)%string])%list
       else if negb (String.eqb code "") then
         match last (lines b) with
         | None => raise IndexError "list index out of range"
         | Some l =>
             Ok (map_last (fun l =>
                   (if String.eqb l "" then indent b
                    else if negb (String.eqb (drop (String.length l - 1) l) ":")
                    then l ++ "; " else l) ++ code) (lines b))
         end
       else Ok (lines b));
    Ok (set_lineno (set_lines b new_lines) (lineno0 + Z.of_nat (count_nl code))%Z).

(** [s.rsplit(None, 2)], through the reversed string. *)
Fixpoint rev_string (acc : string) (s : string) : string :=
  match s with
  | "" => acc
  | String c s' => rev_string (String c acc) s'
  end.

(** On the reversed text: up to [n] words from the front, then the rest with
    the white space in front of it removed; every part is turned back. *)
Fixpoint rsplit_rev (fuel : nat) (n : nat) (s : string) : list string :=
  let s := lstrip s in
  match fuel with
  | O => []
  | S fuel' =>
      if String.eqb s "" then []
      else match n with
           | O => [rev_string "" s]
           | S n' =>
               let '(w, r) := span (fun c => negb (isspace c)) s in
               (rsplit_rev fuel' n' r ++ [rev_string "" w])%list
           end
  end.

Definition rsplit2 (s : string) : list string :=
  rsplit_rev 4 2 (rev_string "" s).

(** [isidentifier = re.compile(r'[a-zA-Z_]\w*').match]: a match at the start
    of the string, not of the whole string. *)
Definition isidentifier (s : string) : bool :=
  match s with
  | String c _ =>
      in_range 65 90 c || in_range 97 122 c || (ord c =? 95)%nat
  | "" => false
  end.

(** [s.index(c, start)]. *)
Fixpoint index_from (c : ascii) (start : nat) (i : nat) (s : string) : option nat :=
  match s with
  | "" => None
  | String c' s' =>
      if (start <=? i)%nat && Ascii.eqb c' c then Some i
      else index_from c start (S i) s'
  end.

(** [setdefs('?', name)]. *)
Definition setdefs (name : string) : string :=
  replace "?" name "super_defs['?'] = ?; ? = local_defs.setdefault('?', ?)".

Definition kind_name (k : kind) : string :=
  match k with
  | K_markup => "markup" | K_var => "var" | K_include => "include"
  | K_require => "require" | K_import => "import" | K_from => "from"
  | K_statement => "statement" | K_compound => "compound"
  | K_continue => "continue" | K_end => "end" | K_comment => "#"
  | K_extends => "extends" | K_def => "def" | K_out => "out"
  | K_render => "render"
  end.

Definition build_import (lineno0 : Z) (value : string) (b : builder) : res builder :=
  let value :=
    match rsplit2 (drop 7 value) with
    | [p0; p1; p2] =>
        if String.eqb p1 "as" && (mem p0 (local_vars b) || negb (isidentifier p0))
        then p2 ++ " = _i(" ++ p0 ++ ")"
        else value
    | _ => value
    end in
  add lineno0 value b.

Definition build_from (lineno0 : Z) (value : string) (b : builder) : res builder :=
  match rsplit2 (drop 5 value) with
  | [name; tok; var] =>
      let alias := var in
      do '(name, tok, var) <-
        (if String.eqb tok "as" then
           match rsplit2 name with
           | [name; tok; var] => Ok (name, tok, var)
           | _ => raise ValueError "not enough values to unpack"
           end
         else Ok (name, tok, var));
      if negb (String.eqb tok "import") then raise AssertionError ""
      else
        add lineno0
          (if mem name (local_vars b) || negb (isidentifier name)
           then alias ++ " = _i(" ++ name ++ ").local_defs['" ++ var ++ "']"
           else value) b
  | _ => raise ValueError "not enough values to unpack"
  end.

(** The code of one [var] token: the filter chain of [build_out]. *)
Definition var_filters (value : string) (defaults : list string) : string * list string :=
  match map strip (split "|" value) with
  | [] => ("", defaults)
  | v :: fs =>
      (v, if String.eqb (default "" (last fs)) "n" then removelast fs
          else (fs ++ defaults)%list)
  end.

Definition apply_filters (value : string) (fs : list string) : string :=
  fold_left (fun value f => filters_get f ++ "(" ++ value ++ ")") fs value.

Definition var_code (value : string) (defaults : list string) : string :=
  let '(v, fs) := var_filters value defaults in apply_filters v fs.

(** [BlockBuilder.build_out]. *)
Fixpoint build_out (nodes : list token) (b : builder) : res builder :=
  match nodes with
  | [] => Ok b
  | (lineno0, tok, value) :: rest =>
      do code <-
        match value with
        | VStr value =>
            Ok (if kind_eqb tok K_include
                then "_r(" ++ value ++ ", ctx, local_defs, super_defs)"
                else if kind_eqb tok K_var then var_code value (default_filters b)
                else if negb (String.eqb value "") then repr value
                else value)
        | _ => raise TypeError "token value is not a string"
        end;
      do b' <- (if negb (String.eqb code "") then add lineno0 ("w(" ++ code ++ ")") b
                else Ok b);
      build_out rest b'
  end.

(** [BlockBuilder.build_require]. *)
Definition build_require (lineno0 : Z) (values : list string) (b : builder) : res builder :=
  let stmt := join "; " (map (fun v => v ++ " = ctx['" ++ v ++ "']")
                             (List.filter (fun v => negb (mem v (local_vars b))) values)) in
  add lineno0 stmt (set_local_vars b (local_vars b ++ values)%list).

(** [BlockBuilder.build_end]. *)
Definition build_end (lineno0 : Z) (b : builder) : res builder :=
  if negb (lineno b =? lineno0)%Z then add (lineno0 - 1) "" b else Ok b.

Definition def_error (tok : kind) (stmt : string) : string :=
  "The compound statement '" ++ kind_name tok ++ "' is not allowed here. "
  ++ "Add a line before it with %#ignore." ++ nl ++ nl ++ stmt ++ nl
  ++ "    %#ignore" ++ nl ++ "    %" ++ kind_name tok ++ " ...".

Definition no_rule (tok : kind) (lineno0 : Z) : exc :=
  Exc AssertionError ("No rule to build " ++ dq ++ kind_name tok ++ dq
                      ++ " token at line " ++ str_of_Z lineno0 ++ ".").

Definition ill_formed {A} : res A := raise TypeError "ill-formed node value".

(** [single_markup] of [build_def]: the body of a [def] that holds nothing,
    or one markup token, before its [end]; with the line [ln]. *)
Definition single_markup (lineno0 : Z) (nodes : list node) : option (Z * string) :=
  match nodes with
  | [_] => Some (lineno0, "")
  | [Node _ K_out (NOut [(ln, K_markup, VStr value)]); _] => Some (ln, value)
  | _ => None
  end.

(** The test of [build_render] on its only node: an [out] node that holds
    one [markup] token; with the line and the text of that token. *)
Definition out_markup (n : node) : option (Z * string) :=
  match n with
  | Node _ k (NOut [(ln, k', VStr value)]) =>
      if kind_eqb k K_out && kind_eqb k' K_markup then Some (ln, value) else None
  | _ => None
  end.

(** [build_token] dispatches on [rules]; the rules [build_render],
    [build_def] and [build_compound] come back to it through [build_block]. *)
Fixpoint build_token (n : node) (b : builder) {struct n} : res builder :=
  let build_block :=
    fix build_block (keep : kind -> bool) (nodes : list node) (b : builder)
      {struct nodes} : res builder :=
      match nodes with
      | [] => Ok b
      | n :: nodes' =>
          if keep (node_kind n)
          then do b' <- build_token n b; build_block keep nodes' b'
          else build_block keep nodes' b
      end in
  let all := fun _ : kind => true in
  let build_extends := fun (extends : tvalue) (nodes : list node) =>
    match extends with
    | VStr extends =>
        let stmt := "return _r(" ++ extends ++ ", ctx, local_defs, super_defs)" in
        do b' <- build_block (fun k => kind_eqb k K_def || kind_eqb k K_require) nodes b;
        add (lineno b' + 1) stmt b'
    | _ => ill_formed
    end in
  let 'Node lineno0 tok value := n in
  match tok, value with
  | K_statement, NLeaf (VStr code) => add lineno0 code b
  | K_comment, _ => Ok b
  | K_import, NLeaf (VStr value) => build_import lineno0 value b
  | K_from, NLeaf (VStr value) => build_from lineno0 value b
  | K_require, NLeaf (VList values) => build_require lineno0 values b
  | K_out, NOut nodes => build_out nodes b
  | K_end, _ => build_end lineno0 b
  | K_compound, NBlock (VStr stmt) nodes =>
      do b1 <- add lineno0 stmt b;
      do b2 <- build_block all nodes (enter b1);
      Ok (exit b2)
  | K_render, NBlock _ nodes =>
      (* build_render *)
      if (0 <? lineno0)%Z then raise AssertionError ""
      else
        let extends_of := fun n : node =>
          match node_value n with
          | NBlock extends nodes' => build_extends extends nodes'
          | _ => ill_formed
          end in
        let general := fun _ : unit =>
          do b1 <- add lineno0 writer_declare b;
          do b2 <- build_block all nodes b1;
          add (lineno b2 + 1) writer_return b2 in
        match nodes with
        | [] => add lineno0 "return ''" b
        | [n1] =>
            if kind_eqb (node_kind n1) K_extends then extends_of n1
            else match out_markup n1 with
                 | Some (ln, value) => add ln ("return " ++ repr value) b
                 | None => general tt
                 end
        | [_; n2] =>
            if kind_eqb (node_kind n2) K_extends then extends_of n2
            else general tt
        | _ => general tt
        end
  | K_def, NBlock (VStr stmt) nodes =>
      (* build_def *)
      match nodes with
      | [] => raise IndexError "list index out of range"
      | Node ln tok' _ :: _ =>
          if COMPOUND_TOKENS tok' then
            do b1 <- add lineno0 stmt b;
            do b2 <- add ln ("raise SyntaxError(" ++ repr (def_error tok' stmt) ++ ")")
                         (enter b1);
            Ok (exit b2)
          else
            do b1 <- add lineno0 stmt b;
            do '(ln, b2) <-
              match single_markup lineno0 nodes with
              | None =>
                  do b2 <- add (lineno0 + 1) writer_declare (enter b1);
                  do b3 <- build_block all nodes b2;
                  let ln := lineno b3 in
                  do b4 <- add ln writer_return b3;
                  Ok (ln, b4)
              | Some (ln, markup) =>
                  do b2 <- add ln ("return " ++ repr markup) (enter b1);
                  Ok (ln, b2)
              end;
            let b3 := exit b2 in
            match index_from "(" 5 0 stmt with
            | Some i => add (ln + 1) (setdefs (take (i - 4) (drop 4 stmt))) b3
            | None => raise ValueError "substring not found"
            end
      end
  | K_statement, _ | K_import, _ | K_from, _ | K_require, _ | K_out, _
  | K_compound, _ | K_render, _ | K_def, _ => ill_formed
  | _, _ => Raise (no_rule tok lineno0)
  end.

(** [BlockBuilder.build_block]. *)
Fixpoint build_block (nodes : list node) (b : builder) : res builder :=
  match nodes with
  | [] => Ok b
  | n :: nodes' => do b' <- build_token n b; build_block nodes' b'
  end.

(** [BlockBuilder(lineno=..., nodes=..., default_filters=...)]. *)
Definition BlockBuilder (lineno0 : Z) (nodes : list node) (filters : list string)
  : res builder :=
  build_block nodes (Builder [] "" lineno0 lineno0 [] filters).

(** The text handed to [compile] by [compile_code]: ['\n'.join(self)]. *)
Definition source_text (b : builder) : string := join nl (lines b).

Definition def_render : string := "def render(ctx, local_defs, super_defs):".

(** The node list that [compile_template] wraps the parsed nodes in. *)
Definition render_nodes (nodes : list node) : list node :=
  [Node (-1) K_compound
     (NBlock (VStr def_render) [Node 0 K_render (NBlock VNone nodes)])].

(** Load-free part of [compile_template]: from source text to generated
    lines. *)
Definition generate (source : string) (filters : list string) : res builder :=
  do tokens <- parser_tokenize source;
  do nodes <- parse_nodes tokens;
  BlockBuilder (-2) (render_nodes nodes) filters.

(** ** The Python of the generated code: syntax

    [compile_code] hands the generated text to Python's [compile].  The
    fragment below covers what the builder emits for the templates studied
    here: [def], [for], [if]/[elif]/[else], assignments, [return], [raise],
    calls, subscripts, attributes, string and integer literals, list and dict
    displays, [in], [==], [not], [and], [or] and [+].  Text outside the
    fragment is reported as [Unsupported], never as an error of Python's. *)

Set Warnings "-register-all".

Inductive ptok :=
| PT_name (s : string)
| PT_int (z : Z)
| PT_str (s : string)
| PT_op (s : string).

Inductive lex_mode :=
| M_start
| M_name (acc : string)
| M_int (acc : Z)
| M_str (q : ascii) (acc : string)
| M_esc (q : ascii) (acc : string)
| M_hex1 (q : ascii) (acc : string)
| M_hex2 (q : ascii) (acc : string) (d : nat).

Definition is_name_start (c : ascii) : bool :=
  in_range 65 90 c || in_range 97 122 c || (ord c =? 95)%nat.
Definition is_digit (c : ascii) : bool := in_range 48 57 c.
Definition is_name_char (c : ascii) : bool := is_name_start c || is_digit c.
Definition is_quote (c : ascii) : bool := Ascii.eqb c ch_sq || Ascii.eqb c ch_dq.

Definition hex_value (c : ascii) : option nat :=
  if is_digit c then Some (ord c - 48)
  else if in_range 97 102 c then Some (ord c - 87)
  else if in_range 65 70 c then Some (ord c - 55)
  else None.

Definition ops2 : list string := ["=="; "!="; "<="; ">="; "**"; "//"; "->"; "<<"; ">>";
                                  "+="; "-="; "*="; "/="; "%="; "|="; "&="; "^="; ":="].
Definition ops1 : string := "()[]{},:.=;+-*/%<>|&^~@".

Definition snoc (s : string) (c : ascii) : string := s ++ String c "".

Definition cons_tok (t : ptok) (r : res (list ptok)) : res (list ptok) :=
  do l <- r; Ok (t :: l).

(** The tokens of one physical line. *)
Fixpoint py_lex (m : lex_mode) (s : string) : res (list ptok) :=
  match s with
  | "" =>
      match m with
      | M_start => Ok []
      | M_name acc => Ok [PT_name acc]
      | M_int acc => Ok [PT_int acc]
      | _ => Unsupported "string literal open at the end of the line"
      end
  | String c s' =>
      let start (_ : unit) : res (list ptok) :=
        if Ascii.eqb c " " then py_lex M_start s'
        else if Ascii.eqb c "#" then Ok []
        else if is_name_start c then py_lex (M_name (String c "")) s'
        else if is_digit c then py_lex (M_int (Z.of_nat (ord c - 48))) s'
        else if is_quote c then
          if startswith (String c (String c "")) s'
          then Unsupported "triple-quoted string"
          else py_lex (M_str c "") s'
        else
          match s' with
          | String c' s'' =>
              if mem (String c (String c' "")) ops2
              then cons_tok (PT_op (String c (String c' ""))) (py_lex M_start s'')
              else if has_char c ops1
              then cons_tok (PT_op (String c "")) (py_lex M_start s')
              else Unsupported "character"
          | "" =>
              if has_char c ops1 then Ok [PT_op (String c "")]
              else Unsupported "character"
          end in
      match m with
      | M_start => start tt
      | M_name acc =>
          if is_name_char c then py_lex (M_name (snoc acc c)) s'
          else if is_quote c then Unsupported "string prefix"
          else cons_tok (PT_name acc) (start tt)
      | M_int acc =>
          if is_digit c then py_lex (M_int (acc * 10 + Z.of_nat (ord c - 48))%Z) s'
          else if is_name_char c || Ascii.eqb c "." then Unsupported "number"
          else cons_tok (PT_int acc) (start tt)
      | M_str q acc =>
          if Ascii.eqb c q then cons_tok (PT_str acc) (py_lex M_start s')
          else if Ascii.eqb c ch_bs then py_lex (M_esc q acc) s'
          else py_lex (M_str q (snoc acc c)) s'
      | M_esc q acc =>
          if Ascii.eqb c ch_bs || is_quote c then py_lex (M_str q (snoc acc c)) s'
          else if Ascii.eqb c "n" then py_lex (M_str q (snoc acc ch_nl)) s'
          else if Ascii.eqb c "r" then py_lex (M_str q (snoc acc ch_cr)) s'
          else if Ascii.eqb c "t" then py_lex (M_str q (snoc acc ch_tab)) s'
          else if Ascii.eqb c "x" then py_lex (M_hex1 q acc) s'
          else Unsupported "escape sequence"
      | M_hex1 q acc =>
          match hex_value c with
          | Some d => py_lex (M_hex2 q acc d) s'
          | None => Unsupported "escape sequence"
          end
      | M_hex2 q acc d =>
          match hex_value c with
          | Some d' => py_lex (M_str q (snoc acc (chr (16 * d + d')))) s'
          | None => Unsupported "escape sequence"
          end
      end
  end.

Inductive expr :=
| E_name (x : string)
| E_const (c : string)              (* None, True, False *)
| E_int (z : Z)
| E_str (s : string)
| E_list (items : list expr)
| E_dict                             (* the empty display *)
| E_call (f : expr) (args : list expr)
| E_sub (e : expr) (i : expr)
| E_attr (e : expr) (a : string)
| E_in (negated : bool) (a b : expr)
| E_eq (negated : bool) (a b : expr)
| E_not (e : expr)
| E_and (a b : expr)
| E_or (a b : expr)
| E_add (a b : expr).

Inductive stmt :=
| S_expr (e : expr)
| S_assign (target : expr) (e : expr)
| S_return (e : option expr)
| S_raise (e : expr)
| S_pass
| S_if (cond : expr) (body : list stmt) (orelse : list stmt)
| S_for (x : string) (iter : expr) (body : list stmt)
| S_def (name : string) (params : list string) (body : list stmt).

Definition keywords : list string :=
  ["and"; "as"; "assert"; "async"; "await"; "break"; "class"; "continue"; "def";
   "del"; "elif"; "else"; "except"; "finally"; "for"; "from"; "global"; "if";
   "import"; "in"; "is"; "lambda"; "nonlocal"; "not"; "or"; "pass"; "raise";
   "return"; "try"; "while"; "with"; "yield"].

Definition py_syntax_error {A} (msg : string) : res A := raise SyntaxError msg.

(** Tokens that can follow a complete expression. *)
Definition ends_expr (ts : list ptok) : bool :=
  match ts with
  | [] => true
  | PT_op o :: _ => mem o [")"; "]"; "}"; ","; ":"; "="; ";"]
  | PT_name k :: _ => mem k ["in"; "and"; "or"; "not"; "if"; "else"; "for"; "is"]
  | _ => false
  end.

(** [Some rest] when the tokens start with the operator, or the name, [k]. *)
Definition eat_op (k : string) (ts : list ptok) : option (list ptok) :=
  match ts with
  | PT_op o :: ts' => if String.eqb o k then Some ts' else None
  | _ => None
  end.

Definition eat_name (k : string) (ts : list ptok) : option (list ptok) :=
  match ts with
  | PT_name o :: ts' => if String.eqb o k then Some ts' else None
  | _ => None
  end.

Definition eat (k : string) (ts : list ptok) : option (list ptok) :=
  match eat_op k ts with
  | Some ts' => Some ts'
  | None => eat_name k ts
  end.

(** Expressions, by recursive descent.  [lvl] is the grammar level:
    0 [or], 1 [and], 2 [not], 3 comparison, 4 sum, 5 postfix and atom. *)
Fixpoint p_expr (fuel : nat) (lvl : nat) (ts : list ptok) {struct fuel}
  : res (expr * list ptok) :=
  match fuel with
  | O => OutOfFuel
  | S fuel' =>
      match lvl with
      | 0 => do '(a, ts1) <- p_expr fuel' 1 ts; p_chain fuel' "or" E_or 1 a ts1
      | 1 => do '(a, ts1) <- p_expr fuel' 2 ts; p_chain fuel' "and" E_and 2 a ts1
      | 2 =>
          match eat_name "not" ts with
          | Some ts' => do '(a, ts1) <- p_expr fuel' 2 ts'; Ok (E_not a, ts1)
          | None => p_expr fuel' 3 ts
          end
      | 3 => do '(a, ts1) <- p_expr fuel' 4 ts; p_cmp fuel' a ts1
      | 4 => do '(a, ts1) <- p_expr fuel' 5 ts; p_chain fuel' "+" E_add 5 a ts1
      | _ => do '(a, ts1) <- p_atom fuel' ts; p_trailers fuel' a ts1
      end
  end

with p_cmp (fuel : nat) (a : expr) (ts : list ptok) {struct fuel}
  : res (expr * list ptok) :=
  match fuel with
  | O => OutOfFuel
  | S fuel' =>
      match eat_name "in" ts with
      | Some ts1 => do '(b, ts2) <- p_expr fuel' 4 ts1; Ok (E_in false a b, ts2)
      | None =>
      match eat_name "not" ts with
      | Some ts1 =>
          match eat_name "in" ts1 with
          | Some ts2 => do '(b, ts3) <- p_expr fuel' 4 ts2; Ok (E_in true a b, ts3)
          | None => Unsupported "operator"
          end
      | None =>
      match eat_op "==" ts with
      | Some ts1 => do '(b, ts2) <- p_expr fuel' 4 ts1; Ok (E_eq false a b, ts2)
      | None =>
      match eat_op "!=" ts with
      | Some ts1 => do '(b, ts2) <- p_expr fuel' 4 ts1; Ok (E_eq true a b, ts2)
      | None => Ok (a, ts)
      end end end end
  end

with p_chain (fuel : nat) (op : string) (mk : expr -> expr -> expr)
             (lvl : nat) (a : expr) (ts : list ptok) {struct fuel}
  : res (expr * list ptok) :=
  match fuel with
  | O => OutOfFuel
  | S fuel' =>
      match eat op ts with
      | Some ts' =>
          do '(b, ts1) <- p_expr fuel' lvl ts';
          p_chain fuel' op mk lvl (mk a b) ts1
      | None => Ok (a, ts)
      end
  end

with p_atom (fuel : nat) (ts : list ptok) {struct fuel} : res (expr * list ptok) :=
  match fuel with
  | O => OutOfFuel
  | S fuel' =>
      match ts with
      | PT_name x :: ts' =>
          if mem x ["None"; "True"; "False"] then Ok (E_const x, ts')
          else if mem x keywords then Unsupported "keyword in expression"
          else Ok (E_name x, ts')
      | PT_int z :: ts' => Ok (E_int z, ts')
      | PT_str s :: PT_str _ :: _ => Unsupported "adjacent string literals"
      | PT_str s :: ts' => Ok (E_str s, ts')
      | PT_op o :: ts' =>
          if String.eqb o "(" then
            do '(e, ts1) <- p_expr fuel' 0 ts';
            match eat_op ")" ts1 with
            | Some ts2 => Ok (e, ts2)
            | None => Unsupported "parenthesised expression"
            end
          else if String.eqb o "[" then
            do '(es, ts1) <- p_items fuel' "]" ts'; Ok (E_list es, ts1)
          else if String.eqb o "{" then
            match eat_op "}" ts' with
            | Some ts1 => Ok (E_dict, ts1)
            | None => Unsupported "dict display"
            end
          else Unsupported "expression"
      | [] => Unsupported "expression"
      end
  end

with p_trailers (fuel : nat) (e : expr) (ts : list ptok) {struct fuel}
  : res (expr * list ptok) :=
  match fuel with
  | O => OutOfFuel
  | S fuel' =>
      match eat_op "(" ts with
      | Some ts' =>
          do '(args, ts1) <- p_items fuel' ")" ts';
          p_trailers fuel' (E_call e args) ts1
      | None =>
      match eat_op "[" ts with
      | Some ts' =>
          do '(i, ts1) <- p_expr fuel' 0 ts';
          match eat_op "]" ts1 with
          | Some ts2 => p_trailers fuel' (E_sub e i) ts2
          | None => Unsupported "subscript"
          end
      | None =>
      match eat_op "." ts with
      | Some (PT_name a :: ts') => p_trailers fuel' (E_attr e a) ts'
      | Some _ => Unsupported "attribute"
      | None => Ok (e, ts)
      end end end
  end

with p_items (fuel : nat) (close : string) (ts : list ptok) {struct fuel}
  : res (list expr * list ptok) :=
  match fuel with
  | O => OutOfFuel
  | S fuel' =>
      match eat_op close ts with
      | Some ts' => Ok ([], ts')
      | None =>
          do '(e, ts1) <- p_expr fuel' 0 ts;
          match eat_op "," ts1 with
          | Some ts2 => do '(es, ts3) <- p_items fuel' close ts2; Ok (e :: es, ts3)
          | None =>
              match eat_op close ts1 with
              | Some ts2 => Ok ([e], ts2)
              | None => Unsupported "expression list"
              end
          end
      end
  end.

(** A whole expression, and what follows it; anything that cannot follow an
    expression of the fragment is outside the fragment. *)
Definition parse_expr (ts : list ptok) : res (expr * list ptok) :=
  do '(e, ts') <- p_expr (8 * S (length ts)) 0 ts;
  if ends_expr ts' then Ok (e, ts') else Unsupported "operator".

(** One simple statement, and the tokens after it. *)
Definition p_simple_one (ts : list ptok) : res (stmt * list ptok) :=
  match ts with
  | PT_name k :: ts' =>
      if String.eqb k "return" then
        match ts', eat_op ";" ts' with
        | [], _ | _, Some _ => Ok (S_return None, ts')
        | _, None => do '(e, ts1) <- parse_expr ts'; Ok (S_return (Some e), ts1)
        end
      else if String.eqb k "raise" then
        do '(e, ts1) <- parse_expr ts'; Ok (S_raise e, ts1)
      else if String.eqb k "pass" then Ok (S_pass, ts')
      else if mem k keywords && negb (String.eqb k "not")
      then Unsupported "statement"
      else
        do '(e, ts1) <- parse_expr ts;
        match eat_op "=" ts1 with
        | Some ts2 =>
            do '(v, ts3) <- parse_expr ts2;
            match e with
            | E_name _ | E_sub _ _ => Ok (S_assign e v, ts3)
            | _ => Unsupported "assignment target"
            end
        | None => Ok (S_expr e, ts1)
        end
  | _ => do '(e, ts1) <- parse_expr ts; Ok (S_expr e, ts1)
  end.

(** The simple statements of one line, separated by semicolons. *)
Fixpoint p_simple (fuel : nat) (ts : list ptok) : res (list stmt) :=
  match fuel with
  | O => OutOfFuel
  | S fuel' =>
      do '(st, ts1) <- p_simple_one ts;
      match ts1 with
      | [] => Ok [st]
      | _ =>
          match eat_op ";" ts1 with
          | Some [] => Ok [st]
          | Some ts2 => do sts <- p_simple fuel' ts2; Ok (st :: sts)
          | None => Unsupported "statement"
          end
      end
  end.

Inductive header :=
| H_def (name : string) (params : list string)
| H_for (x : string) (iter : expr)
| H_if (cond : expr)
| H_elif (cond : expr)
| H_else.

(** The colon that ends the header of a compound statement.  A header that
    the line ends without is Python's "expected ':'". *)
Definition expect_colon (ts : list ptok) : res (list ptok) :=
  match ts with
  | [] => py_syntax_error "expected ':'"
  | _ =>
      match eat_op ":" ts with
      | Some ts' => Ok ts'
      | None => Unsupported "compound statement header"
      end
  end.

(** The parameter names of a [def], up to the closing parenthesis. *)
Fixpoint p_params (ts : list ptok) : res (list string * list ptok) :=
  match ts with
  | PT_op o :: ts' =>
      if String.eqb o ")" then Ok ([], ts') else Unsupported "parameter list"
  | PT_name x :: ts' =>
      if mem x keywords then Unsupported "parameter list"
      else
        match ts' with
        | PT_op o :: ts'' =>
            if String.eqb o ")" then Ok ([x], ts'')
            else if String.eqb o "," then
              do '(xs, ts3) <- p_params ts''; Ok (x :: xs, ts3)
            else Unsupported "parameter list"
        | _ => Unsupported "parameter list"
        end
  | _ => Unsupported "parameter list"
  end.

(** The header of a compound statement and the tokens after its colon;
    [None] when the line does not start a compound statement. *)
Definition p_header (ts : list ptok) : res (option (header * list ptok)) :=
  match ts with
  | PT_name k :: ts' =>
      if String.eqb k "def" then
        match ts' with
        | PT_name f :: PT_op o :: ts1 =>
            if String.eqb o "(" then
              do '(params, ts2) <- p_params ts1;
              do ts3 <- expect_colon ts2;
              Ok (Some (H_def f params, ts3))
            else Unsupported "def"
        | _ => Unsupported "def"
        end
      else if String.eqb k "for" then
        match ts' with
        | PT_name x :: ts1 =>
            match eat_name "in" ts1 with
            | Some ts2 =>
                do '(e, ts3) <- parse_expr ts2;
                do ts4 <- expect_colon ts3;
                Ok (Some (H_for x e, ts4))
            | None => Unsupported "for"
            end
        | _ => Unsupported "for"
        end
      else if String.eqb k "if" then
        do '(e, ts1) <- parse_expr ts';
        do ts2 <- expect_colon ts1;
        Ok (Some (H_if e, ts2))
      else if String.eqb k "elif" then
        do '(e, ts1) <- parse_expr ts';
        do ts2 <- expect_colon ts1;
        Ok (Some (H_elif e, ts2))
      else if String.eqb k "else" then
        do ts1 <- expect_colon ts';
        Ok (Some (H_else, ts1))
      else Ok None
  | _ => Ok None
  end.

(** A logical line: its indentation and its tokens. *)
Definition pline : Type := nat * list ptok.

Definition indentation_error {A} (msg : string) : res A := py_syntax_error msg.

(** The statements of a block at indentation [ind], and the lines after it.
    [fuel] bounds the number of lines and clauses read. *)
Fixpoint p_block (fuel : nat) (ind : nat) (ls : list pline) {struct fuel}
  : res (list stmt * list pline) :=
  match fuel with
  | O => OutOfFuel
  | S fuel' =>
      match ls with
      | [] => Ok ([], [])
      | (i, ts) :: rest =>
          if (i <? ind)%nat then Ok ([], ls)
          else if (ind <? i)%nat then indentation_error "unexpected indent"
          else
            do h <- p_header ts;
            match h with
            | None =>
                do sts <- p_simple (S (length ts)) ts;
                do '(more, rest1) <- p_block fuel' ind rest;
                Ok ((sts ++ more)%list, rest1)
            | Some (H_elif _, _) | Some (H_else, _) =>
                Unsupported "clause without a statement in front of it"
            | Some (hd, inline) =>
                do '(body, rest1) <- p_suite fuel' ind inline rest;
                do '(st, rest2) <-
                  match hd with
                  | H_def f params => Ok (S_def f params body, rest1)
                  | H_for x e =>
                      do '(orelse, rest2) <- p_orelse fuel' ind rest1;
                      match orelse with
                      | None => Ok (S_for x e body, rest2)
                      | Some _ => Unsupported "else clause of a loop"
                      end
                  | H_if e =>
                      do '(orelse, rest2) <- p_orelse fuel' ind rest1;
                      Ok (S_if e body (default [] orelse), rest2)
                  | _ => Unsupported "clause"
                  end;
                do '(more, rest3) <- p_block fuel' ind rest2;
                Ok (st :: more, rest3)
            end
      end
  end

(** The body of a compound statement: the rest of its line, or the indented
    lines below it. *)
with p_suite (fuel : nat) (ind : nat) (inline : list ptok) (rest : list pline)
  {struct fuel} : res (list stmt * list pline) :=
  match fuel with
  | O => OutOfFuel
  | S fuel' =>
      match inline with
      | [] =>
          match rest with
          | (i, _) :: _ =>
              if (ind <? i)%nat then
                do '(body, rest1) <- p_block fuel' i rest;
                match rest1 with
                | (i', _) :: _ =>
                    if (ind <? i')%nat
                    then indentation_error "unindent does not match any outer indentation level"
                    else Ok (body, rest1)
                | [] => Ok (body, rest1)
                end
              else indentation_error "expected an indented block"
          | [] => indentation_error "expected an indented block"
          end
      | _ => do sts <- p_simple (S (length inline)) inline; Ok (sts, rest)
      end
  end

(** The [elif] and [else] clauses that follow a block at indentation [ind]. *)
with p_orelse (fuel : nat) (ind : nat) (ls : list pline) {struct fuel}
  : res (option (list stmt) * list pline) :=
  match fuel with
  | O => OutOfFuel
  | S fuel' =>
      match ls with
      | (i, ts) :: rest =>
          if (i =? ind)%nat then
            do h <- p_header ts;
            match h with
            | Some (H_elif e, inline) =>
                do '(body, rest1) <- p_suite fuel' ind inline rest;
                do '(orelse, rest2) <- p_orelse fuel' ind rest1;
                Ok (Some [S_if e body (default [] orelse)], rest2)
            | Some (H_else, inline) =>
                do '(body, rest1) <- p_suite fuel' ind inline rest;
                Ok (Some body, rest1)
            | _ => Ok (None, ls)
            end
          else Ok (None, ls)
      | [] => Ok (None, ls)
      end
  end.

(** The logical line of a physical line; [None] for a blank line or a
    comment. *)
Definition py_line (l : string) : res (option pline) :=
  let '(sp, r) := span is_sp l in
  if startswith (String ch_tab "") r then Unsupported "tab"
  else
    do ts <- py_lex M_start r;
    match ts with
    | [] => Ok None
    | _ => Ok (Some (String.length sp, ts))
    end.

Fixpoint py_lines (ls : list string) : res (list pline) :=
  match ls with
  | [] => Ok []
  | l :: ls' =>
      do pl <- py_line l;
      do pls <- py_lines ls';
      Ok (match pl with Some x => x :: pls | None => pls end)
  end.

(** A [return] that is not inside a [def]. *)
Fixpoint returns_outside (st : stmt) : bool :=
  match st with
  | S_return _ => true
  | S_if _ a b => existsb returns_outside a || existsb returns_outside b
  | S_for _ _ b => existsb returns_outside b
  | _ => false
  end.

(** [compile(text, name, 'exec')] on the fragment: the statements of the
    module. *)
Definition py_compile (text : string) : res (list stmt) :=
  do pls <- py_lines (split ch_nl text);
  match pls with
  | (S _, _) :: _ => indentation_error "unexpected indent"
  | _ =>
      do '(sts, rest) <- p_block (3 * S (length pls)) 0 pls;
      match rest with
      | [] =>
          if existsb returns_outside sts
          then py_syntax_error "'return' outside function"
          else Ok sts
      | _ => Unsupported "module"
      end
  end.

(** [BlockBuilder.compile_code]. *)
Definition compile_code (b : builder) : res (list stmt) :=
  py_compile (source_text b).

(** ** The Python of the generated code: values, objects and the Engine's state *)

(** Lists and dicts are objects on a heap, named by their location: the
    tables [local_defs] and [super_defs] are shared by a child template, its
    parent and every block.  A function object carries its parameters, its
    body, the frames of the functions around its definition and its globals
    ([None]: the Engine's [global_vars]; [Some l]: the namespace of an
    imported module). *)
Inductive value :=
| V_none
| V_bool (b : bool)
| V_int (z : Z)
| V_str (s : string)
| V_ref (l : nat)
| V_func (name : string) (params : list string) (body : list stmt)
         (closure : list nat) (globals : option nat)
| V_method (self : value) (name : string)
| V_builtin (name : string)
| V_exc (e : exc)
| V_module (l : nat).

Inductive obj :=
| O_list (items : list value)
| O_dict (items : list (value * value))
| O_frame (locals : list string) (vars : list (string * value)).

(** [Template]: a name and a render routine.  [t_id] is the identity of the
    object. *)
Record Template := {
  t_id : nat;
  t_name : option string;
  render_template : value
}.

(** [Loader]: the [templates] dict and the files of the template folder. *)
Record Loader := {
  loader_templates : gmap string string;
  loader_files : gmap string string;
  root_folder : string
}.

(** [Engine].  [locked] is the state of [self.lock]; [next_id] numbers the
    [Template] objects the Engine creates; [builds] counts the runs of
    [load_and_parse], that is the compilations it starts. *)
Record Engine := {
  loader : Loader;
  locked : bool;
  templates : gmap string Template;
  renders : gmap string value;
  modules : gmap string value;
  engine_filters : list string;
  next_id : nat;
  builds : nat
}.

Record world := World { heap : list obj; engine : Engine }.

Definition set_heap (w : world) (h : list obj) : world := World h (engine w).
Definition set_engine (w : world) (e : Engine) : world := World (heap w) e.

Definition set_locked (b : bool) (e : Engine) : Engine :=
  {| loader := loader e; locked := b; templates := templates e;
     renders := renders e; modules := modules e;
     engine_filters := engine_filters e; next_id := next_id e;
     builds := builds e |}.

Definition set_caches (t : gmap string Template) (r m : gmap string value)
                      (e : Engine) : Engine :=
  {| loader := loader e; locked := locked e; templates := t; renders := r;
     modules := m; engine_filters := engine_filters e; next_id := next_id e;
     builds := builds e |}.

(** [Engine(loader)], after [__init__]. *)
Definition new_engine (l : Loader) : Engine :=
  {| loader := l; locked := false; templates := ∅; renders := ∅; modules := ∅;
     engine_filters := ["str"]; next_id := 0; builds := 0 |}.

(** [Engine.clear]. *)
Definition clear (e : Engine) : Engine := set_caches ∅ ∅ ∅ e.

(** The body of [Engine.remove]. *)
Definition remove_entry (name : option string) (e : Engine) : Engine :=
  match name with
  | None => e
  | Some n =>
      let in_renders := bool_decide (is_Some (renders e !! n)) in
      set_caches (if in_renders then delete n (templates e) else templates e)
                 (if in_renders then delete n (renders e) else renders e)
                 (delete n (modules e)) e
  end.

(** A computation on the world that can raise; the world survives the
    exception, as the heap and the caches do in Python. *)
Definition M (A : Type) : Type := world -> res A * world.

Definition ret {A} (a : A) : M A := fun w => (Ok a, w).
Definition lift {A} (r : res A) : M A := fun w => (r, w).
Definition mraise {A} (t : exc_kind) (msg : string) : M A := lift (raise t msg).
Definition unsupported {A} (why : string) : M A := lift (Unsupported why).

Definition mbind {A B} (m : M A) (k : A -> M B) : M B := fun w =>
  match m w with
  | (Ok a, w') => k a w'
  | (Raise e, w') => (Raise e, w')
  | (Unsupported why, w') => (Unsupported why, w')
  | (OutOfFuel, w') => (OutOfFuel, w')
  end.

Notation "'let!' x <- m ; k" := (mbind m (fun x => k))
  (at level 10, x name, m at level 100, k at level 200).
Notation "'let!' ' p <- m ; k" := (mbind m (fun x => let 'p := x in k))
  (at level 10, p pattern, m at level 100, k at level 200).

(** [try: m except t: h]. *)
Definition catch {A} (t : exc_kind) (m : M A) (h : M A) : M A := fun w =>
  match m w with
  | (Raise e, w') =>
      if exc_kind_eqb (exc_type e) t then h w' else (Raise e, w')
  | r => r
  end.

(** The decorator [lock_acquire] (line 225).  The lock is not re-entrant: a
    second [acquire] from the thread that holds it never returns, which the
    model reports as outside the fragment. *)
Definition lock_acquire {A} (m : M A) : M A := fun w =>
  if locked (engine w) then (Unsupported "blocked on the Engine's lock", w)
  else
    let '(r, w') := m (set_engine w (set_locked true (engine w))) in
    (r, set_engine w' (set_locked false (engine w'))).

(** *** Heap *)

Definition alloc (o : obj) : M nat := fun w =>
  (Ok (length (heap w)), set_heap w (heap w ++ [o])%list).

Definition read (l : nat) : M obj := fun w =>
  match heap w !! l with
  | Some o => (Ok o, w)
  | None => (Unsupported "dangling location", w)
  end.

Definition write (l : nat) (o : obj) : M unit := fun w =>
  (Ok tt, set_heap w (<[l := o]> (heap w))).

Definition get_engine : M Engine := fun w => (Ok (engine w), w).
Definition put_engine (e : Engine) : M unit := fun w => (Ok tt, set_engine w e).

(** [a == b] on the values that can be dict keys in the fragment: [None],
    numbers ([True] is 1 and [False] is 0) and strings. *)
Definition value_eqb (a b : value) : option bool :=
  let num v := match v with
               | V_bool x => Some (Z.b2z x)
               | V_int z => Some z
               | _ => None
               end in
  let prim v := match v with
                | V_none | V_bool _ | V_int _ | V_str _ => true
                | _ => false
                end in
  if prim a && prim b then
    Some match a, b with
         | V_none, V_none => true
         | V_str x, V_str y => String.eqb x y
         | _, _ =>
             match num a, num b with
             | Some x, Some y => (x =? y)%Z
             | _, _ => false
             end
         end
  else None.

Fixpoint dict_get (k : value) (d : list (value * value)) : res (option value) :=
  match d with
  | [] => Ok None
  | (k', v) :: d' =>
      match value_eqb k' k with
      | Some true => Ok (Some v)
      | Some false => dict_get k d'
      | None => Unsupported "dict key"
      end
  end.

Fixpoint dict_set (k v : value) (d : list (value * value)) : res (list (value * value)) :=
  match d with
  | [] => Ok [(k, v)]
  | (k', v') :: d' =>
      match value_eqb k' k with
      | Some true => Ok ((k', v) :: d')
      | Some false => do d'' <- dict_set k v d'; Ok ((k', v') :: d'')
      | None => Unsupported "dict key"
      end
  end.

Fixpoint assoc (x : string) (l : list (string * value)) : option value :=
  match l with
  | [] => None
  | (y, v) :: l' => if String.eqb y x then Some v else assoc x l'
  end.

Fixpoint assoc_set (x : string) (v : value) (l : list (string * value))
  : list (string * value) :=
  match l with
  | [] => [(x, v)]
  | (y, v') :: l' =>
      if String.eqb y x then (y, v) :: l' else (y, v') :: assoc_set x v l'
  end.

(** [repr] of a key, the text of a [KeyError]. *)
Definition key_repr (k : value) : string :=
  match k with
  | V_str s => repr s
  | V_int z => str_of_Z z
  | V_none => "None"
  | V_bool true => "True"
  | V_bool false => "False"
  | _ => ""
  end.

(** *** Scopes *)

(** The names a function body binds: they are its local variables. *)
Fixpoint stmt_bound (st : stmt) : list string :=
  let fix block (body : list stmt) : list string :=
    match body with
    | [] => []
    | st :: body' => (stmt_bound st ++ block body')%list
    end in
  match st with
  | S_assign (E_name x) _ => [x]
  | S_for x _ b => x :: block b
  | S_def f _ _ => [f]
  | S_if _ a b => (block a ++ block b)%list
  | _ => []
  end.

Definition bound_names (body : list stmt) : list string :=
  concat (map stmt_bound body).

(** Where code runs: the frames of the running function and of the
    functions around it, or the locals dict of module-level code; and the
    globals. *)
Record env := Env {
  frames : list nat;
  module_locals : option nat;
  globals : option nat
}.

(** [Engine.global_vars]. *)
Definition global_vars (x : string) : option value :=
  if mem x ["_r"; "_i"; "str"; "escape"] then Some (V_builtin x) else None.

(** The names of Python's built-in namespace.  [SyntaxError] alone is
    modelled; the others are outside the fragment. *)
Definition builtin_names : list string :=
  ["abs"; "all"; "any"; "ascii"; "bin"; "bool"; "breakpoint"; "bytearray";
   "bytes"; "callable"; "chr"; "classmethod"; "compile"; "complex"; "delattr";
   "dict"; "dir"; "divmod"; "enumerate"; "eval"; "exec"; "filter"; "float";
   "format"; "frozenset"; "getattr"; "globals"; "hasattr"; "hash"; "help";
   "hex"; "id"; "input"; "int"; "isinstance"; "issubclass"; "iter"; "len";
   "list"; "locals"; "map"; "max"; "memoryview"; "min"; "next"; "object";
   "oct"; "open"; "ord"; "pow"; "print"; "property"; "range"; "repr";
   "reversed"; "round"; "set"; "setattr"; "slice"; "sorted"; "staticmethod";
   "sum"; "super"; "tuple"; "type"; "vars"; "zip"; "Ellipsis";
   "NotImplemented"; "exit"; "quit"; "copyright"; "credits"; "license";
   "aiter"; "anext"; "unicode"; "basestring"; "long"; "xrange"; "unichr";
   "raw_input"; "reduce"; "cmp"; "execfile"; "file"; "apply"; "buffer";
   "coerce"; "intern"; "reload"].

(** Built-in names end in [Error], [Exception], [Warning] or start with a
    double underscore when they are not in the list above. *)
Definition endswith (suffix s : string) : bool :=
  startswith (rev_string "" suffix) (rev_string "" s).

Definition is_builtin_name (x : string) : bool :=
  mem x builtin_names || endswith "Error" x || endswith "Exception" x
  || endswith "Warning" x || startswith "__" x
  || mem x ["KeyboardInterrupt"; "SystemExit"; "StopIteration";
            "StopAsyncIteration"; "GeneratorExit"; "BaseExceptionGroup";
            "ExceptionGroup"].

Definition name_error {A} (x : string) : M A :=
  mraise NameError ("name '" ++ x ++ "' is not defined").

(** The global and built-in part of a name lookup. *)
Definition lookup_global (g : option nat) (x : string) : M value :=
  let builtin : M value :=
    match global_vars x with
    | Some v => ret v
    | None =>
        if String.eqb x "SyntaxError" then ret (V_builtin x)
        else if is_builtin_name x then unsupported "built-in name"
        else name_error x
    end in
  match g with
  | None => builtin
  | Some l =>
      let! o <- read l;
      match o with
      | O_dict d =>
          let! r <- lift (dict_get (V_str x) d);
          match r with
          | Some v => ret v
          | None => builtin
          end
      | _ => unsupported "globals"
      end
  end.

(** The frames of the enclosing functions, innermost first. *)
Fixpoint lookup_frames (fs : list nat) (x : string) (g : option nat) : M value :=
  match fs with
  | [] => lookup_global g x
  | f :: fs' =>
      let! o <- read f;
      match o with
      | O_frame locals vars =>
          if mem x locals then
            match assoc x vars with
            | Some v => ret v
            | None => mraise NameError ("variable '" ++ x ++ "' referenced before assignment")
            end
          else lookup_frames fs' x g
      | _ => unsupported "frame"
      end
  end.

Definition lookup (en : env) (x : string) : M value :=
  match frames en, module_locals en with
  | [], Some l =>
      let! o <- read l;
      match o with
      | O_dict d =>
          let! r <- lift (dict_get (V_str x) d);
          match r with
          | Some v => ret v
          | None => lookup_global (globals en) x
          end
      | _ => unsupported "locals"
      end
  | fs, _ => lookup_frames fs x (globals en)
  end.

Definition store (en : env) (x : string) (v : value) : M unit :=
  match frames en, module_locals en with
  | f :: _, _ =>
      let! o <- read f;
      match o with
      | O_frame locals vars => write f (O_frame locals (assoc_set x v vars))
      | _ => unsupported "frame"
      end
  | [], Some l =>
      let! o <- read l;
      match o with
      | O_dict d => let! d' <- lift (dict_set (V_str x) v d); write l (O_dict d')
      | _ => unsupported "locals"
      end
  | [], None => unsupported "scope"
  end.

(** *** Built-in operations *)

(** [bool(v)]. *)
Definition truthy (v : value) : M bool :=
  match v with
  | V_none => ret false
  | V_bool b => ret b
  | V_int z => ret (negb (z =? 0)%Z)
  | V_str s => ret (negb (String.eqb s ""))
  | V_ref l =>
      let! o <- read l;
      match o with
      | O_list items => ret (negb (length items =? 0)%nat)
      | O_dict items => ret (negb (length items =? 0)%nat)
      | O_frame _ _ => unsupported "frame"
      end
  | _ => ret true
  end.

(** [str(v)] ([unicode]). *)
Definition py_str (v : value) : M string :=
  match v with
  | V_str s => ret s
  | V_int z => ret (str_of_Z z)
  | V_none => ret "None"
  | V_bool true => ret "True"
  | V_bool false => ret "False"
  | _ => unsupported "str of an object"
  end.

(** [escape_html] (line 149). *)
Definition escape_html (s : string) : string :=
  replace "'" "&#x27;"
    (replace dq "&quot;"
       (replace ">" "&gt;" (replace "<" "&lt;" (replace "&" "&amp;" s)))).

(** [sep.join(items)]. *)
Fixpoint join_values (items : list value) : res (list string) :=
  match items with
  | [] => Ok []
  | V_str s :: items' => do l <- join_values items'; Ok (s :: l)
  | _ => raise TypeError "sequence item: expected str instance"
  end.

Definition getitem (c i : value) : M value :=
  match c with
  | V_ref l =>
      let! o <- read l;
      match o, i with
      | O_dict d, _ =>
          let! r <- lift (dict_get i d);
          match r with
          | Some v => ret v
          | None => mraise KeyError (key_repr i)
          end
      | O_list items, V_int z =>
          let n := Z.of_nat (length items) in
          let z' := if (z <? 0)%Z then (z + n)%Z else z in
          match (if (z' <? 0)%Z then None else items !! Z.to_nat z') with
          | Some v => ret v
          | None => mraise IndexError "list index out of range"
          end
      | _, _ => unsupported "subscript"
      end
  | _ => unsupported "subscript"
  end.

(** [c[i] = v]: on a dict; a function has no item assignment, which is
    Python's [TypeError]. *)
Definition setitem (c i v : value) : M unit :=
  match c with
  | V_ref l =>
      let! o <- read l;
      match o with
      | O_dict d => let! d' <- lift (dict_set i v d); write l (O_dict d')
      | _ => unsupported "item assignment"
      end
  | V_func _ _ _ _ _ =>
      mraise TypeError "'function' object does not support item assignment"
  | _ => unsupported "item assignment"
  end.

(** [a in b]. *)
Fixpoint list_contains (a : value) (items : list value) : res bool :=
  match items with
  | [] => Ok false
  | x :: items' =>
      match value_eqb x a with
      | Some true => Ok true
      | Some false => list_contains a items'
      | None => Unsupported "comparison"
      end
  end.

Definition contains (a b : value) : M bool :=
  match b with
  | V_ref l =>
      let! o <- read l;
      match o with
      | O_dict d => let! r <- lift (dict_get a d); ret (bool_decide (is_Some r))
      | O_list items => lift (list_contains a items)
      | _ => unsupported "membership"
      end
  | _ => unsupported "membership"
  end.

(** The methods of lists, dicts and strings that the fragment knows. *)
Definition call_method (self : value) (m : string) (args : list value) : M value :=
  match self with
  | V_ref l =>
      let! o <- read l;
      match o with
      | O_list items =>
          if String.eqb m "append" then
            match args with
            | [v] => let! _ <- write l (O_list (items ++ [v])%list); ret V_none
            | _ => mraise TypeError "append() takes exactly one argument"
            end
          else unsupported "list method"
      | O_dict d =>
          if String.eqb m "setdefault" || String.eqb m "get" then
            let! '(k, dflt) <-
              match args with
              | [k] => ret (k, V_none)
              | [k; dflt] => ret (k, dflt)
              | _ => mraise TypeError "wrong number of arguments"
              end;
            let! r <- lift (dict_get k d);
            match r with
            | Some v => ret v
            | None =>
                if String.eqb m "setdefault" then
                  let! d' <- lift (dict_set k dflt d);
                  let! _ <- write l (O_dict d');
                  ret dflt
                else ret dflt
            end
          else unsupported "dict method"
      | O_frame _ _ => unsupported "frame"
      end
  | V_str sep =>
      if String.eqb m "join" then
        match args with
        | [V_ref l] =>
            let! o <- read l;
            match o with
            | O_list items => let! l <- lift (join_values items); ret (V_str (join sep l))
            | _ => unsupported "join"
            end
        | _ => unsupported "join"
        end
      else unsupported "str method"
  | _ => unsupported "method"
  end.

(** ** Loader (lines 1583-1606) *)

(** [Loader.load].  A name that is not in [templates] is a file of the
    template folder, read and decoded, or else [open] raises. *)
Definition load (l : Loader) (name : option string) (source : option string)
  : res (option string * string) :=
  match source with
  | Some src => Ok (name, src)
  | None =>
      match name with
      | None => raise TypeError "expected str, bytes or os.PathLike object, not NoneType"
      | Some n =>
          match loader_templates l !! n with
          | Some text => Ok (Some n, text)
          | None =>
              let path := root_folder l ++ "/templates/" ++ n in
              match loader_files l !! n with
              | Some text => Ok (Some path, text)
              | None => raise IOError path
              end
          end
      end
  end.

(** The keyword arguments of [get_template] and [compile_template] that the
    caller gives. *)
Record kwargs := {
  kw_source : option string;
  kw_default_filters : option (list string)
}.

Definition no_kwargs : kwargs := {| kw_source := None; kw_default_filters := None |}.

Definition given (kw : kwargs) : bool :=
  match kw_source kw, kw_default_filters kw with
  | None, None => false
  | _, _ => true
  end.

(** The truth value of a name: neither [None] nor empty. *)
Definition name_true (name : option string) : bool :=
  match name with
  | Some n => negb (String.eqb n "")
  | None => false
  end.

(** [Engine.load_and_parse], with the [list(nodes)] that forces the parse. *)
Definition load_and_parse (e : Engine) (name : option string) (kw : kwargs)
  : res (option string * list node * list string) :=
  let filters := default (engine_filters e) (kw_default_filters kw) in
  do '(path, template_source) <- load (loader e) name (kw_source kw);
  do tokens <- parser_tokenize template_source;
  do nodes <- parse_nodes tokens;
  Ok (path, nodes, filters).

(** The node list of [compile_import]. *)
Definition import_nodes (nodes : list node) : list node :=
  (Node (-1) K_statement (NLeaf (VStr "local_defs = {}; super_defs = {}"))
     :: List.filter (fun n => kind_eqb (node_kind n) K_def) nodes)%list.

Definition cache_template (name : string) (t : Template) (e : Engine) : Engine :=
  set_caches (<[name := t]> (templates e))
             (<[name := render_template t]> (renders e)) (modules e) e.

Definition cache_module (name : string) (m : value) (e : Engine) : Engine :=
  set_caches (templates e) (renders e) (<[name := m]> (modules e)) e.

Definition count_build (e : Engine) : Engine :=
  {| loader := loader e; locked := locked e; templates := templates e;
     renders := renders e; modules := modules e;
     engine_filters := engine_filters e; next_id := next_id e;
     builds := S (builds e) |}.

Definition fresh_id : M nat := fun w =>
  let e := engine w in
  (Ok (next_id e),
   set_engine w {| loader := loader e; locked := locked e;
                   templates := templates e; renders := renders e;
                   modules := modules e; engine_filters := engine_filters e;
                   next_id := S (next_id e); builds := builds e |}).

(** [Engine.remove]. *)
Definition remove (name : option string) : M unit :=
  lock_acquire (fun w => (Ok tt, set_engine w (remove_entry name (engine w)))).

(** ** The Python of the generated code: evaluation, and the Engine (lines
    1869-1959) that the code calls back through [_r] and [_i] *)

Inductive signal :=
| Normal
| Returned (v : value).

Definition out_of_fuel {A} : M A := lift OutOfFuel.

(** The name argument of [_r] and [_i]. *)
Definition as_name (v : value) : M (option string) :=
  match v with
  | V_str s => ret (Some s)
  | V_none => ret None
  | _ => unsupported "template name"
  end.

Definition cached {A} (m : gmap string A) (name : option string) : option A :=
  match name with
  | Some n => m !! n
  | None => None
  end.

Definition key_error {A} (name : option string) : M A :=
  mraise KeyError (match name with Some n => repr n | None => "None" end).

Fixpoint eval (fuel : nat) (en : env) (e : expr) {struct fuel} : M value :=
  match fuel with
  | O => out_of_fuel
  | S fuel' =>
      match e with
      | E_name x => lookup en x
      | E_const c =>
          ret (if String.eqb c "None" then V_none else V_bool (String.eqb c "True"))
      | E_int z => ret (V_int z)
      | E_str s => ret (V_str s)
      | E_list items =>
          let! vs <- eval_list fuel' en items;
          let! l <- alloc (O_list vs);
          ret (V_ref l)
      | E_dict => let! l <- alloc (O_dict []); ret (V_ref l)
      | E_call f args =>
          let! fv <- eval fuel' en f;
          let! vs <- eval_list fuel' en args;
          call fuel' fv vs
      | E_sub c i =>
          let! cv <- eval fuel' en c;
          let! iv <- eval fuel' en i;
          getitem cv iv
      | E_attr c a =>
          let! cv <- eval fuel' en c;
          match cv with
          | V_module l =>
              let! o <- read l;
              match o with
              | O_dict d =>
                  let! r <- lift (dict_get (V_str a) d);
                  match r with
                  | Some v => ret v
                  | None => mraise AttributeError ("module has no attribute '" ++ a ++ "'")
                  end
              | _ => unsupported "module"
              end
          | V_ref l =>
              let! o <- read l;
              match o with
              | O_list _ =>
                  if String.eqb a "append" then ret (V_method cv a)
                  else unsupported "attribute"
              | O_dict _ =>
                  if String.eqb a "setdefault" || String.eqb a "get"
                  then ret (V_method cv a) else unsupported "attribute"
              | O_frame _ _ => unsupported "attribute"
              end
          | V_str _ =>
              if String.eqb a "join" then ret (V_method cv a)
              else unsupported "attribute"
          | _ => unsupported "attribute"
          end
      | E_in negated a b =>
          let! av <- eval fuel' en a;
          let! bv <- eval fuel' en b;
          let! r <- contains av bv;
          ret (V_bool (xorb negated r))
      | E_eq negated a b =>
          let! av <- eval fuel' en a;
          let! bv <- eval fuel' en b;
          match value_eqb av bv with
          | Some r => ret (V_bool (xorb negated r))
          | None => unsupported "comparison"
          end
      | E_not a =>
          let! av <- eval fuel' en a;
          let! t <- truthy av;
          ret (V_bool (negb t))
      | E_and a b =>
          let! av <- eval fuel' en a;
          let! t <- truthy av;
          if t then eval fuel' en b else ret av
      | E_or a b =>
          let! av <- eval fuel' en a;
          let! t <- truthy av;
          if t then ret av else eval fuel' en b
      | E_add a b =>
          let! av <- eval fuel' en a;
          let! bv <- eval fuel' en b;
          match av, bv with
          | V_str x, V_str y => ret (V_str (x ++ y))
          | V_int x, V_int y => ret (V_int (x + y))
          | _, _ => unsupported "addition"
          end
      end
  end

with eval_list (fuel : nat) (en : env) (es : list expr) {struct fuel} : M (list value) :=
  match fuel with
  | O => out_of_fuel
  | S fuel' =>
      match es with
      | [] => ret []
      | e :: es' =>
          let! v <- eval fuel' en e;
          let! vs <- eval_list fuel' en es';
          ret (v :: vs)
      end
  end

with exec (fuel : nat) (en : env) (st : stmt) {struct fuel} : M signal :=
  match fuel with
  | O => out_of_fuel
  | S fuel' =>
      match st with
      | S_expr e => let! _ <- eval fuel' en e; ret Normal
      | S_assign target e =>
          let! v <- eval fuel' en e;
          match target with
          | E_name x => let! _ <- store en x v; ret Normal
          | E_sub c i =>
              let! cv <- eval fuel' en c;
              let! iv <- eval fuel' en i;
              let! _ <- setitem cv iv v;
              ret Normal
          | _ => unsupported "assignment target"
          end
      | S_return None => ret (Returned V_none)
      | S_return (Some e) => let! v <- eval fuel' en e; ret (Returned v)
      | S_raise e =>
          let! v <- eval fuel' en e;
          match v with
          | V_exc ex => lift (Raise ex)
          | _ => unsupported "raise"
          end
      | S_pass => ret Normal
      | S_if c a b =>
          let! cv <- eval fuel' en c;
          let! t <- truthy cv;
          exec_block fuel' en (if t then a else b)
      | S_for x it body =>
          let! v <- eval fuel' en it;
          match v with
          | V_ref l => for_loop fuel' en x l 0 body
          | _ => unsupported "iteration"
          end
      | S_def f params body =>
          let! _ <- store en f (V_func f params body (frames en) (globals en));
          ret Normal
      end
  end

with exec_block (fuel : nat) (en : env) (sts : list stmt) {struct fuel} : M signal :=
  match fuel with
  | O => out_of_fuel
  | S fuel' =>
      match sts with
      | [] => ret Normal
      | st :: sts' =>
          let! sg <- exec fuel' en st;
          match sg with
          | Normal => exec_block fuel' en sts'
          | Returned v => ret (Returned v)
          end
      end
  end

(** [for x in <list at l>], from index [i] on; the list is read again at
    every step. *)
with for_loop (fuel : nat) (en : env) (x : string) (l : nat) (i : nat)
              (body : list stmt) {struct fuel} : M signal :=
  match fuel with
  | O => out_of_fuel
  | S fuel' =>
      let! o <- read l;
      match o with
      | O_list items =>
          match items !! i with
          | None => ret Normal
          | Some v =>
              let! _ <- store en x v;
              let! sg <- exec_block fuel' en body;
              match sg with
              | Normal => for_loop fuel' en x l (S i) body
              | Returned r => ret (Returned r)
              end
          end
      | _ => unsupported "iteration"
      end
  end

with call (fuel : nat) (f : value) (args : list value) {struct fuel} : M value :=
  match fuel with
  | O => out_of_fuel
  | S fuel' =>
      match f with
      | V_func _ params body closure g =>
          if negb (length params =? length args)%nat
          then mraise TypeError "wrong number of arguments"
          else
            let! fr <- alloc (O_frame (params ++ bound_names body)%list
                                      (combine params args));
            let! sg <- exec_block fuel' (Env (fr :: closure) None g) body;
            match sg with
            | Normal => ret V_none
            | Returned v => ret v
            end
      | V_method self m => call_method self m args
      | V_builtin b =>
          if String.eqb b "str" then
            match args with
            | [v] => let! s <- py_str v; ret (V_str s)
            | _ => unsupported "str"
            end
          else if String.eqb b "escape" then
            match args with
            | [v] => let! s <- py_str v; ret (V_str (escape_html s))
            | _ => mraise TypeError "escape_html() takes one argument"
            end
          else if String.eqb b "SyntaxError" then
            match args with
            | [V_str msg] => ret (V_exc (Exc SyntaxError msg))
            | _ => unsupported "exception"
            end
          else if String.eqb b "_r" then
            match args with
            | [n; ctx; local_defs; super_defs] =>
                let! name <- as_name n;
                Engine_render fuel' name ctx local_defs super_defs
            | _ => mraise TypeError "render() takes four arguments"
            end
          else if String.eqb b "_i" then
            match args with
            | [n] => let! name <- as_name n; import_name fuel' name
            | _ => unsupported "import_name"
            end
          else unsupported "built-in"
      | V_none | V_bool _ | V_int _ | V_str _ | V_ref _ | V_module _ =>
          mraise TypeError "object is not callable"
      | V_exc _ => unsupported "call"
      end
  end

(** [Engine.render]. *)
with Engine_render (fuel : nat) (name : option string)
                   (ctx local_defs super_defs : value) {struct fuel} : M value :=
  match fuel with
  | O => out_of_fuel
  | S fuel' =>
      let invoke : M value :=
        let! e <- get_engine;
        match cached (renders e) name with
        | Some f => call fuel' f [ctx; local_defs; super_defs]
        | None => key_error name
        end in
      catch KeyError invoke
        (let! _ <- compile_template fuel' name no_kwargs; invoke)
  end

(** [Engine.import_name], without keyword arguments. *)
with import_name (fuel : nat) (name : option string) {struct fuel} : M value :=
  match fuel with
  | O => out_of_fuel
  | S fuel' =>
      let fetch : M value :=
        let! e <- get_engine;
        match cached (modules e) name with
        | Some m => ret m
        | None => key_error name
        end in
      catch KeyError fetch (let! _ <- compile_import fuel' name no_kwargs; fetch)
  end

(** [Engine.compile_template]. *)
with compile_template (fuel : nat) (name : option string) (kw : kwargs)
  {struct fuel} : M Template :=
  match fuel with
  | O => out_of_fuel
  | S fuel' =>
      lock_acquire (
      let! e <- get_engine;
      match cached (templates e) name with
      | Some t => ret t
      | None =>
          let! _ <- put_engine (count_build e);
          let! '(path, nodes, filters) <- lift (load_and_parse e name kw);
          let! source <- lift (BlockBuilder (-2) (render_nodes nodes) filters);
          let! compiled <- lift (compile_code source);
          let! local_vars <- alloc (O_dict []);
          let! _ <- exec_block fuel' (Env [] (Some local_vars) None) compiled;
          let! render <- getitem (V_ref local_vars) (V_str "render");
          let! id <- fresh_id;
          let template := {| t_id := id; t_name := name; render_template := render |} in
          let! e' <- get_engine;
          let! _ <- (if name_true name
                     then put_engine (cache_template (default "" name) template e')
                     else ret tt);
          ret template
      end)
  end

(** [Engine.compile_import]. *)
with compile_import (fuel : nat) (name : option string) (kw : kwargs)
  {struct fuel} : M unit :=
  match fuel with
  | O => out_of_fuel
  | S fuel' =>
      lock_acquire (
      let! e <- get_engine;
      match cached (modules e) name with
      | Some _ => ret tt
      | None =>
          let! _ <- put_engine (count_build e);
          let! '(path, nodes, filters) <- lift (load_and_parse e name kw);
          let! source <- lift (BlockBuilder (-2) (import_nodes nodes) filters);
          let! compiled <- lift (compile_code source);
          match name with
          | None => mraise TypeError "module() argument 'name' must be str, not NoneType"
          | Some n =>
              let! dict <- alloc (O_dict [(V_str "__name__", V_str n);
                                          (V_str "_r", V_builtin "_r");
                                          (V_str "_i", V_builtin "_i");
                                          (V_str "str", V_builtin "str");
                                          (V_str "escape", V_builtin "escape")]);
              let! e' <- get_engine;
              let! _ <- put_engine (cache_module n (V_module dict) e');
              let! _ <- exec_block fuel' (Env [] (Some dict) (Some dict)) compiled;
              ret tt
          end
      end)
  end.

(** [Engine.get_template]. *)
Definition Engine_get_template (fuel : nat) (name : option string) (kw : kwargs)
  : M Template :=
  let! _ <- (if name_true name && given kw then remove name else ret tt);
  let! e <- get_engine;
  match cached (templates e) name with
  | Some t => ret t
  | None => compile_template fuel name kw
  end.

(** ** Template (lines 1962-1972) and the module-level functions (1977-1992) *)

(** A context value, as the caller writes it. *)
Inductive lit :=
| L_none
| L_bool (b : bool)
| L_int (z : Z)
| L_str (s : string)
| L_list (items : list lit).

(** The objects of a context value, put on the heap. *)
Fixpoint alloc_lit (x : lit) : M value :=
  match x with
  | L_none => ret V_none
  | L_bool b => ret (V_bool b)
  | L_int z => ret (V_int z)
  | L_str s => ret (V_str s)
  | L_list items =>
      let fix go (items : list lit) : M (list value) :=
        match items with
        | [] => ret []
        | i :: items' =>
            let! v <- alloc_lit i;
            let! vs <- go items';
            ret (v :: vs)
        end in
      let! vs <- go items;
      let! l <- alloc (O_list vs);
      ret (V_ref l)
  end.

Definition context : Type := list (string * lit).

Fixpoint alloc_items (c : context) : M (list (value * value)) :=
  match c with
  | [] => ret []
  | (k, x) :: c' =>
      let! v <- alloc_lit x;
      let! kvs <- alloc_items c';
      ret ((V_str k, v) :: kvs)
  end.

(** The dict of a context.  Its keys are distinct, as a dict's are. *)
Definition alloc_context (c : context) : M value :=
  let! kvs <- alloc_items c;
  let! l <- alloc (O_dict kvs);
  ret (V_ref l).

(** [Template.render(ctx)]: the routine is called with the context and two
    new, empty tables. *)
Definition Template_render (fuel : nat) (t : Template) (c : context) : M value :=
  let! ctx <- alloc_context c;
  let! local_defs <- alloc (O_dict []);
  let! super_defs <- alloc (O_dict []);
  call fuel (render_template t) [ctx; V_ref local_defs; V_ref super_defs].

(** [needle in s]. *)
Fixpoint has_sub (needle s : string) : bool :=
  startswith needle s
  || match s with
     | "" => false
     | String _ s' => has_sub needle s'
     end.

(** The module-level [get_template(name, source, require)]; [debug] is
    [get_app().debug] and [require] the keys of the context. *)
Definition get_template (fuel : nat) (debug : bool) (name source : option string)
                        (require : list string) : M Template :=
  let! _ <- (if debug then let! e <- get_engine; put_engine (clear e) else ret tt);
  let with_require (name : option string) (source : string) : M Template :=
    let source := match require with
                  | [] => source
                  | _ => "%require(" ++ join " " require ++ ")" ++ nl ++ source
                  end in
    Engine_get_template fuel name {| kw_source := Some source;
                                     kw_default_filters := None |} in
  match source, name with
  | Some src, _ => with_require name src
  | None, Some n =>
      if negb (has_char ch_nl n) && negb (has_sub "{{" n)
      then Engine_get_template fuel name no_kwargs
      else with_require None n
  | None, None => mraise TypeError "argument of type 'NoneType' is not iterable"
  end.

(** The module-level [render_template(template_name, source, **context)]. *)
Definition render_template_ (fuel : nat) (debug : bool) (template_name source : option string)
                            (c : context) : M value :=
  let! t <- get_template fuel debug template_name source (map fst c);
  Template_render fuel t c.

(** The world of a new Engine on a loader. *)
Definition new_world (l : Loader) : world := World [] (new_engine l).

Definition no_loader : Loader :=
  {| loader_templates := ∅; loader_files := ∅; root_folder := "" |}.



(** * Helpers of the web layer (lines 142-206) *)

(** [compare_digest(a, b)] (line 169): the lengths and the characters taken
    in pairs are folded into one integer with [^] and [|]. *)
Definition ordZ (c : ascii) : Z := Z.of_nat (ord c).

Fixpoint digest_fold (result : Z) (a b : string) : Z :=
  match a, b with
  | String x a', String y b' =>
      digest_fold (Z.lor result (Z.lxor (ordZ x) (ordZ y))) a' b'
  | _, _ => result
  end.

Definition compare_digest (a b : string) : bool :=
  let result := Z.lxor (Z.of_nat (String.length a)) (Z.of_nat (String.length b)) in
  (digest_fold result a b =? 0)%Z.

(** [str.lower] on the characters below 256: the ASCII capitals and the
    Latin-1 capitals, the multiplication sign apart. *)
Definition lower_char (c : ascii) : ascii :=
  if in_range 65 90 c || (in_range 192 222 c && negb (ord c =? 215)%nat)
  then chr (ord c + 32) else c.

Fixpoint lower (s : string) : string :=
  match s with
  | "" => ""
  | String c s' => String (lower_char c) (lower s')
  end.

(** [_quoted], the search for [[^\w!#$%&'*.^`|~+-]]: some character of [v]
    is outside the set. *)
Definition token_char (c : ascii) : bool :=
  isword c || has_char c "!#$%&'*.^`|~+-".

Fixpoint _quoted (v : string) : bool :=
  match v with
  | "" => false
  | String c v' => negb (token_char c) || _quoted v'
  end.

Definition invalid_header (value : string) : exc :=
  Exc ValueError ("Invalid header, newline detected in " ++ repr value).

(** The loop of [_format_vkw] over [kw.items()]; [kw] in the order of the
    keyword arguments, its values strings or [None]. *)
Fixpoint format_kw (value : string) (kw : list (string * option string)) : string :=
  match kw with
  | [] => value
  | (k, v) :: kw' =>
      let value := value ++ "; " ++ replace "_" "-" k in
      let value :=
        match v with
        | Some v =>
            let v := if _quoted v
                     then dq ++ replace dq (String ch_bs dq)
                                  (replace (String ch_bs "")
                                           (String ch_bs (String ch_bs "")) v)
                          ++ dq
                     else v in
            value ++ "=" ++ v
        | None => value
        end in
      format_kw value kw'
  end.

(** [_format_vkw(value, kw)] (line 194). *)
Definition _format_vkw (value : string) (kw : list (string * option string))
  : res string :=
  let value := format_kw value kw in
  if negb (String.eqb value "") && (has_char ch_nl value || has_char ch_cr value)
  then Raise (invalid_header value)
  else Ok value.

(** * HTTPHeaders (lines 320-411): the list [_list] of name and value pairs *)

Module HTTPHeaders.

Definition t : Type := list (string * string).

Definition same_key (ikey : string) (kv : string * string) : bool :=
  String.eqb (lower (fst kv)) ikey.

(** [__getitem__]: the value of the first pair with the name, or [None]. *)
Fixpoint getitem (h : t) (name : string) : option string :=
  match h with
  | [] => None
  | (k, v) :: h' => if String.eqb (lower k) (lower name) then Some v else getitem h' name
  end.

Definition get (h : t) (name : string) (default : option string) : option string :=
  match getitem h name with
  | Some rv => Some rv
  | None => default
  end.

Definition get_all (h : t) (name : string) : list string :=
  map snd (List.filter (same_key (lower name)) h).

Definition delitem (h : t) (name : string) : t :=
  List.filter (fun kv => negb (same_key (lower name) kv)) h.

Definition contains (h : t) (name : string) : bool :=
  match getitem h name with
  | Some _ => true
  | None => false
  end.

Definition add (h : t) (name value : string) (kw : list (string * option string))
  : res t :=
  do v <- _format_vkw value kw;
  Ok (h ++ [(name, v)])%list.

(** The [for ... else] of [set]: the first pair with the name is replaced
    and the later ones with the name are dropped; [None] when no pair has the
    name. *)
Fixpoint replace_first (h : t) (ikey : string) (name _value : string) : option t :=
  match h with
  | [] => None
  | (old_key, old_value) :: h' =>
      if String.eqb (lower old_key) ikey
      then Some ((name, _value)
                 :: List.filter (fun kv => negb (same_key ikey kv)) h')
      else match replace_first h' ikey name _value with
           | Some r => Some ((old_key, old_value) :: r)
           | None => None
           end
  end.

Definition set (h : t) (name value : string) (kw : list (string * option string))
  : res t :=
  let ikey := lower name in
  do _value <- _format_vkw value kw;
  match replace_first h ikey name _value with
  | Some h' => Ok h'
  | None => Ok (h ++ [(name, _value)])%list
  end.

(** [setdefault]: the value returned and the headers afterwards. *)
Definition setdefault (h : t) (name value : string) : res (string * t) :=
  match getitem h name with
  | Some old_value => Ok (old_value, h)
  | None => do h' <- set h name value []; Ok (value, h')
  end.

(** [__str__]: ['\r\n'.join(lines + ['', ''])]. *)
Definition line (kv : string * string) : string := fst kv ++ ": " ++ snd kv.

Definition str (h : t) : string :=
  join (String ch_cr nl) (map line h ++ [""; ""])%list.

End HTTPHeaders.

(** * Vocabulary of the statements *)

Definition token_line (t : token) : Z := fst (fst t).

Definition token_kind (t : token) : kind := snd (fst t).

Definition token_value (t : token) : tvalue := snd t.

(** Each line number is at least ([strict = false]) or more than
    ([strict = true]) the one before it. *)
Fixpoint increasing (strict : bool) (l : list Z) : Prop :=
  match l with
  | a :: (b :: _) as l' =>
      (if strict then (a < b)%Z else (a <= b)%Z) /\ increasing strict l'
  | _ => True
  end.

(** A token that opens and closes nothing: markup, a variable, an include,
    a simple statement, a comment. *)
Definition plain_token (t : token) : bool :=
  negb (COMPOUND_TOKENS (token_kind t))
  && negb (kind_eqb (token_kind t) K_end)
  && negb (kind_eqb (token_kind t) K_continue).

(** A token that closes nothing and is not an [extends]: what the tokens
    after an opener that is never closed are made of. *)
Definition open_token (t : token) : bool :=
  negb (kind_eqb (token_kind t) K_end)
  && negb (kind_eqb (token_kind t) K_continue)
  && negb (kind_eqb (token_kind t) K_extends).

(** The line of the last node of a token list: the line of its last token,
    or, when the list ends on a run of markup, variables and includes, the
    line of the first token of that run.  [run] is the line of the first
    token of the run that is being read, [last] the line of the last token
    outside a run. *)
Fixpoint last_node_line (run : option Z) (last : Z) (tokens : list token) : Z :=
  match tokens with
  | [] => default last run
  | (l, k, _) :: tokens' =>
      if OUT_TOKENS k then last_node_line (Some (default l run)) last tokens'
      else last_node_line None l tokens'
  end.

(** The line of the first of the operands that [parse_iter] holds. *)
Definition run_start (operands : list token) : option Z :=
  match operands with
  | [] => None
  | (l, _, _) :: _ => Some l
  end.

Definition unclosed_if : string := "%if true" ++ nl ++ "foo" ++ nl.



Definition for_example (header : string) : string :=
  header ++ nl ++ "{{x}}" ++ nl ++ "%endfor" ++ nl.

Definition items_123 : context := [("items", L_list [L_int 1; L_int 2; L_int 3])].

(** A computation that leaves the Engine as it is when it starts with the
    lock held. *)
Definition preserves {A} (m : M A) : Prop :=
  forall w r w', m w = (r, w') -> locked (engine w) = true -> engine w' = engine w.

Definition post {A} (m : M A) (w : world) (Q : res A -> world -> Prop) : Prop :=
  Q (fst (m w)) (snd (m w)).

(** The outcome of [k] after an outcome of [m]. *)
Definition after {A B} (k : A -> M B) (Q : res B -> world -> Prop)
  : res A -> world -> Prop :=
  fun r w =>
    match r with
    | Ok a => post (k a) w Q
    | Raise e => Q (Raise e) w
    | Unsupported why => Q (Unsupported why) w
    | OutOfFuel => Q OutOfFuel w
    end.

(** The three caches of an Engine. *)
Definition caches (e : Engine)
  : gmap string Template * gmap string value * gmap string value :=
  (templates e, renders e, modules e).

(** What a call of [compile_template] that finds no cached template leaves:
    the lock is free again, one compilation was counted, and the caches hold
    one more template when the call returned one under a true name, and are
    as before when the call raised or the name is [None] or empty. *)
Definition compiled_once (name : option string) (w : world)
  : res Template -> world -> Prop :=
  fun r w' =>
    locked (engine w') = false
    /\ builds (engine w') = S (builds (engine w))
    /\ match r with
       | Ok t =>
           if name_true name then
             caches (engine w') =
               (<[default "" name := t]> (templates (engine w)),
                <[default "" name := render_template t]> (renders (engine w)),
                modules (engine w))
           else caches (engine w') = caches (engine w)
       | Raise _ => caches (engine w') = caches (engine w)
       | _ => True
       end.

(** The renders cache has every name that the templates cache has: the two
    are filled and emptied together. *)
Definition renders_cover (e : Engine) : Prop :=
  forall n, is_Some (templates e !! n) -> is_Some (renders e !! n).

Definition one_template (name text : string) : Loader :=
  {| loader_templates := {[ name := text ]}; loader_files := ∅; root_folder := "" |}.

Definition hello_template : Template :=
  {| t_id := 0; t_name := Some "hello";
     render_template :=
       V_func "render" ["ctx"; "local_defs"; "super_defs"]
              [S_return (Some (E_str "Hello!"))] [] None |}.

(** From the loaded text to the compiled code: the stages of a compilation
    before the generated code is executed ([wrap] is [render_nodes] for
    [compile_template] and [import_nodes] for [compile_import]). *)
Definition build_stages (e : Engine) (name : option string) (kw : kwargs)
                        (wrap : list node -> list node) : res (list stmt) :=
  do '(path, nodes, filters) <- load_and_parse e name kw;
  do source <- BlockBuilder (-2) (wrap nodes) filters;
  compile_code source.


(** A template that reads a missing key of the context the first time it
    runs on it, and a template that includes it. *)
Definition t_flaky : string :=
  "%if 'k' in ctx:" ++ nl ++ "ok" ++ nl ++ "%else:" ++ nl
  ++ "%ctx['k'] = ''" ++ nl ++ "{{ ctx['missing'] }}" ++ nl ++ "%end" ++ nl.

Definition t_outer : string := "%include(" ++ dq ++ "t" ++ dq ++ ")" ++ nl.

Definition flaky_loader : Loader :=
  {| loader_templates := <["t" := t_flaky]> {["outer" := t_outer]};
     loader_files := ∅; root_folder := "" |}.

(** [normalize] is the [source.replace('\r\n', '\n')] of [Lexer.tokenize]. *)
Definition normalize (s : string) : string := replace (String ch_cr nl) nl s.

(** No line of the text starts with spaces and a [%].  [ls] holds when the
    text read so far ends with a newline, or is empty, and spaces. *)
Fixpoint no_stmt_from (ls : bool) (s : string) : bool :=
  match s with
  | "" => true
  | String c s' =>
      if ls && Ascii.eqb c "%" then false
      else no_stmt_from (is_nl c || (ls && is_sp c)) s'
  end.

(** Literal text: no variable delimiter and no line that starts with the
    statement leader. *)
Definition literal_text (s : string) : bool :=
  negb (has_sub "{{" s) && no_stmt_from true s.

(** The generated lines of a template that is one markup token. *)
Definition literal_lines (v : string) : list string :=
  [def_render; ""; "    return " ++ repr v].

(** The module that Python compiles from the generated lines of a literal
    template. *)
Definition literal_module (v : string) : list stmt :=
  [S_def "render" ["ctx"; "local_defs"; "super_defs"] [S_return (Some (E_str v))]].

Definition inline (text : string) : kwargs :=
  {| kw_source := Some text; kw_default_filters := None |}.

(** The render routine of a literal template. *)
Definition literal_routine (v : string) : value :=
  V_func "render" ["ctx"; "local_defs"; "super_defs"]
         [S_return (Some (E_str v))] [] None.

(** Putting a context on the heap cannot fail, and leaves the Engine alone. *)
Definition allocates {A} (m : M A) : Prop :=
  forall w, exists a w', m w = (Ok a, w') /\ engine w' = engine w.

(** The [build_block] of [build_token]: the nodes whose kind [keep] accepts,
    built in order. *)
Definition build_block_where : (kind -> bool) -> list node -> builder -> res builder :=
  fix go (keep : kind -> bool) (nodes : list node) (b : builder) {struct nodes}
    : res builder :=
    match nodes with
    | [] => Ok b
    | n :: nodes' =>
        if keep (node_kind n)
        then do b' <- build_token n b; go keep nodes' b'
        else go keep nodes' b
    end.

Definition def_or_require (k : kind) : bool := kind_eqb k K_def || kind_eqb k K_require.

(** [build_render] on a root whose only node, or second node, is an
    [extends]. *)
Definition extends_code (parent : string) : string :=
  "return _r(" ++ parent ++ ", ctx, local_defs, super_defs)".

(** [source] with the line that [get_template] puts in front of it. *)
Definition prepend_require (require : list string) (source : string) : string :=
  "%require(" ++ join " " require ++ ")" ++ nl ++ source.

(** A context key that [%require] can carry: not empty, and free of white
    space, commas and closing parentheses.  Python identifiers are such. *)
Definition key_char (c : ascii) : bool :=
  negb (isspace c || Ascii.eqb c "," || Ascii.eqb c ")").

Fixpoint all_chars (f : ascii -> bool) (s : string) : bool :=
  match s with
  | "" => true
  | String c s' => f c && all_chars f s'
  end.

Definition key_ok (k : string) : bool :=
  negb (String.eqb k "") && all_chars key_char k.

(** [if get_app().debug: engine.clear()]. *)
Definition debug_clear (debug : bool) : M unit :=
  if debug then let! e <- get_engine; put_engine (clear e) else ret tt.

(** The keyword arguments of [engine.get_template(name, source=source)]. *)
Definition with_source (source : string) : kwargs :=
  {| kw_source := Some source; kw_default_filters := None |}.

(** The statement that [build_require] emits for names that are not local
    yet. *)
Definition require_code (keys : list string) : string :=
  join "; " (map (fun v => v ++ " = ctx['" ++ v ++ "']") keys).

(** The node of the prepended line. *)
Definition require_node (keys : list string) : node :=
  Node 1 K_require (NLeaf (VList keys)).

(** The nodes after the prepended line are one [extends] block. *)
Definition only_extends (body : list node) : bool :=
  match body with
  | [n] => kind_eqb (node_kind n) K_extends
  | _ => false
  end.

Definition parsed (source : string) : res (list node) :=
  do tokens <- parser_tokenize source; parse_nodes tokens.

(** [build_render], as the rule of the [render] node. *)
Definition build_extends (n : node) (b : builder) : res builder :=
  match node_value n with
  | NBlock (VStr parent) inner =>
      do b' <- build_block_where def_or_require inner b;
      add (lineno b' + 1) (extends_code parent) b'
  | _ => ill_formed
  end.

Definition build_general (lr : Z) (nodes : list node) (b : builder) : res builder :=
  do b1 <- add lr writer_declare b;
  do b2 <- build_block nodes b1;
  add (lineno b2 + 1) writer_return b2.

Definition is_extends (n : node) : bool := kind_eqb (node_kind n) K_extends.

Definition build_render (lr : Z) (nodes : list node) (b : builder) : res builder :=
  if (0 <? lr)%Z then raise AssertionError ""
  else
    match nodes with
    | [] => add lr "return ''" b
    | [n1] =>
        if is_extends n1 then build_extends n1 b
        else match out_markup n1 with
             | Some (ln, value) => add ln ("return " ++ repr value) b
             | None => build_general lr nodes b
             end
    | [_; n2] => if is_extends n2 then build_extends n2 b else build_general lr nodes b
    | _ => build_general lr nodes b
    end.

(** A base template with one block, a child that overrides the block with
    the value of a context key, a child that overrides it with text, and a
    child whose block calls the block of the base. *)
Definition base_src : string :=
  "<h1>" ++ nl ++ "%def block_a():" ++ nl ++ "PARENT" ++ nl ++ "%enddef" ++ nl
  ++ "{{ block_a() }}" ++ nl ++ "</h1>".

Definition extends_base : string := "%extends(" ++ dq ++ "base" ++ dq ++ ")" ++ nl.

Definition child_of (body : string) : string :=
  extends_base ++ "%def block_a():" ++ nl ++ body ++ nl ++ "%enddef" ++ nl.


Definition child_x : string := child_of "{{ x }}".


Definition base_loader : Loader :=
  {| loader_templates := {["base" := base_src]}; loader_files := ∅;
     root_folder := "" |}.

(** The recursion bound of the model was enough. *)
Definition finished {A} (r : res A) : bool :=
  match r with
  | OutOfFuel => false
  | _ => true
  end.

(** The token that [end_continue] yields for [t] itself. *)
Definition as_compound (t : token) : token :=
  if kind_eqb (token_kind t) K_continue
  then (token_line t, K_compound, token_value t)
  else t.

(** The [end] that [end_continue] puts in front of a [continue] token. *)
Definition injected_end (t : token) : bool :=
  kind_eqb (token_kind t) K_end
  && match token_value t with VNone => true | _ => false end.

Definition has_value (t : token) : bool :=
  match token_value t with VNone => false | _ => true end.

(** The builder has one line for every line number it has passed: the line
    [k] of the template is the line [k - offset] of the generated code. *)
Definition in_step (b : builder) : Prop :=
  Z.of_nat (length (lines b)) = (lineno b - offset b)%Z.

(** A character of a directive argument written without parentheses: no
    newline, no closing parenthesis, no backslash. *)
Definition arg_char (c : ascii) : bool :=
  negb (is_nl c || Ascii.eqb c ")" || Ascii.eqb c ch_bs).

(** The three directives whose argument [stmt_token] takes from between
    parentheses. *)
Definition directive (kw : string) : bool := mem kw ["require"; "include"; "extends"].

Definition no_group : exc :=
  Exc AttributeError "'NoneType' object has no attribute 'group'".

(** The end of a line: the end of the text, or a newline. *)
Definition line_end (tail : string) : bool :=
  match tail with
  | "" => true
  | String c _ => is_nl c
  end.

(** The positions at which the loop of [tokenize] tries the rules, from
    [pos] on: [pos], then the position after the token found there, and so
    on while the rules match. *)
Fixpoint positions (fuel : nat) (source : string) (pos : nat) : list nat :=
  if (pos <? String.length source)%nat then
    match fuel with
    | O => []
    | S fuel' =>
        pos :: match first_match parser_rules source pos with
               | Ok (npos, _, _) =>
                   if (npos <=? pos)%nat then [] else positions fuel' source npos
               | _ => []
               end
    end
  else [].

(** The names of [values] that are not local in [b], in their order: the
    names that [build_require] binds. *)
Definition new_names (values : list string) (b : builder) : list string :=
  List.filter (fun v => negb (mem v (local_vars b))) values.

(** The binding of one name. *)
Definition binding (v : string) : string := v ++ " = ctx['" ++ v ++ "']".

(** The templates cache and the renders cache hold the same names, as they
    do in every state that the Engine's methods reach: [compile_template]
    fills both, [remove] and [clear] empty both. *)
Definition caches_paired (e : Engine) : Prop :=
  forall n, is_Some (templates e !! n) <-> is_Some (renders e !! n).

(** The strings [f c], for the characters [c] of [s], joined. *)
Fixpoint flat_chars (f : ascii -> string) (s : string) : string :=
  match s with
  | "" => ""
  | String c s' => f c ++ flat_chars f s'
  end.

(** What [escape_html] writes for one character. *)
Definition html_entity (c : ascii) : string :=
  if Ascii.eqb c "&" then "&amp;"
  else if Ascii.eqb c "<" then "&lt;"
  else if Ascii.eqb c ">" then "&gt;"
  else if Ascii.eqb c ch_dq then "&quot;"
  else if Ascii.eqb c "'" then "&#x27;"
  else String c "".

Definition html_special (c : ascii) : bool :=
  Ascii.eqb c "&" || Ascii.eqb c "<" || Ascii.eqb c ">" || Ascii.eqb c ch_dq
  || Ascii.eqb c "'".

Definition one_for (o : ascii) (new : string) (c : ascii) : string :=
  if Ascii.eqb c o then new else String c "".

(** The pairs of [h] whose name is [j], whatever the case of its letters. *)
Definition named (j : string) (h : HTTPHeaders.t) : HTTPHeaders.t :=
  List.filter (HTTPHeaders.same_key j) h.

(** The value holds no carriage return and no newline. *)
Definition one_line (v : string) : bool :=
  negb (has_char ch_nl v || has_char ch_cr v).

Definition without (i : string) (h : HTTPHeaders.t) : HTTPHeaders.t :=
  List.filter (fun kv => negb (HTTPHeaders.same_key i kv)) h.

(** The number of lines of text that the elements of [ls] make up when they
    are joined with newlines: an element with [k] newlines is [k + 1]
    lines. *)
Fixpoint text_lines (ls : list string) : nat :=
  match ls with
  | [] => 0
  | l :: ls' => S (count_nl l) + text_lines ls'
  end.

(** The builder is in step with the template: it has written as many lines
    of text as its line counter has advanced from [o], its [offset]. *)
Definition synced (o : Z) (b : builder) : Prop :=
  offset b = o
  /\ Z.of_nat (text_lines (lines b)) = (lineno b - o)%Z
  /\ has_char ch_nl (indent b) = false.

(** A rule keeps the builder in step. *)
Definition keeps (o : Z) (f : builder -> res builder) : Prop :=
  forall b b', synced o b -> f b = Ok b' -> synced o b'.

(** The size of a node: the number of nodes in it. *)
Fixpoint node_size (n : node) : nat :=
  match n with
  | Node _ _ v => S (nvalue_size v)
  end
with nvalue_size (v : nvalue) : nat :=
  match v with
  | NBlock _ nodes =>
      (fix sum (ns : list node) : nat :=
         match ns with
         | [] => 0
         | x :: r => node_size x + sum r
         end) nodes
  | _ => 0
  end.

Definition nodes_size (ns : list node) : nat := nvalue_size (NBlock VNone ns).


(** * Theorems *)

(** * Properties *)

(** ** Strings *)

Lemma bind_Ok {A B} (a : A) (k : A -> res B) : bind (Ok a) k = k a.
Proof. reflexivity. Qed.

Lemma bind_Raise {A B} (e : exc) (k : A -> res B) : bind (Raise e) k = Raise e.
Proof. reflexivity. Qed.

Lemma bind_Unsupported {A B} (why : string) (k : A -> res B) :
  bind (Unsupported why) k = Unsupported why.
Proof. reflexivity. Qed.

Lemma bind_OutOfFuel {A B} (k : A -> res B) : bind OutOfFuel k = OutOfFuel.
Proof. reflexivity. Qed.

(** Reduces a bind on a known outcome, in a hypothesis. *)
Ltac binds H :=
  rewrite ?bind_Ok, ?bind_Raise, ?bind_Unsupported, ?bind_OutOfFuel in H;
  cbv beta iota zeta in H.

Lemma append_cons (c : ascii) (s t : string) : String c s ++ t = String c (s ++ t).
Proof. reflexivity. Qed.

Lemma append_nil_l (s : string) : "" ++ s = s.
Proof. reflexivity. Qed.

Lemma append_nil_r (s : string) : s ++ "" = s.
Proof.
  induction s as [|c s IH]; [reflexivity | now rewrite append_cons, IH].
Qed.

Lemma append_assoc (a b c : string) : (a ++ b) ++ c = a ++ (b ++ c).
Proof.
  induction a as [|x a IH]; [reflexivity | now rewrite !append_cons, IH].
Qed.

Lemma length_append (a b : string) :
  String.length (a ++ b) = (String.length a + String.length b)%nat.
Proof.
  induction a as [|x a IH]; [reflexivity | rewrite append_cons; simpl; now rewrite IH].
Qed.

Lemma ascii_eqb_neq (a b : ascii) : a <> b -> Ascii.eqb a b = false.
Proof. intros H. destruct (Ascii.eqb_spec a b); [contradiction | reflexivity]. Qed.

(** ** C9: the order of the tokens *)

Section LexerOrder.

Variable rules : list rule.

Lemma tokenize_loop_from (fuel : nat) :
  forall source pos lineno0 toks,
    tokenize_loop rules fuel source pos lineno0 = Ok toks ->
    Forall (fun t => (lineno0 <= token_line t)%Z) toks
    /\ increasing false (map token_line toks).
Proof.
  induction fuel as [|fuel IH]; intros source pos lineno0 toks; simpl.
  - destruct (pos <? String.length source)%nat; [discriminate|].
    intros [= <-]. split; [constructor | exact I].
  - destruct (pos <? String.length source)%nat.
    2:{ intros [= <-]. split; [constructor | exact I]. }
    destruct (first_match rules source pos) as [[[npos tok] value]| | |];
      simpl; try discriminate.
    destruct (npos <=? pos)%nat; [discriminate|].
    destruct (tokenize_loop rules fuel source npos _) as [rest| | |] eqn:E;
      simpl; try discriminate.
    intros [= <-]. apply IH in E as [Hall Hinc].
    assert (Hle : Forall (fun t => (lineno0 <= token_line t)%Z) rest).
    { eapply Forall_impl; [exact Hall|]. simpl. intros t Ht. lia. }
    split.
    + constructor; [unfold token_line; simpl; lia | exact Hle].
    + destruct rest as [|t rest]; [exact I|].
      split; [|exact Hinc].
      inversion Hle; subst. assumption.
Qed.

End LexerOrder.

(** C9, as amended.  Whatever the rules, the tokens that [Lexer.tokenize]
    returns are in line order: no token has a smaller line number than the
    token before it.  (Tokens that share a line share its number.) *)
Theorem tokenize_line_order (rules : list rule) (source : string) (toks : list token) :
  tokenize rules source = Ok toks ->
  increasing false (map token_line toks).
Proof.
  unfold tokenize. intros H. apply tokenize_loop_from in H. apply H.
Qed.

Lemma tokenize_line_order_witness :
  parser_tokenize ("a{{x}}" ++ nl ++ "%end") =
    Ok [(1%Z, K_markup, VStr "a"); (1%Z, K_var, VStr "x");
        (1%Z, K_markup, VStr nl); (2%Z, K_end, VStr "end")]
  /\ increasing false [1; 1; 1; 2]%Z.
Proof.
  split; [reflexivity|].
  exact (tokenize_line_order parser_rules ("a{{x}}" ++ nl ++ "%end") _ eq_refl).
Defined.

(** C9, as stated, fails: the two tokens of ["a{{x}}"] are both on line 1. *)
Lemma tokenize_not_strictly_increasing :
  parser_tokenize "a{{x}}" = Ok [(1%Z, K_markup, VStr "a"); (1%Z, K_var, VStr "x")].
Proof. reflexivity. Qed.

(** ** C3: the line of the "missing end" error *)

Lemma end_continue_cons (l : Z) (k : kind) (v : tvalue) (ts : list token) :
  k <> K_continue ->
  end_continue ((l, k, v) :: ts) = (l, k, v) :: end_continue ts.
Proof. intros H. destruct k; try reflexivity. contradiction. Qed.

Lemma parse_iter_opener (fuel : nat) (l : Z) (k : kind) (v : tvalue) (rest : list token) :
  COMPOUND_TOKENS k = true ->
  parse_iter (S fuel) ((l, k, v) :: rest) [] =
    do '(vals, rest1) <- parse_iter fuel rest [];
    match unclosed k vals with
    | Some l' => Raise (missing_end l')
    | None =>
        do '(more, rest2) <- parse_iter fuel rest1 [];
        Ok (Node l k (NBlock v vals) :: more, rest2)
    end.
Proof. intros H. destruct k; try discriminate; reflexivity. Qed.

Lemma run_start_snoc (operands : list token) (l : Z) (k : kind) (v : tvalue) :
  run_start (operands ++ [(l, k, v)]) = Some (default l (run_start operands)).
Proof. now destruct operands as [|[[l0 k0] v0] ops]. Qed.

Lemma last_node_line_any (tokens : list token) (run : option Z) (a b : Z) :
  (run = None -> tokens <> []) ->
  last_node_line run a tokens = last_node_line run b tokens.
Proof.
  revert run. induction tokens as [|[[l k] v] tokens IH]; intros run H.
  - destruct run as [r|]; [reflexivity|]. now destruct H.
  - cbn [last_node_line]. destruct (OUT_TOKENS k); [|reflexivity].
    apply IH. discriminate.
Qed.

Lemma last_cons_cons {A} (x y : A) (l : list A) : last (x :: y :: l) = last (y :: l).
Proof. reflexivity. Qed.

Lemma last_app_cons {A} (a : list A) (x : A) (l : list A) :
  last (a ++ x :: l)%list = last (x :: l).
Proof.
  induction a as [|y a IH]; [reflexivity|].
  cbn [app]. destruct (a ++ x :: l)%list eqn:E; [now destruct a|].
  rewrite last_cons_cons. exact IH.
Qed.

Lemma parse_iter_nil (fuel : nat) : parse_iter (S fuel) [] [] = Ok ([], []).
Proof. reflexivity. Qed.

Lemma unclosed_last (k : kind) (vals : list node) (n : node) :
  k = K_compound \/ k = K_def ->
  last vals = Some n ->
  node_kind n <> K_end ->
  unclosed k vals = Some (node_line n).
Proof.
  intros Hk Hl Hn. unfold unclosed. rewrite Hl. destruct n as [l k' x].
  cbn [node_kind node_line] in *.
  destruct Hk; subst k; cbn [kind_eqb]; destruct k'; try reflexivity; contradiction.
Qed.

(** The nodes of tokens that close nothing: [parse_iter] fails with the
    "Missing end" error of the line of the last node, or it reads all the
    tokens and the last node it yields is not an [end]. *)
Lemma parse_iter_open (fuel : nat) :
  forall tokens operands z,
    (length tokens < fuel)%nat ->
    forallb open_token tokens = true ->
    (operands ++ tokens)%list <> [] ->
    let L := last_node_line (run_start operands) z tokens in
    parse_iter fuel tokens operands = Raise (missing_end L)
    \/ exists nodes n,
         parse_iter fuel tokens operands = Ok (nodes, [])
         /\ last nodes = Some n /\ node_line n = L /\ node_kind n <> K_end.
Proof.
  induction fuel as [|fuel IH]; intros tokens operands z Hlt Hopen Hne L; [lia|].
  destruct tokens as [|[[l k] v] rest].
  - right. destruct operands as [|[[l0 k0] v0] ops]; [now destruct Hne|].
    exists [Node l0 K_out (NOut ((l0, k0, v0) :: ops))], (Node l0 K_out (NOut ((l0, k0, v0) :: ops))).
    repeat split. discriminate.
  - cbn [forallb] in Hopen. apply andb_true_iff in Hopen as [Hk Hopen].
    unfold open_token, token_kind in Hk. cbn [fst snd] in Hk.
    apply andb_true_iff in Hk as [Hk Hext]. apply andb_true_iff in Hk as [Hend Hcont].
    cbn [length] in Hlt. cbn [parse_iter].
    destruct (OUT_TOKENS k) eqn:Hout.
    + specialize (IH rest (operands ++ [(l, k, v)])%list z ltac:(lia) Hopen
                    ltac:(now destruct operands)).
      rewrite run_start_snoc in IH. subst L. cbn [last_node_line]. rewrite Hout.
      exact IH.
    + subst L. cbn [last_node_line]. rewrite Hout. cbv zeta.
      destruct rest as [|t rest].
      * destruct fuel as [|fuel]; [cbn in Hlt; lia|].
        right. destruct (COMPOUND_TOKENS k) eqn:Hc.
        -- rewrite parse_iter_nil, bind_Ok. cbv beta iota.
           replace (unclosed k []) with (@None Z) by (unfold unclosed; now destruct k).
           rewrite parse_iter_nil, bind_Ok. cbv beta iota.
           exists (flush_operands operands ++ [Node l k (NBlock v [])])%list,
                  (Node l k (NBlock v [])).
           repeat split; [apply last_snoc | now destruct k].
        -- replace (kind_eqb k K_end) with false by now destruct k.
           rewrite parse_iter_nil, bind_Ok. cbv beta iota.
           exists (flush_operands operands ++ [Node l k (NLeaf v)])%list,
                  (Node l k (NLeaf v)).
           repeat split; [apply last_snoc | now destruct k].
      * specialize (IH (t :: rest) [] l ltac:(cbn [length] in *; lia) Hopen
                      ltac:(discriminate)).
        cbn [run_start] in IH. cbv zeta in IH.
        destruct IH as [IH|(nodes & n & IH & Hlast & Hline & Hkind)].
        -- left. destruct (COMPOUND_TOKENS k); [now rewrite IH|].
           replace (kind_eqb k K_end) with false by now destruct k.
           now rewrite IH.
        -- destruct (COMPOUND_TOKENS k) eqn:Hc.
           ++ left. rewrite IH, bind_Ok. cbv beta iota.
              rewrite (unclosed_last k nodes n); [now rewrite Hline| |exact Hlast|exact Hkind].
              destruct k; try discriminate; auto.
           ++ right. replace (kind_eqb k K_end) with false by now destruct k.
              rewrite IH, bind_Ok. cbv beta iota.
              exists (flush_operands operands ++ Node l k (NLeaf v) :: nodes)%list, n.
              repeat split; [|exact Hline|exact Hkind].
              rewrite last_app_cons. destruct nodes as [|n0 nodes]; [discriminate Hlast|].
              now rewrite last_cons_cons.
Qed.

(** An opener that is reached and never closed. *)
Lemma parse_iter_missing_end (pre : list token) (l : Z) (k : kind) (hdr : tvalue)
                             (rest : list token) :
  forallb plain_token pre = true ->
  k = K_compound \/ k = K_def ->
  rest <> [] ->
  forallb open_token rest = true ->
  forall fuel operands,
    (length (pre ++ (l, k, hdr) :: rest) < fuel)%nat ->
    parse_iter fuel (pre ++ (l, k, hdr) :: rest) operands
    = Raise (missing_end (last_node_line None l rest)).
Proof.
  intros Hpre Hk Hne Hopen.
  induction pre as [|[[lp kp] vp] pre IH]; intros fuel operands Hlt.
  - destruct fuel as [|fuel]; [lia|]. cbn [app length] in *. cbn [parse_iter].
    replace (OUT_TOKENS k) with false by (destruct Hk; now subst k).
    replace (COMPOUND_TOKENS k) with true by (destruct Hk; now subst k).
    cbv zeta.
    destruct (parse_iter_open fuel rest [] l ltac:(lia) Hopen
                ltac:(now destruct rest))
      as [E|(nodes & n & E & Hlast & Hline & Hkind)];
      cbn [run_start] in *; cbv zeta in *.
    + now rewrite E.
    + rewrite E, bind_Ok. cbv beta iota.
      now rewrite (unclosed_last k nodes n Hk Hlast Hkind), Hline.
  - cbn [forallb] in Hpre. apply andb_true_iff in Hpre as [Hp Hpre].
    unfold plain_token, token_kind in Hp. cbn [fst snd] in Hp.
    apply andb_true_iff in Hp as [Hp Hcont]. apply andb_true_iff in Hp as [Hc Hend].
    apply negb_true_iff in Hc, Hend.
    destruct fuel as [|fuel]; [lia|]. cbn [app length] in *. cbn [parse_iter].
    destruct (OUT_TOKENS kp).
    + apply (IH Hpre). lia.
    + rewrite Hc, Hend. cbv zeta. now rewrite (IH Hpre fuel [] ltac:(lia)).
Qed.

(** When [parse_iter] comes to an [end] token that no block is open for,
    at the top level, it stops: the tokens after it are left unread. *)
Lemma parse_iter_stray_end (pre : list token) (l : Z) (v : tvalue) :
  forallb plain_token pre = true ->
  forall operands,
    exists nodes,
      forall fuel after,
        (length pre < fuel)%nat ->
        parse_iter fuel (pre ++ (l, K_end, v) :: after) operands = Ok (nodes, after).
Proof.
  induction pre as [|[[lp kp] vp] pre IH]; intros Hpre operands.
  - exists (flush_operands operands ++ [Node l K_end (NLeaf v)])%list.
    intros fuel after Hlt. destruct fuel as [|fuel]; [cbn in Hlt; lia|]. reflexivity.
  - cbn [forallb] in Hpre. apply andb_true_iff in Hpre as [Hp Hpre].
    unfold plain_token, token_kind in Hp. cbn [fst snd] in Hp.
    apply andb_true_iff in Hp as [Hp Hcont]. apply andb_true_iff in Hp as [Hc Hend].
    apply negb_true_iff in Hc, Hend.
    destruct (OUT_TOKENS kp) eqn:Hout.
    + destruct (IH Hpre (operands ++ [(lp, kp, vp)])%list) as [nodes Hn].
      exists nodes. intros fuel after Hlt.
      destruct fuel as [|fuel]; [cbn in Hlt; lia|]. cbn [app length] in *.
      cbn [parse_iter]. rewrite Hout. apply Hn. lia.
    + destruct (IH Hpre []) as [nodes Hn].
      exists (flush_operands operands ++ Node lp kp (NLeaf vp) :: nodes)%list.
      intros fuel after Hlt.
      destruct fuel as [|fuel]; [cbn in Hlt; lia|]. cbn [app length] in *.
      cbn [parse_iter]. rewrite Hout, Hc, Hend. cbv zeta.
      now rewrite (Hn fuel after ltac:(lia)).
Qed.

Lemma end_continue_app (a b : list token) :
  end_continue (a ++ b) = (end_continue a ++ end_continue b)%list.
Proof.
  induction a as [|[[l k] v] a IH]; [reflexivity|].
  cbn [app end_continue]. rewrite IH. now destruct (kind_eqb k K_continue).
Qed.

Lemma end_continue_none (tokens : list token) :
  forallb (fun t => negb (kind_eqb (token_kind t) K_continue)) tokens = true ->
  end_continue tokens = tokens.
Proof.
  induction tokens as [|[[l k] v] tokens IH]; [reflexivity|].
  cbn [forallb]. intros H. apply andb_true_iff in H as [Hk H].
  unfold token_kind in Hk. cbn [fst snd] in Hk. apply negb_true_iff in Hk.
  cbn [end_continue]. now rewrite Hk, (IH H).
Qed.

Lemma forallb_weaken {A} (f g : A -> bool) (l : list A) :
  (forall x, f x = true -> g x = true) -> forallb f l = true -> forallb g l = true.
Proof.
  intros H. induction l as [|x l IH]; [reflexivity|]. cbn [forallb].
  intros E. apply andb_true_iff in E as [E1 E2]. now rewrite (H x E1), (IH E2).
Qed.

Lemma plain_not_continue (t : token) :
  plain_token t = true -> negb (kind_eqb (token_kind t) K_continue) = true.
Proof. unfold plain_token. intros H. now apply andb_true_iff in H as [_ H]. Qed.

Lemma open_not_continue (t : token) :
  open_token t = true -> negb (kind_eqb (token_kind t) K_continue) = true.
Proof.
  unfold open_token. intros H. apply andb_true_iff in H as [H _].
  now apply andb_true_iff in H as [_ H].
Qed.

(** C3, as amended.  Take a template whose tokens are: tokens that open and
    close nothing, then a compound or [def] opener, then at least one token
    and among them no [end], no [else]-like and no [extends] token.
    Compilation fails in [parse_iter] with the "Missing end statement"
    error, and the line the error reports is the line of the last node of
    the template (the last token, or the first token of the run of output
    tokens that the template ends on), not the line of the opener.  The
    error depends on the opener being reached: the tokens that follow an
    [end] token at the top level are never read, whatever they are. *)
Theorem missing_end_line :
  (forall (source : string) (pre : list token) (l : Z) (k : kind) (hdr : tvalue)
          (rest : list token),
      parser_tokenize source = Ok (pre ++ (l, k, hdr) :: rest)%list ->
      forallb plain_token pre = true ->
      k = K_compound \/ k = K_def ->
      rest <> [] ->
      forallb open_token rest = true ->
      (do tokens <- parser_tokenize source; parse_nodes tokens)
      = Raise (missing_end (last_node_line None l rest)))
  /\ (forall (pre : list token) (l : Z) (v : tvalue),
        forallb plain_token pre = true ->
        exists nodes,
          forall after, parse_nodes (pre ++ (l, K_end, v) :: after) = Ok nodes).
Proof.
  split.
  - intros source pre l k hdr rest Htok Hpre Hk Hne Hopen. rewrite Htok, bind_Ok.
    unfold parse_nodes. cbv zeta.
    rewrite end_continue_none.
    + now rewrite (parse_iter_missing_end pre l k hdr rest Hpre Hk Hne Hopen _ []
                     (Nat.lt_succ_diag_r _)).
    + rewrite forallb_app. cbn [forallb]. unfold token_kind at 2. cbn [fst snd].
      rewrite (forallb_weaken _ _ _ plain_not_continue Hpre),
              (forallb_weaken _ _ _ open_not_continue Hopen).
      destruct Hk; now subst k.
  - intros pre l v Hpre.
    destruct (parse_iter_stray_end pre l v Hpre []) as [nodes Hn].
    exists nodes. intros after. unfold parse_nodes. cbv zeta.
    rewrite end_continue_app,
            (end_continue_none pre (forallb_weaken _ _ _ plain_not_continue Hpre)).
    cbn [end_continue kind_eqb].
    rewrite Hn; [reflexivity|]. rewrite length_app. cbn [length]. lia.
Qed.

(** The opener of line 2 is never closed: the error names line 3. *)
Lemma missing_end_line_witness :
  (do tokens <- parser_tokenize ("x" ++ nl ++ "%if true:" ++ nl ++ "foo" ++ nl);
   parse_nodes tokens)
  = Raise (missing_end 3).
Proof.
  exact (proj1 missing_end_line ("x" ++ nl ++ "%if true:" ++ nl ++ "foo" ++ nl)
           [(1%Z, K_markup, VStr ("x" ++ nl))] 2%Z K_compound (VStr "if true:")
           [(3%Z, K_markup, VStr ("foo" ++ nl))]
           eq_refl eq_refl (or_introl eq_refl) ltac:(discriminate) eq_refl).
Defined.

(** C3, as stated, fails: the [%if] of [unclosed_if] is on line 1 and the
    error reports line 2. *)
Lemma missing_end_not_opener_line :
  parser_tokenize unclosed_if
  = Ok [(1%Z, K_compound, VStr "if true"); (2%Z, K_markup, VStr ("foo" ++ nl))]
  /\ (do tokens <- parser_tokenize unclosed_if; parse_nodes tokens)
     = Raise (missing_end 2).
Proof. split; reflexivity. Qed.

(** ** C5: filter chains *)

Lemma split_from_plain (sep : ascii) (s cur : string) :
  has_char sep s = false -> split_from sep cur s = [cur ++ s].
Proof.
  revert cur. induction s as [|c s IH]; intros cur H.
  - now rewrite append_nil_r.
  - simpl in H. apply orb_false_iff in H as [Hc Hs].
    simpl. rewrite Hc. rewrite IH by assumption.
    unfold snoc. now rewrite append_assoc.
Qed.

Lemma split_from_sep (sep : ascii) (a b cur : string) :
  has_char sep a = false ->
  split_from sep cur (a ++ String sep b) = (cur ++ a) :: split_from sep "" b.
Proof.
  revert cur. induction a as [|c a IH]; intros cur H.
  - rewrite append_nil_l, append_nil_r. simpl. now rewrite Ascii.eqb_refl.
  - simpl in H. apply orb_false_iff in H as [Hc Ha].
    rewrite append_cons. simpl. rewrite Hc. rewrite IH by assumption.
    now rewrite append_assoc.
Qed.





(** What [add] leaves as it is, and the line it ends on. *)
Lemma add_frame (l : Z) (code : string) (b b' : builder) :
  add l code b = Ok b' ->
  (lineno b <= l)%Z
  /\ lineno b'
     = (l + Z.of_nat (count_nl (if String.eqb code "return" then writer_return
                                else code)))%Z
  /\ indent b' = indent b
  /\ offset b' = offset b
  /\ local_vars b' = local_vars b
  /\ default_filters b' = default_filters b.
Proof.
  unfold add. destruct (l <? lineno b)%Z eqn:E; [discriminate|]. cbv zeta.
  apply Z.ltb_ge in E.
  match goal with
  | |- bind ?r _ = _ -> _ => destruct r as [ls| | |]; try discriminate
  end.
  rewrite bind_Ok. intros [= <-]. now repeat split.
Qed.






(** ** C2: the [%for] example of the specification *)

(** C2, as stated, fails: rendering the source of the specification does
    not return ["123"], it raises [SyntaxError]. *)
Lemma for_example_not_123 :
  fst (render_template_ 100 false (Some (for_example "%for x in items")) None
         items_123 (new_world no_loader))
  = Raise (Exc SyntaxError "expected ':'").
Proof. vm_compute. reflexivity. Qed.

(** C2, as amended.  The header of a compound statement is copied to the
    generated code as it is written: without its colon the generated code
    does not compile ([SyntaxError]); with the colon the template renders,
    and the newline after [{{x}}] is markup, written at every turn. *)
Theorem for_example_renders :
  fst (render_template_ 100 false (Some (for_example "%for x in items")) None
         items_123 (new_world no_loader))
  = Raise (Exc SyntaxError "expected ':'")
  /\ fst (render_template_ 100 false (Some (for_example "%for x in items:")) None
            items_123 (new_world no_loader))
     = Ok (V_str ("1" ++ nl ++ "2" ++ nl ++ "3" ++ nl)).
Proof. split; vm_compute; reflexivity. Qed.

(** ** The Engine's state while the lock is held *)

Lemma preserves_ret {A} (a : A) : preserves (ret a).
Proof. intros w r w' [= _ <-] _. reflexivity. Qed.

Lemma preserves_lift {A} (x : res A) : preserves (lift x).
Proof. intros w r w' [= _ <-] _. reflexivity. Qed.

Lemma preserves_bind {A B} (m : M A) (k : A -> M B) :
  preserves m -> (forall a, preserves (k a)) -> preserves (mbind m k).
Proof.
  intros Hm Hk w r w' H Hl. unfold mbind in H.
  destruct (m w) as [[a| | |] w1] eqn:E;
    try (injection H as _ <-; exact (Hm _ _ _ E Hl)).
  pose proof (Hm _ _ _ E Hl) as E1.
  rewrite <- E1. eapply Hk; [exact H|]. now rewrite E1.
Qed.

Lemma preserves_catch {A} (t : exc_kind) (m h : M A) :
  preserves m -> preserves h -> preserves (catch t m h).
Proof.
  intros Hm Hh w r w' H Hl. unfold catch in H.
  destruct (m w) as [[a|e| |] w1] eqn:E;
    try (injection H as _ <-; exact (Hm _ _ _ E Hl)).
  pose proof (Hm _ _ _ E Hl) as E1.
  destruct (exc_kind_eqb (exc_type e) t).
  - rewrite <- E1. eapply Hh; [exact H|]. now rewrite E1.
  - injection H as _ <-. exact E1.
Qed.

Lemma preserves_lock_acquire {A} (m : M A) : preserves (lock_acquire m).
Proof.
  intros w r w' H Hl. unfold lock_acquire in H. rewrite Hl in H.
  now injection H as _ <-.
Qed.

Lemma preserves_alloc (o : obj) : preserves (alloc o).
Proof. intros w r w' [= _ <-] _. reflexivity. Qed.

Lemma preserves_read (l : nat) : preserves (read l).
Proof.
  intros w r w' H _. unfold read in H.
  destruct (heap w !! l); now injection H as _ <-.
Qed.

Lemma preserves_write (l : nat) (o : obj) : preserves (write l o).
Proof. intros w r w' [= _ <-] _. reflexivity. Qed.

Lemma preserves_get_engine : preserves get_engine.
Proof. intros w r w' [= _ <-] _. reflexivity. Qed.

Create HintDb pres.
#[local] Hint Resolve preserves_ret preserves_lift preserves_lock_acquire
  preserves_alloc preserves_read preserves_write preserves_get_engine : pres.

(** Goes through the binds and the case distinctions of a computation. *)
Ltac pres_step :=
  match goal with
  | |- preserves (mbind _ _) => apply preserves_bind; [|intros ?]
  | |- preserves (catch _ _ _) => apply preserves_catch
  | |- preserves (mraise _ _) => apply preserves_lift
  | |- preserves (unsupported _) => apply preserves_lift
  | |- preserves out_of_fuel => apply preserves_lift
  | |- preserves (key_error _) => apply preserves_lift
  | |- preserves (name_error _) => apply preserves_lift
  | |- preserves (match ?x with _ => _ end) => destruct x
  | |- preserves _ => solve [auto with pres]
  end.

Ltac pres := repeat pres_step.

Lemma preserves_lookup_global (g : option nat) (x : string) :
  preserves (lookup_global g x).
Proof. unfold lookup_global. pres. Qed.

Lemma preserves_lookup_frames (fs : list nat) (x : string) (g : option nat) :
  preserves (lookup_frames fs x g).
Proof.
  induction fs as [|f fs IH]; simpl.
  - apply preserves_lookup_global.
  - pres.
Qed.

Lemma preserves_lookup (en : env) (x : string) : preserves (lookup en x).
Proof.
  unfold lookup. pres;
    first [apply preserves_lookup_global | apply preserves_lookup_frames].
Qed.

Lemma preserves_store (en : env) (x : string) (v : value) : preserves (store en x v).
Proof. unfold store. pres. Qed.

Lemma preserves_truthy (v : value) : preserves (truthy v).
Proof. unfold truthy. pres. Qed.

Lemma preserves_py_str (v : value) : preserves (py_str v).
Proof. unfold py_str. pres. Qed.

Lemma preserves_getitem (c i : value) : preserves (getitem c i).
Proof. unfold getitem. pres. Qed.

Lemma preserves_setitem (c i v : value) : preserves (setitem c i v).
Proof. unfold setitem. pres. Qed.

Lemma preserves_contains (a b : value) : preserves (contains a b).
Proof. unfold contains. pres. Qed.

Lemma preserves_call_method (self : value) (m : string) (args : list value) :
  preserves (call_method self m args).
Proof. unfold call_method. pres. Qed.

Lemma preserves_as_name (v : value) : preserves (as_name v).
Proof. unfold as_name. pres. Qed.

#[local] Hint Resolve preserves_lookup preserves_store preserves_truthy
  preserves_py_str preserves_getitem preserves_setitem preserves_contains
  preserves_call_method preserves_as_name : pres.

(** While the lock is held, running generated code changes nothing in the
    Engine: a compilation that the code asks for would need the lock. *)
Lemma preserves_interp (fuel : nat) :
  (forall en e, preserves (eval fuel en e))
  /\ (forall en es, preserves (eval_list fuel en es))
  /\ (forall en st, preserves (exec fuel en st))
  /\ (forall en sts, preserves (exec_block fuel en sts))
  /\ (forall en x l i body, preserves (for_loop fuel en x l i body))
  /\ (forall f args, preserves (call fuel f args))
  /\ (forall name c l s, preserves (Engine_render fuel name c l s))
  /\ (forall name, preserves (import_name fuel name))
  /\ (forall name kw, preserves (compile_template fuel name kw))
  /\ (forall name kw, preserves (compile_import fuel name kw)).
Proof.
  induction fuel as [|fuel IH].
  - repeat split; intros; apply preserves_lift.
  - destruct IH as (Heval & Hlist & Hexec & Hblock & Hfor & Hcall & Hrender
                    & Himport & Htemplate & Hmodule).
    repeat split; intros; simpl; pres; auto with pres.
Qed.

(** ** Reasoning on computations: the outcome of [m] from [w] satisfies [Q] *)

Lemma post_eq {A} (m : M A) (w w' : world) (r : res A) (Q : res A -> world -> Prop) :
  m w = (r, w') -> post m w Q -> Q r w'.
Proof. unfold post. now intros ->. Qed.

Lemma post_weaken {A} (m : M A) (w : world) (P Q : res A -> world -> Prop) :
  post m w P -> (forall r w', P r w' -> Q r w') -> post m w Q.
Proof. unfold post. auto. Qed.

Lemma post_bind {A B} (m : M A) (k : A -> M B) (w : world) (Q : res B -> world -> Prop) :
  post m w (after k Q) -> post (mbind m k) w Q.
Proof.
  unfold post, after, mbind. destruct (m w) as [[a| | |] w1]; simpl; auto.
Qed.

Lemma post_lock_acquire {A} (m : M A) (w : world) (Q : res A -> world -> Prop) :
  locked (engine w) = false ->
  post m (set_engine w (set_locked true (engine w)))
       (fun r w' => Q r (set_engine w' (set_locked false (engine w')))) ->
  post (lock_acquire m) w Q.
Proof.
  unfold post, lock_acquire. intros ->.
  now destruct (m (set_engine w (set_locked true (engine w)))).
Qed.

Lemma post_preserves {A} (m : M A) (w : world) (Q : res A -> world -> Prop) :
  preserves m ->
  locked (engine w) = true ->
  (forall r w', engine w' = engine w -> Q r w') ->
  post m w Q.
Proof.
  intros Hm Hl HQ. unfold post. apply HQ.
  apply (Hm w (fst (m w)) (snd (m w))); [now destruct (m w) | exact Hl].
Qed.

Lemma post_ret {A} (a : A) (w : world) (Q : res A -> world -> Prop) :
  Q (Ok a) w -> post (ret a) w Q.
Proof. exact id. Qed.

Lemma post_lift {A} (r : res A) (w : world) (Q : res A -> world -> Prop) :
  Q r w -> post (lift r) w Q.
Proof. exact id. Qed.

Lemma post_get_engine (w : world) (Q : res Engine -> world -> Prop) :
  Q (Ok (engine w)) w -> post get_engine w Q.
Proof. exact id. Qed.

Lemma post_put_engine (e : Engine) (w : world) (Q : res unit -> world -> Prop) :
  Q (Ok tt) (set_engine w e) -> post (put_engine e) w Q.
Proof. exact id. Qed.

Lemma post_alloc (o : obj) (w : world) (Q : res nat -> world -> Prop) :
  Q (Ok (length (heap w))) (set_heap w (heap w ++ [o])%list) -> post (alloc o) w Q.
Proof. exact id. Qed.

Lemma post_fresh_id (w : world) (Q : res nat -> world -> Prop) :
  Q (Ok (next_id (engine w)))
    (set_engine w {| loader := loader (engine w); locked := locked (engine w);
                     templates := templates (engine w);
                     renders := renders (engine w);
                     modules := modules (engine w);
                     engine_filters := engine_filters (engine w);
                     next_id := S (next_id (engine w));
                     builds := builds (engine w) |}) ->
  post fresh_id w Q.
Proof. exact id. Qed.

(** One step of a computation that starts with a bind. *)
Ltac post_step :=
  apply post_bind;
  lazymatch goal with
  | |- post get_engine _ _ => apply post_get_engine
  | |- post (put_engine _) _ _ => apply post_put_engine
  | |- post (lift _) _ _ => apply post_lift
  | |- post (alloc _) _ _ => apply post_alloc
  | |- post fresh_id _ _ => apply post_fresh_id
  | |- post (ret _) _ _ => apply post_ret
  | |- _ => idtac
  end;
  cbv beta iota delta [after].

(** The fields of the worlds and Engines that the steps build. *)
Ltac fields :=
  cbn [engine heap set_engine set_heap loader locked templates renders modules
       engine_filters next_id builds set_locked set_caches count_build
       cache_template cache_module caches fst snd] in *.

(** ** C6 and C8: the Engine's caches *)

Lemma compile_template_unfold (fuel : nat) (name : option string) (kw : kwargs) :
  compile_template (S fuel) name kw =
    lock_acquire (
      let! e <- get_engine;
      match cached (templates e) name with
      | Some t => ret t
      | None =>
          let! _ <- put_engine (count_build e);
          let! '(path, nodes, filters) <- lift (load_and_parse e name kw);
          let! source <- lift (BlockBuilder (-2) (render_nodes nodes) filters);
          let! compiled <- lift (compile_code source);
          let! local_vars <- alloc (O_dict []);
          let! _ <- exec_block fuel (Env [] (Some local_vars) None) compiled;
          let! render <- getitem (V_ref local_vars) (V_str "render");
          let! id <- fresh_id;
          let template := {| t_id := id; t_name := name; render_template := render |} in
          let! e' <- get_engine;
          let! _ <- (if name_true name
                     then put_engine (cache_template (default "" name) template e')
                     else ret tt);
          ret template
      end).
Proof. reflexivity. Qed.


Lemma load_and_parse_locked (b : bool) (e : Engine) (name : option string) (kw : kwargs) :
  load_and_parse (set_locked b e) name kw = load_and_parse e name kw.
Proof. reflexivity. Qed.

Lemma compile_template_miss (fuel : nat) (name : option string) (kw : kwargs) (w : world) :
  cached (templates (engine w)) name = None ->
  locked (engine w) = false ->
  post (compile_template (S fuel) name kw) w (compiled_once name w).
Proof.
  intros Hmiss Hfree. rewrite compile_template_unfold.
  apply post_lock_acquire; [exact Hfree|].
  post_step. fields. rewrite Hmiss.
  post_step.
  generalize (load_and_parse (set_locked true (engine w)) name kw).
  intros r. post_step.
  destruct r as [[[path nodes] filters]| | |];
    [|unfold compiled_once; fields; now repeat split..].
  generalize (BlockBuilder (-2) (render_nodes nodes) filters).
  intros r. post_step.
  destruct r as [source| | |];
    [|unfold compiled_once; fields; now repeat split..].
  generalize (compile_code source).
  intros r. post_step.
  destruct r as [compiled| | |];
    [|unfold compiled_once; fields; now repeat split..].
  post_step. post_step.
  apply post_preserves; [apply preserves_interp | reflexivity |].
  intros r1 w1 E1. fields.
  destruct r1 as [sg| | |];
    [|unfold compiled_once; rewrite E1; fields; now repeat split..].
  post_step.
  apply post_preserves; [apply preserves_getitem | now rewrite E1 |].
  intros r2 w2 E2. rewrite E1 in E2. clear E1.
  destruct r2 as [render| | |];
    [|unfold compiled_once; rewrite E2; fields; now repeat split..].
  post_step. post_step. fields. rewrite E2. fields.
  apply post_bind.
  destruct (name_true name) eqn:Hname;
    [apply post_put_engine | apply post_ret];
    cbv beta iota delta [after]; apply post_ret;
    unfold compiled_once; rewrite ?Hname; fields; now repeat split.
Qed.


Lemma mbind_ok {A B} (m : M A) (k : A -> M B) (w w' : world) (b : B) :
  mbind m k w = (Ok b, w') ->
  exists a w1, m w = (Ok a, w1) /\ k a w1 = (Ok b, w').
Proof.
  unfold mbind. destruct (m w) as [[a| | |] w1]; try discriminate.
  intros H. now exists a, w1.
Qed.

Lemma get_template_plain (fuel : nat) (name : option string) (w : world) :
  Engine_get_template fuel name no_kwargs w =
    match cached (templates (engine w)) name with
    | Some t => (Ok t, w)
    | None => compile_template fuel name no_kwargs w
    end.
Proof.
  unfold Engine_get_template. rewrite andb_false_r.
  unfold mbind, ret, get_engine.
  now destruct (cached (templates (engine w)) name).
Qed.

Lemma remove_free (name : option string) (w : world) :
  locked (engine w) = false ->
  remove name w = (Ok tt, set_engine w (remove_entry name (engine w))).
Proof.
  intros Hfree. unfold remove, lock_acquire. rewrite Hfree.
  destruct w as [h e]. destruct e. fields. subst.
  destruct name; reflexivity.
Qed.

Lemma name_true_some (n : string) : n <> "" -> name_true (Some n) = true.
Proof.
  intros Hn. simpl. destruct (String.eqb_spec n ""); [contradiction | reflexivity].
Qed.

Lemma get_template_result (fuel : nat) (n : string) (w w1 : world) (t : Template) :
  n <> "" ->
  locked (engine w) = false ->
  renders_cover (engine w) ->
  Engine_get_template fuel (Some n) no_kwargs w = (Ok t, w1) ->
  locked (engine w1) = false
  /\ templates (engine w1) !! n = Some t
  /\ is_Some (renders (engine w1) !! n).
Proof.
  intros Hn Hfree Hcover H. rewrite get_template_plain in H.
  cbn [cached] in H.
  destruct (templates (engine w) !! n) as [t0|] eqn:Hc.
  - injection H as <- <-. repeat split; try assumption.
    apply Hcover. rewrite Hc. eauto.
  - destruct fuel as [|fuel]; [discriminate|].
    pose proof (compile_template_miss fuel (Some n) no_kwargs w Hc Hfree) as Hp.
    apply (post_eq _ _ _ _ _ H) in Hp. destruct Hp as (Hl & _ & Hcaches).
    rewrite (name_true_some n Hn) in Hcaches.
    unfold caches in Hcaches. cbn [default] in Hcaches.
    injection Hcaches as E1 E2 _.
    rewrite E1, E2. repeat split; [exact Hl | apply lookup_insert_eq |].
    rewrite lookup_insert_eq. eauto.
Qed.

(** C6, as amended.  For every non-empty template name, once
    [Engine.get_template(name)] has returned a template, a second call
    without options returns the same [Template] object and leaves the Engine
    as it is (nothing is compiled); and [remove(name)] followed by
    [get_template(name)], when it returns, has run exactly one
    compilation. *)
Theorem get_template_cached (fuel fuel2 fuel3 : nat) (n : string)
                            (w w1 : world) (t : Template) :
  n <> "" ->
  locked (engine w) = false ->
  renders_cover (engine w) ->
  Engine_get_template fuel (Some n) no_kwargs w = (Ok t, w1) ->
  Engine_get_template fuel2 (Some n) no_kwargs w1 = (Ok t, w1)
  /\ forall t' w3,
       (let! _ <- remove (Some n); Engine_get_template fuel3 (Some n) no_kwargs) w1
       = (Ok t', w3) ->
       builds (engine w3) = S (builds (engine w1)).
Proof.
  intros Hn Hfree Hcover H.
  destruct (get_template_result _ _ _ _ _ Hn Hfree Hcover H) as (Hl & Ht & Hr).
  split.
  - rewrite get_template_plain. cbn [cached]. now rewrite Ht.
  - intros t' w3 H3. apply mbind_ok in H3 as ([] & w2 & Hrm & Hget).
    rewrite (remove_free _ _ Hl) in Hrm.
    assert (E2 : w2 = set_engine w1 (remove_entry (Some n) (engine w1)))
      by congruence.
    subst w2. clear Hrm.
    rewrite get_template_plain in Hget.
    assert (Hnone : cached (templates (engine (set_engine w1
                       (remove_entry (Some n) (engine w1))))) (Some n) = None).
    { cbn [cached engine set_engine remove_entry].
      rewrite (bool_decide_eq_true_2 _ Hr). fields. apply lookup_delete_eq. }
    rewrite Hnone in Hget.
    destruct fuel3 as [|fuel3]; [discriminate|].
    pose proof (compile_template_miss fuel3 (Some n) no_kwargs _ Hnone Hl) as Hp.
    apply (post_eq _ _ _ _ _ Hget) in Hp. destruct Hp as (_ & Hb & _).
    rewrite Hb. reflexivity.
Qed.

Lemma get_template_cached_witness :
  let w := new_world (one_template "hello" "Hello!") in
  let w1 := snd (Engine_get_template 10 (Some "hello") no_kwargs w) in
  Engine_get_template 10 (Some "hello") no_kwargs w1 = (Ok hello_template, w1)
  /\ forall t' w3,
       (let! _ <- remove (Some "hello");
        Engine_get_template 10 (Some "hello") no_kwargs) w1 = (Ok t', w3) ->
       builds (engine w3) = S (builds (engine w1)).
Proof.
  apply (get_template_cached 10 10 10 "hello"
           (new_world (one_template "hello" "Hello!")) _ hello_template).
  - discriminate.
  - reflexivity.
  - intros n [x Hx]. unfold new_world, new_engine in Hx. fields.
    rewrite lookup_empty in Hx. discriminate.
  - vm_compute. reflexivity.
Defined.

(** C6, as stated, fails for the empty name, which is not [None]: a template
    stored under [''] is compiled at every call, and each call returns a new
    [Template] object. *)
Lemma empty_name_not_cached :
  fst ((let! a <- Engine_get_template 10 (Some "") no_kwargs;
        let! b <- Engine_get_template 10 (Some "") no_kwargs;
        let! e <- get_engine;
        ret (t_id a, t_id b, builds e)) (new_world (one_template "" "Hello!")))
  = Ok (0, 1, 2)%nat.
Proof. vm_compute. reflexivity. Qed.








(** ** C7: errors of a render routine *)

(** C7 fails in [Engine.render]: its [try] spans the invocation of the
    routine, so a [KeyError] that the routine raises is caught as if it were
    a cache miss, and the routine is invoked a second time.  Rendered on its
    own, "t" raises [KeyError]; included from "outer" once it is in the
    cache, its first [KeyError] is swallowed and the second invocation
    returns. *)
Theorem engine_render_swallows_keyerror :
  fst (render_template_ 100 false (Some "t") None [] (new_world flaky_loader))
  = Raise (Exc KeyError "'missing'")
  /\ fst ((let! _ <- Engine_get_template 100 (Some "t") no_kwargs;
           render_template_ 100 false (Some "outer") None [])
            (new_world flaky_loader))
     = Ok (V_str ("ok" ++ nl)).
Proof. split; vm_compute; reflexivity. Qed.

(** ** C4: templates of literal text *)

#[local] Arguments String.append !s1 s2 : simpl nomatch.

Lemma unescape_literal (s : string) :
  forall ls, no_stmt_from ls s = true -> Re.unescape_from ls s = s.
Proof.
  induction s as [|c s IH]; intros ls H; [reflexivity|].
  simpl in *. destruct (ls && Ascii.eqb c "%"); [discriminate|].
  now rewrite IH.
Qed.

Lemma stmt_ahead_literal (s : string) :
  no_stmt_from true s = true -> Re.stmt_ahead s = false.
Proof.
  unfold Re.stmt_ahead. induction s as [|c s IH]; intros H; [reflexivity|].
  simpl in H. simpl span.
  destruct (Ascii.eqb_spec c "%") as [->|Hc]; [discriminate|].
  destruct (is_sp c) eqn:Hsp.
  - rewrite orb_true_r in H. specialize (IH H).
    destruct (span is_sp s) as [a b]. exact IH.
  - simpl. destruct s; [reflexivity|].
    now rewrite (ascii_eqb_neq _ _ Hc).
Qed.

Lemma has_sub_cons (p : string) (c : ascii) (s : string) :
  has_sub p (String c s) = false -> startswith p (String c s) = false /\ has_sub p s = false.
Proof. simpl. intros H. apply orb_false_iff in H. exact H. Qed.

Lemma markup_stop_literal (s : string) :
  forall ls,
    has_sub "{{" s = false -> no_stmt_from ls s = true -> Re.markup_stop s = None.
Proof.
  induction s as [|c s IH]; intros ls Hv Hs; [reflexivity|].
  apply has_sub_cons in Hv as [Hv1 Hv2].
  cbn [Re.markup_stop]. rewrite Hv1.
  simpl in Hs. destruct (ls && Ascii.eqb c "%"); [discriminate|].
  rewrite (IH _ Hv2 Hs).
  destruct (is_nl c) eqn:Hnl; [|reflexivity].
  simpl in Hs. now rewrite (stmt_ahead_literal s Hs).
Qed.

Lemma stmt_match_literal (s : string) :
  no_stmt_from true s = true -> Re.stmt_match s = None.
Proof.
  intros H. unfold Re.stmt_match.
  assert (Hs : match snd (span is_sp s) with
               | String c _ => Ascii.eqb c "%" = false
               | "" => True
               end).
  { induction s as [|c s IH]; [exact I|].
    simpl in H. simpl span.
    destruct (Ascii.eqb_spec c "%") as [->|Hc]; [discriminate|].
    destruct (is_sp c) eqn:Hsp.
    - rewrite orb_true_r in H. specialize (IH H).
      destruct (span is_sp s) as [a b]. exact IH.
    - simpl. now apply ascii_eqb_neq. }
  destruct (span is_sp s) as [sp1 s1]. simpl in Hs.
  destruct s1 as [|c s2]; [reflexivity|]. now rewrite Hs.
Qed.

Lemma var_match_literal (s : string) :
  has_sub "{{" s = false -> Re.var_match s = None.
Proof.
  intros H. unfold Re.var_match.
  destruct s as [|c s]; [reflexivity|].
  apply has_sub_cons in H as [-> _]. reflexivity.
Qed.

Lemma drop_0 (s : string) : drop 0 s = s.
Proof. now destruct s. Qed.

(** The tokens of a literal text: one markup token, or none. *)
Lemma tokenize_literal (s : string) :
  literal_text s = true ->
  tokenize_loop parser_rules (String.length s) s 0 1 =
    Ok (if String.eqb s "" then []
        else [(1%Z, K_markup, VStr (Re.line_join_sub s))]).
Proof.
  unfold literal_text. intros H. apply andb_true_iff in H as [Hv Hs].
  apply negb_true_iff in Hv.
  destruct s as [|c s]; [reflexivity|].
  set (t := String c s) in *.
  change (String.length t) with (S (String.length s)).
  cbn [tokenize_loop].
  replace (0 <? S (String.length s))%nat with true by reflexivity.
  unfold parser_rules, first_match, stmt_token, var_token, mtok.
  rewrite drop_0, (stmt_match_literal t Hs), (var_match_literal t Hv).
  cbn [bind].
  unfold Re.markup_match. rewrite (markup_stop_literal t true Hv Hs).
  replace (String.eqb t "") with false by reflexivity.
  cbn [bind char_before].
  replace (0 + String.length t <=? 0)%nat with false by reflexivity.
  assert (Hend : forall fuel l,
             tokenize_loop [stmt_token; var_token; mtok] fuel t
               (0 + String.length t) l = Ok []).
  { intros fuel l. destruct fuel; simpl; now rewrite Nat.ltb_irrefl. }
  rewrite Hend. cbn [bind].
  unfold Re.unescape. cbn [Re.unescape_from andb].
  replace (is_nl ch_nl) with true by reflexivity. cbn [orb].
  rewrite (unescape_literal t true Hs). reflexivity.
Qed.

Lemma build_literal (v : string) (filters : list string) :
  (do b <- BlockBuilder (-2)
             (render_nodes [Node 1 K_out (NOut [(1%Z, K_markup, VStr v)])]) filters;
   Ok (lines b))
  = Ok (literal_lines v).
Proof. reflexivity. Qed.

Lemma build_empty (filters : list string) :
  (do b <- BlockBuilder (-2) (render_nodes []) filters; Ok (lines b))
  = Ok [def_render; "    return ''"].
Proof. reflexivity. Qed.

(** *** [repr] is read back by Python's tokenizer *)

Lemma repr_char_lex (q c : ascii) (acc s : string) :
  q = ch_sq \/ q = ch_dq ->
  py_lex (M_str q acc) (repr_char q c ++ s) = py_lex (M_str q (snoc acc c)) s.
Proof.
  intros [-> | ->];
    destruct c as [[] [] [] [] [] [] [] []]; reflexivity.
Qed.

Lemma repr_body_lex (q : ascii) (v : string) :
  q = ch_sq \/ q = ch_dq ->
  forall acc s,
    py_lex (M_str q acc) (repr_body q v ++ s) = py_lex (M_str q (acc ++ v)) s.
Proof.
  intros Hq. induction v as [|c v IH]; intros acc s.
  - now rewrite append_nil_r.
  - cbn [repr_body]. rewrite append_assoc, repr_char_lex by assumption.
    rewrite IH. unfold snoc. now rewrite append_assoc.
Qed.

Lemma repr_char_first (q c : ascii) (s : string) :
  q = ch_sq \/ q = ch_dq ->
  startswith (String q "") (repr_char q c ++ s) = false.
Proof.
  intros [-> | ->];
    destruct c as [[] [] [] [] [] [] [] []]; reflexivity.
Qed.

Lemma repr_not_triple (q : ascii) (v : string) :
  q = ch_sq \/ q = ch_dq ->
  startswith (String q (String q "")) (repr_body q v ++ String q "") = false.
Proof.
  intros Hq. destruct v as [|c v].
  - destruct Hq as [-> | ->]; reflexivity.
  - cbn [repr_body]. rewrite append_assoc.
    pose proof (repr_char_first q c (repr_body q v ++ String q "") Hq) as H.
    destruct (repr_char q c ++ repr_body q v ++ String q "") as [|x r];
      [reflexivity|].
    simpl in *. destruct (Ascii.eqb q x); [discriminate | reflexivity].
Qed.

Lemma repr_quote_cases (v : string) : repr_quote v = ch_sq \/ repr_quote v = ch_dq.
Proof. unfold repr_quote. destruct (_ && _); auto. Qed.

(** The tokens of [repr v]: one string literal, whose value is [v]. *)
Lemma repr_lex (v : string) : py_lex M_start (repr v) = Ok [PT_str v].
Proof.
  unfold repr. pose proof (repr_quote_cases v) as Hq.
  set (q := repr_quote v) in *.
  assert (E : py_lex M_start (String q (repr_body q v ++ String q ""))
              = py_lex (M_str q "") (repr_body q v ++ String q "")).
  { cbn [py_lex]. rewrite (repr_not_triple q v Hq).
    destruct Hq as [-> | ->]; reflexivity. }
  rewrite E, repr_body_lex by assumption.
  cbn [py_lex]. rewrite Ascii.eqb_refl. reflexivity.
Qed.

Lemma return_repr_lex (v : string) :
  py_lex M_start ("return " ++ repr v) = Ok [PT_name "return"; PT_str v].
Proof.
  change (py_lex M_start ("return " ++ repr v))
    with (cons_tok (PT_name "return") (py_lex M_start (repr v))).
  now rewrite repr_lex.
Qed.

Lemma repr_char_no_nl (q c : ascii) :
  q = ch_sq \/ q = ch_dq -> has_char ch_nl (repr_char q c) = false.
Proof.
  intros [-> | ->];
    destruct c as [[] [] [] [] [] [] [] []]; reflexivity.
Qed.

Lemma has_char_append (x : ascii) (a b : string) :
  has_char x (a ++ b) = has_char x a || has_char x b.
Proof.
  induction a as [|c a IH]; [reflexivity|].
  cbn [String.append has_char]. now rewrite IH, orb_assoc.
Qed.

Lemma repr_body_no_nl (q : ascii) (v : string) :
  q = ch_sq \/ q = ch_dq -> has_char ch_nl (repr_body q v) = false.
Proof.
  intros Hq. induction v as [|c v IH]; [reflexivity|].
  cbn [repr_body]. now rewrite has_char_append, repr_char_no_nl, IH.
Qed.

Lemma repr_no_nl (v : string) : has_char ch_nl (repr v) = false.
Proof.
  unfold repr. pose proof (repr_quote_cases v) as Hq.
  set (q := repr_quote v) in *.
  change (has_char ch_nl (String q (repr_body q v ++ String q "")))
    with (Ascii.eqb q ch_nl || has_char ch_nl (repr_body q v ++ String q "")).
  rewrite has_char_append, repr_body_no_nl by assumption.
  destruct Hq as [-> | ->]; reflexivity.
Qed.

Lemma compile_literal (v : string) :
  py_compile (join nl (literal_lines v)) = Ok (literal_module v).
Proof.
  unfold py_compile, literal_lines, join, split.
  change (def_render ++ nl ++ "" ++ nl ++ "    return " ++ repr v)
    with (def_render ++ String ch_nl ("" ++ String ch_nl ("    return " ++ repr v))).
  rewrite split_from_sep by reflexivity.
  rewrite split_from_sep by reflexivity.
  rewrite split_from_plain
    by (rewrite has_char_append, repr_no_nl; reflexivity).
  cbn [py_lines]. 
  assert (E : py_line ("" ++ "    return " ++ repr v)
              = Ok (Some (4%nat, [PT_name "return"; PT_str v]))).
  { unfold py_line.
    change (span is_sp ("" ++ "    return " ++ repr v))
      with ("    ", "return " ++ repr v).
    change (startswith (String ch_tab "") ("return " ++ repr v)) with false.
    cbv iota. now rewrite return_repr_lex. }
  rewrite E. reflexivity.
Qed.

(** *** The stages of the compilation of a literal template *)

Lemma literal_stages (e : Engine) (text : string) :
  literal_text (normalize text) = true ->
  build_stages e None (inline text) render_nodes
  = Ok (literal_module (Re.line_join_sub (normalize text))).
Proof.
  intros Hlit. unfold build_stages, load_and_parse, inline.
  cbn [kw_source kw_default_filters load]. rewrite bind_Ok. cbv beta iota zeta.
  unfold parser_tokenize, tokenize. fold (normalize text).
  rewrite (tokenize_literal _ Hlit).
  destruct (String.eqb_spec (normalize text) "") as [E|E].
  - rewrite E. reflexivity.
  - set (v := Re.line_join_sub (normalize text)).
    rewrite bind_Ok.
    change (parse_nodes [(1%Z, K_markup, VStr v)])
      with (Ok [Node 1 K_out (NOut [(1%Z, K_markup, VStr v)])]).
    rewrite bind_Ok. cbv beta iota zeta.
    rewrite bind_Ok. cbv beta iota zeta.
    match goal with
    | |- bind (BlockBuilder ?l ?n ?f) _ = _ =>
        pose proof (build_literal v f) as Hb;
        change (BlockBuilder (-2)
                  (render_nodes [Node 1 K_out (NOut [(1%Z, K_markup, VStr v)])]) f)
          with (BlockBuilder l n f) in Hb;
        revert Hb; generalize (BlockBuilder l n f)
    end.
    intros [b| | |] Hb; try discriminate Hb.
    rewrite bind_Ok in Hb. injection Hb as Hb.
    rewrite bind_Ok. cbv beta. unfold compile_code, source_text. rewrite Hb.
    apply compile_literal.
Qed.

(** *** Running the compiled module and the routine *)

Lemma exec_block_nil (fuel : nat) (en : env) : exec_block (S fuel) en [] = ret Normal.
Proof. reflexivity. Qed.

Lemma exec_block_cons (fuel : nat) (en : env) (st : stmt) (sts : list stmt) :
  exec_block (S fuel) en (st :: sts) =
    let! sg <- exec fuel en st;
    match sg with
    | Normal => exec_block fuel en sts
    | Returned v => ret (Returned v)
    end.
Proof. reflexivity. Qed.

Lemma exec_def (fuel : nat) (en : env) (f : string) (params : list string)
               (body : list stmt) :
  exec (S fuel) en (S_def f params body) =
    let! _ <- store en f (V_func f params body (frames en) (globals en));
    ret Normal.
Proof. reflexivity. Qed.

Lemma exec_return (fuel : nat) (en : env) (e : expr) :
  exec (S fuel) en (S_return (Some e)) = let! v <- eval fuel en e; ret (Returned v).
Proof. reflexivity. Qed.

Lemma eval_str (fuel : nat) (en : env) (s : string) :
  eval (S fuel) en (E_str s) = ret (V_str s).
Proof. reflexivity. Qed.

Lemma call_func (fuel : nat) (name : string) (params : list string) (body : list stmt)
                (closure : list nat) (g : option nat) (args : list value) :
  call (S fuel) (V_func name params body closure g) args =
    if negb (length params =? length args)%nat
    then mraise TypeError "wrong number of arguments"
    else
      let! fr <- alloc (O_frame (params ++ bound_names body)%list (combine params args));
      let! sg <- exec_block fuel (Env (fr :: closure) None g) body;
      match sg with
      | Normal => ret V_none
      | Returned v => ret v
      end.
Proof. reflexivity. Qed.

Lemma post_read (l : nat) (o : obj) (w : world) (Q : res obj -> world -> Prop) :
  heap w !! l = Some o -> Q (Ok o) w -> post (read l) w Q.
Proof. intros H HQ. unfold post, read. now rewrite H. Qed.

Lemma post_write (l : nat) (o : obj) (w : world) (Q : res unit -> world -> Prop) :
  Q (Ok tt) (set_heap w (<[l := o]> (heap w))) -> post (write l o) w Q.
Proof. exact id. Qed.

(** [exec] of the module in a new locals dict, and the [local_vars['render']]
    that follows; [k] is the rest of the computation. *)
Lemma exec_literal_module {A} (fuel : nat) (v : string) (k : value -> M A)
                          (w : world) (Q : res A -> world -> Prop) :
  (forall h, post (k (literal_routine v)) (set_heap w h) Q) ->
  post (let! local_vars <- alloc (O_dict []);
        let! _ <- exec_block (S (S fuel)) (Env [] (Some local_vars) None)
                             (literal_module v);
        let! render <- getitem (V_ref local_vars) (V_str "render");
        k render) w Q.
Proof.
  intros HQ. post_step.
  set (l := length (heap w)).
  unfold literal_module. rewrite exec_block_cons, exec_def.
  cbn [frames globals].
  apply post_bind. apply post_bind. apply post_bind.
  unfold store. cbn [frames module_locals].
  apply post_bind.
  apply (post_read l (O_dict [])).
  { cbn [heap set_heap]. apply list_lookup_middle. reflexivity. }
  cbv beta iota delta [after].
  apply post_bind. apply post_lift. cbn [dict_set]. cbv beta iota delta [after].
  apply post_write. cbv beta iota delta [after].
  apply post_ret. cbv beta iota delta [after].
  rewrite exec_block_nil. apply post_ret. cbv beta iota delta [after].
  apply post_bind. unfold getitem.
  apply post_bind.
  apply (post_read l (O_dict [(V_str "render", literal_routine v)])).
  { cbn [heap set_heap]. rewrite insert_app_r_alt by reflexivity.
    replace (l - length (heap w))%nat with 0%nat by (unfold l; lia).
    apply list_lookup_middle. reflexivity. }
  cbv beta iota delta [after].
  apply post_bind. apply post_lift.
  change (dict_get (V_str "render") [(V_str "render", literal_routine v)])
    with (Ok (Some (literal_routine v))).
  cbv beta iota delta [after]. apply post_ret. cbv beta iota delta [after].
  apply HQ.
Qed.

Lemma allocates_ret {A} (a : A) : allocates (ret a).
Proof. intros w. now exists a, w. Qed.

Lemma allocates_bind {A B} (m : M A) (k : A -> M B) :
  allocates m -> (forall a, allocates (k a)) -> allocates (mbind m k).
Proof.
  intros Hm Hk w. destruct (Hm w) as (a & w1 & E1 & H1).
  destruct (Hk a w1) as (b & w2 & E2 & H2).
  exists b, w2. unfold mbind. rewrite E1. split; [exact E2 | congruence].
Qed.

Lemma allocates_alloc (o : obj) : allocates (alloc o).
Proof. intros w. eexists _, _. split; reflexivity. Qed.

Lemma alloc_lit_ok : forall x : lit, allocates (alloc_lit x).
Proof.
  fix IH 1. intros [| b | z | s | items]; try apply allocates_ret.
  cbn [alloc_lit].
  apply allocates_bind.
  - induction items as [|i items IHl]; [apply allocates_ret|].
    apply allocates_bind; [apply IH|]. intros v.
    apply allocates_bind; [exact IHl|]. intros vs. apply allocates_ret.
  - intros vs. apply allocates_bind; [apply allocates_alloc|].
    intros l. apply allocates_ret.
Qed.

Lemma alloc_context_ok (c : context) : allocates (alloc_context c).
Proof.
  unfold alloc_context. apply allocates_bind.
  - induction c as [|[k x] c IH]; [apply allocates_ret|].
    cbn [alloc_items]. apply allocates_bind; [apply alloc_lit_ok|]. intros v.
    apply allocates_bind; [exact IH|]. intros kvs. apply allocates_ret.
  - intros kvs. apply allocates_bind; [apply allocates_alloc|].
    intros l. apply allocates_ret.
Qed.

Lemma get_template_anonymous (fuel : nat) (kw : kwargs) :
  Engine_get_template fuel None kw = compile_template fuel None kw.
Proof. reflexivity. Qed.

(** Compiling a literal template gives a template whose routine returns the
    text. *)
Lemma compile_literal_template (fuel : nat) (text : string) (w : world) :
  literal_text (normalize text) = true ->
  locked (engine w) = false ->
  post (Engine_get_template (S (S (S fuel))) None (inline text)) w
       (fun r w' =>
          locked (engine w') = false
          /\ exists t, r = Ok t
             /\ render_template t
                = literal_routine (Re.line_join_sub (normalize text))).
Proof.
  intros Hlit Hfree. rewrite get_template_anonymous, compile_template_unfold.
  pose proof (literal_stages (engine w) text Hlit) as Hst.
  set (v := Re.line_join_sub (normalize text)) in *.
  apply post_lock_acquire; [exact Hfree|].
  post_step. fields. cbn [cached]. post_step.
  unfold build_stages in Hst. rewrite load_and_parse_locked.
  revert Hst. generalize (load_and_parse (engine w) None (inline text)).
  intros r Hst. post_step.
  destruct r as [[[path nodes] filters]| | |]; binds Hst;
    [|discriminate Hst..].
  revert Hst. generalize (BlockBuilder (-2) (render_nodes nodes) filters).
  intros r Hst. post_step.
  destruct r as [source| | |]; binds Hst; [|discriminate Hst..].
  post_step. rewrite Hst.
  apply exec_literal_module. intros h.
  post_step. post_step. cbn [name_true].
  apply post_bind, post_ret. cbv beta iota delta [after].
  apply post_ret. fields. split; [reflexivity|].
  eexists. split; reflexivity.
Qed.

Lemma post_allocates {A} (m : M A) (w : world) (Q : res A -> world -> Prop) :
  allocates m ->
  (forall a w', engine w' = engine w -> Q (Ok a) w') ->
  post m w Q.
Proof.
  intros Hm HQ. destruct (Hm w) as (a & w' & E & He).
  unfold post. rewrite E. now apply HQ.
Qed.

(** The routine of a literal template returns its text, whatever the
    context. *)
Lemma render_literal (fuel : nat) (t : Template) (v : string) (c : context) (w : world) :
  render_template t = literal_routine v ->
  fst (Template_render (S (S (S (S fuel)))) t c w) = Ok (V_str v).
Proof.
  intros Ht.
  change (post (Template_render (S (S (S (S fuel)))) t c) w
               (fun r _ => r = Ok (V_str v))).
  unfold Template_render. rewrite Ht.
  apply post_bind, post_allocates; [apply alloc_context_ok|].
  intros ctx w1 _. cbv beta iota delta [after].
  post_step. post_step.
  unfold literal_routine. rewrite call_func.
  cbn [length Nat.eqb negb].
  post_step.
  rewrite exec_block_cons, exec_return, eval_str.
  apply post_bind, post_bind, post_ret. cbv beta iota delta [after].
  apply post_ret. cbv beta iota delta [after].
  apply post_ret. reflexivity.
Qed.

(** C4, as amended.  For every template whose source, once its line endings
    are normalized, is literal text (no ["{{"], and no line whose first
    character after its leading spaces is [%], doubled or not), and for
    every context, compiling the source with [Engine.get_template] and
    rendering the template with [Template.render] return the text with its
    line endings normalized and its line-join markers (a backslash before a
    newline) removed; the context is not consulted. *)
Theorem literal_template_renders (fuel : nat) (text : string) (w : world) :
  literal_text (normalize text) = true ->
  locked (engine w) = false ->
  (4 <= fuel)%nat ->
  exists t w1,
    Engine_get_template fuel None (inline text) w = (Ok t, w1)
    /\ forall c w2,
         fst (Template_render fuel t c w2)
         = Ok (V_str (Re.line_join_sub (normalize text))).
Proof.
  intros Hlit Hfree Hfuel.
  destruct fuel as [|[|[|[|fuel]]]]; try lia.
  pose proof (compile_literal_template (S fuel) text w Hlit Hfree) as Hp.
  unfold post in Hp. destruct Hp as (_ & t & Et & Hr).
  exists t, (snd (Engine_get_template (S (S (S (S fuel)))) None (inline text) w)).
  split.
  - rewrite <- Et. now destruct (Engine_get_template _ _ _ w).
  - intros c w2. now apply render_literal.
Qed.

Lemma literal_template_renders_witness :
  exists t w1,
    Engine_get_template 4 None (inline ("50%" ++ nl ++ "off")) (new_world no_loader)
    = (Ok t, w1)
    /\ forall c w2,
         fst (Template_render 4 t c w2) = Ok (V_str ("50%" ++ nl ++ "off")).
Proof.
  exact (literal_template_renders 4 ("50%" ++ nl ++ "off") (new_world no_loader)
           eq_refl eq_refl (le_n 4)).
Defined.

(** C4, as stated, fails: the text is not returned exactly.  A carriage
    return before a newline is dropped, and so is a backslash with the
    newline after it; a line that starts with a doubled [%] is text as well,
    and loses one [%]. *)
Lemma literal_text_not_verbatim :
  fst ((let! t <- Engine_get_template 10 None (inline ("a" ++ String ch_cr nl ++ "b"));
        Template_render 10 t []) (new_world no_loader))
  = Ok (V_str ("a" ++ nl ++ "b"))
  /\ fst ((let! t <- Engine_get_template 10 None (inline ("a\" ++ nl ++ "b"));
           Template_render 10 t []) (new_world no_loader))
     = Ok (V_str "ab")
  /\ fst ((let! t <- Engine_get_template 10 None (inline "%%x");
           Template_render 10 t []) (new_world no_loader))
     = Ok (V_str "%x").
Proof. repeat split; vm_compute; reflexivity. Qed.

(** ** The builder rules on the root node *)

Lemma build_block_where_cons (keep : kind -> bool) (n : node) (nodes : list node)
                             (b : builder) :
  build_block_where keep (n :: nodes) b =
    if keep (node_kind n)
    then do b' <- build_token n b; build_block_where keep nodes b'
    else build_block_where keep nodes b.
Proof. reflexivity. Qed.

Lemma build_block_cons (n : node) (nodes : list node) (b : builder) :
  build_block (n :: nodes) b = do b' <- build_token n b; build_block nodes b'.
Proof. reflexivity. Qed.


Lemma build_block_where_all (nodes : list node) (b : builder) :
  build_block_where (fun _ => true) nodes b = build_block nodes b.
Proof.
  revert b. induction nodes as [|n nodes IH]; intros b; [reflexivity|].
  rewrite build_block_where_cons, build_block_cons.
  generalize (build_token n b). intros [b'| | |]; [|reflexivity..].
  rewrite !bind_Ok. apply IH.
Qed.

Lemma build_render_extends (l0 l : Z) (v : tvalue) (parent : string)
                           (inner : list node) (b : builder) :
  (l0 <= 0)%Z ->
  build_token (Node l0 K_render
                 (NBlock v [Node l K_extends (NBlock (VStr parent) inner)])) b
  = do b' <- build_block_where def_or_require inner b;
    add (lineno b' + 1) (extends_code parent) b'.
Proof.
  intros H. cbn [build_token].
  replace (0 <? l0)%Z with false by (symmetry; apply Z.ltb_ge; exact H).
  reflexivity.
Qed.

(** ** C10: the [%require] line that the module-level functions prepend *)

Lemma has_char_all (f : ascii -> bool) (x : ascii) (s : string) :
  all_chars f s = true -> f x = false -> has_char x s = false.
Proof.
  intros Hs Hx. induction s as [|c s IH]; [reflexivity|].
  cbn [all_chars has_char] in *. apply andb_true_iff in Hs as [Hc Hs].
  rewrite (IH Hs), orb_false_r.
  destruct (Ascii.eqb_spec c x) as [->|]; [congruence | reflexivity].
Qed.

Lemma has_char_join (x : ascii) (keys : list string) :
  Forall (fun k => has_char x k = false) keys ->
  has_char x " " = false ->
  has_char x (join " " keys) = false.
Proof.
  intros Hk Hsp. induction Hk as [|k keys Hx Hks IH]; [reflexivity|].
  destruct keys as [|k2 keys]; [exact Hx|].
  change (join " " (k :: k2 :: keys)) with (k ++ " " ++ join " " (k2 :: keys)).
  now rewrite !has_char_append, Hx, Hsp, IH.
Qed.

Lemma join_has_no (x : ascii) (keys : list string) :
  Forall (fun k => key_ok k = true) keys ->
  key_char x = false -> has_char x " " = false ->
  has_char x (join " " keys) = false.
Proof.
  intros Hk Hx Hsp. apply has_char_join; [|exact Hsp].
  eapply Forall_impl; [exact Hk|]. intros k Hok. cbv beta in Hok.
  unfold key_ok in Hok. apply andb_true_iff in Hok as [_ Hall].
  now apply (has_char_all key_char).
Qed.

Lemma replace_prefix (p x : string) :
  has_char ch_cr p = false ->
  replace (String ch_cr nl) nl (p ++ x) = p ++ replace (String ch_cr nl) nl x.
Proof.
  intros H. unfold replace. induction p as [|c p IH]; [reflexivity|].
  cbn [has_char] in H. apply orb_false_iff in H as [Hc Hp].
  rewrite !append_cons. cbn [replace_from startswith]. rewrite Ascii.eqb_sym, Hc.
  cbn [andb]. now rewrite IH.
Qed.

Lemma stmt_tail_line (a x : string) :
  forall prev,
    has_char ch_nl a = false ->
    Ascii.eqb (last_char prev a) ch_bs = false ->
    Re.stmt_tail prev (a ++ String ch_nl x) = Some (a, x).
Proof.
  induction a as [|c a IH]; intros prev Hnl Hbs.
  - cbn [last_char] in Hbs. rewrite append_nil_l. cbn [Re.stmt_tail].
    replace (is_nl ch_nl) with true by reflexivity. now rewrite Hbs.
  - cbn [has_char] in Hnl. apply orb_false_iff in Hnl as [Hc Ha].
    rewrite append_cons. cbn [Re.stmt_tail]. unfold is_nl. rewrite Hc.
    cbn [andb]. now rewrite (IH c Ha Hbs).
Qed.

Lemma line_join_sub_plain (s : string) :
  has_char ch_nl s = false -> Re.line_join_sub s = s.
Proof.
  induction s as [|c s IH]; intros H; [reflexivity|].
  cbn [has_char] in H. apply orb_false_iff in H as [Hc Hs].
  destruct s as [|c' s]; [reflexivity|].
  cbn [Re.line_join_sub]. fold Re.line_join_sub.
  cbn [has_char] in Hs. apply orb_false_iff in Hs as [Hc' Hs].
  unfold is_nl at 1. rewrite Hc', andb_false_r.
  f_equal. apply IH. cbn [has_char]. now rewrite Hc', Hs.
Qed.

Lemma find_rparen_app (a x : string) :
  has_char ")" a = false -> Re.find_rparen (a ++ String ")" x) = Some a.
Proof.
  intros H. induction a as [|c a IH]; [reflexivity|].
  cbn [has_char] in H. apply orb_false_iff in H as [Hc Ha].
  rewrite append_cons. cbn [Re.find_rparen]. now rewrite Hc, (IH Ha).
Qed.

Lemma last_char_nonempty (d d' c : ascii) (s : string) :
  last_char d (String c s) = last_char d' (String c s).
Proof. reflexivity. Qed.

Lemma rstrip_plain (s : string) :
  isspace (last_char " " s) = false -> rstrip s = s.
Proof.
  induction s as [|c s IH]; intros H; [discriminate H|].
  cbn [rstrip]. destruct s as [|c' s].
  - cbn [rstrip last_char] in *. now rewrite H.
  - rewrite IH by exact H. reflexivity.
Qed.

Lemma last_char_append (d : ascii) (a b : string) :
  last_char d (a ++ b) = last_char (last_char d a) b.
Proof.
  revert d. induction a as [|c a IH]; intros d; [reflexivity|].
  rewrite append_cons. cbn [last_char]. apply IH.
Qed.

Lemma key_char_not_space (c : ascii) : key_char c = true -> isspace c = false.
Proof.
  unfold key_char. intros H. apply negb_true_iff in H.
  apply orb_false_iff in H as [H _]. apply orb_false_iff in H as [H _]. exact H.
Qed.

Lemma last_char_key (d : ascii) (k : string) :
  key_ok k = true -> key_char (last_char d k) = true.
Proof.
  unfold key_ok. intros H. apply andb_true_iff in H as [Hne Hall].
  destruct k as [|c k]; [discriminate Hne|]. clear Hne.
  revert c d Hall. induction k as [|c' k IH]; intros c d Hall.
  - cbn [all_chars last_char] in *. now apply andb_true_iff in Hall as [Hc _].
  - cbn [all_chars] in Hall. apply andb_true_iff in Hall as [_ Hall].
    change (last_char d (String c (String c' k))) with (last_char c (String c' k)).
    apply IH. exact Hall.
Qed.

Lemma last_char_join (d : ascii) (keys : list string) :
  keys <> [] ->
  Forall (fun k => key_ok k = true) keys ->
  key_char (last_char d (join " " keys)) = true.
Proof.
  intros Hne Hk. revert d. induction Hk as [|k keys Hok Hks IH]; intros d.
  - contradiction.
  - destruct keys as [|k2 keys]; [now apply last_char_key|].
    change (join " " (k :: k2 :: keys)) with (k ++ " " ++ join " " (k2 :: keys)).
    rewrite !last_char_append. apply IH. discriminate.
Qed.

Lemma findall_key (k rest cur : string) :
  all_chars key_char k = true ->
  Re.findall_from cur (k ++ rest) = Re.findall_from (cur ++ k) rest.
Proof.
  revert cur. induction k as [|c k IH]; intros cur H.
  - now rewrite append_nil_l, append_nil_r.
  - cbn [all_chars] in H. apply andb_true_iff in H as [Hc Hk].
    rewrite append_cons. cbn [Re.findall_from].
    unfold key_char in Hc. apply negb_true_iff in Hc.
    rewrite <- orb_assoc in Hc. apply orb_false_iff in Hc as [Hsp Hc].
    apply orb_false_iff in Hc as [Hcomma _].
    rewrite Hsp, Hcomma. cbn [orb]. rewrite (IH _ Hk).
    now rewrite append_assoc.
Qed.

Lemma findall_join (keys : list string) :
  Forall (fun k => key_ok k = true) keys ->
  Re.findall_names (join " " keys) = keys.
Proof.
  unfold Re.findall_names. intros Hk.
  induction Hk as [|k keys Hok Hks IH]; [reflexivity|].
  unfold key_ok in Hok. apply andb_true_iff in Hok as [Hne Hall].
  apply negb_true_iff in Hne.
  destruct keys as [|k2 keys].
  - cbn [join]. rewrite <- (append_nil_r k) at 1.
    rewrite (findall_key k "" "" Hall). rewrite append_nil_l.
    cbn [Re.findall_from]. now rewrite Hne.
  - change (join " " (k :: k2 :: keys))
      with (k ++ String " " (join " " (k2 :: keys))).
    rewrite (findall_key k _ "" Hall). rewrite append_nil_l.
    cbn [Re.findall_from]. replace (isspace " ") with true by reflexivity.
    cbn [orb]. rewrite Hne. cbn [app]. now rewrite IH.
Qed.

Lemma lstrip_plain (c : ascii) (s : string) :
  isspace c = false -> lstrip (String c s) = String c s.
Proof. intros H. unfold lstrip. cbn [span]. now rewrite H. Qed.

Lemma join_first (k : string) (keys : list string) :
  exists r, join " " (k :: keys) = k ++ r.
Proof.
  destruct keys as [|k2 keys].
  - exists "". cbn [join]. now rewrite append_nil_r.
  - now exists (" " ++ join " " (k2 :: keys)).
Qed.

(** The arguments that [stmt_token] extracts from the prepended line. *)
Lemma args_search_require (keys : list string) :
  keys <> [] ->
  Forall (fun k => key_ok k = true) keys ->
  Re.args_search ("require" ++ "(" ++ join " " keys ++ ")") = Some (join " " keys).
Proof.
  intros Hne Hk.
  change ("require" ++ "(" ++ join " " keys ++ ")")
    with ("require" ++ String "(" (join " " keys ++ String ")" "")).
  cbn [String.append Re.args_search Ascii.eqb Bool.eqb].
  assert (Hl : lstrip (join " " keys ++ String ")" "")
               = join " " keys ++ String ")" "").
  { destruct keys as [|k keys]; [contradiction|].
    destruct (join_first k keys) as [r ->].
    inversion Hk as [|? ? Hok _]; subst.
    unfold key_ok in Hok. apply andb_true_iff in Hok as [Hn Hall].
    destruct k as [|c k]; [discriminate Hn|].
    cbn [all_chars] in Hall. apply andb_true_iff in Hall as [Hc _].
    rewrite !append_cons. apply lstrip_plain. now apply key_char_not_space. }
  rewrite Hl, find_rparen_app by (apply join_has_no; auto).
  rewrite rstrip_plain
    by (apply key_char_not_space, last_char_join; assumption).
  now rewrite join_has_no by auto.
Qed.

Lemma stmt_match_require (t : string) :
  Re.stmt_match ("%require(" ++ t) =
    match Re.stmt_tail "e" (String "(" t) with
    | Some (g2, r) =>
        Some ((String.length ("%require(" ++ t) - String.length r)%nat,
              Some "require", g2)
    | None => None
    end.
Proof. reflexivity. Qed.

(** The first rule on the prepended line: a [require] token that lists the
    keys. *)
Lemma stmt_token_require (keys : list string) (source : string) :
  keys <> [] ->
  Forall (fun k => key_ok k = true) keys ->
  exists npos,
    stmt_token (prepend_require keys source) 0
    = Ok (Some (npos, K_require, VList keys)).
Proof.
  intros Hne Hk. unfold stmt_token, prepend_require. rewrite drop_0.
  set (J := join " " keys).
  assert (HJ : forall x, key_char x = false -> has_char x " " = false ->
                         has_char x J = false)
    by (intros; apply join_has_no; auto).
  rewrite stmt_match_require.
  replace (String "(" (J ++ ")" ++ nl ++ source))
    with (("(" ++ J ++ ")") ++ String ch_nl source)
    by (rewrite !append_cons, append_nil_l, append_assoc; reflexivity).
  rewrite stmt_tail_line;
    [ | rewrite append_cons, append_nil_l; cbn [has_char];
        rewrite has_char_append, HJ by reflexivity; reflexivity
      | rewrite !last_char_append; reflexivity ].
  cbn [Nat.ltb Nat.leb andb default from_option id].
  rewrite line_join_sub_plain
    by (rewrite append_cons, append_nil_l; cbn [has_char];
        rewrite has_char_append, HJ by reflexivity; reflexivity).
  change (TOKENS_get (rstrip "require")) with K_require. cbv iota.
  unfold J. rewrite args_search_require by assumption.
  cbn [kind_eqb]. rewrite findall_join by assumption.
  eexists. reflexivity.
Qed.

(** The tokens of a source with the prepended line start with the [require]
    token of the keys, on line 1. *)
Lemma tokenize_require (keys : list string) (source : string) (toks : list token) :
  keys <> [] ->
  Forall (fun k => key_ok k = true) keys ->
  parser_tokenize (prepend_require keys source) = Ok toks ->
  exists rest, toks = (1%Z, K_require, VList keys) :: rest.
Proof.
  intros Hne Hk. unfold parser_tokenize, tokenize.
  assert (E : replace (String ch_cr nl) nl (prepend_require keys source)
              = prepend_require keys (replace (String ch_cr nl) nl source)).
  { unfold prepend_require.
    rewrite <- !append_assoc. rewrite replace_prefix; [reflexivity|].
    rewrite !has_char_append, join_has_no by auto. reflexivity. }
  rewrite E. clear E.
  set (src := replace (String ch_cr nl) nl source).
  destruct (stmt_token_require keys src Hne Hk) as [npos Htok].
  assert (Hlen : exists n, String.length (prepend_require keys src) = S n)
    by (eexists; reflexivity).
  destruct Hlen as [n Hlen]. rewrite Hlen.
  cbn [tokenize_loop]. rewrite Hlen.
  replace (0 <? S n)%nat with true by reflexivity.
  unfold parser_rules. cbn [first_match]. rewrite Htok. rewrite !bind_Ok.
  cbv beta iota zeta.
  destruct (npos <=? 0)%nat; [discriminate|].
  match goal with
  | |- bind ?r _ = _ -> _ => destruct r as [rest| | |]
  end; try discriminate.
  rewrite bind_Ok. intros [= <-]. now exists rest.
Qed.

Lemma get_template_inline (fuel : nat) (debug : bool) (name : option string)
                          (src : string) (keys : list string) :
  keys <> [] ->
  get_template fuel debug name (Some src) keys
  = (let! _ <- debug_clear debug;
     Engine_get_template fuel name (with_source (prepend_require keys src))).
Proof. intros H. destruct keys; [congruence|]. destruct name; reflexivity. Qed.

Lemma get_template_inline_name (fuel : nat) (debug : bool) (n : string)
                               (keys : list string) :
  keys <> [] ->
  negb (has_char ch_nl n) && negb (has_sub "{{" n) = false ->
  get_template fuel debug (Some n) None keys
  = (let! _ <- debug_clear debug;
     Engine_get_template fuel None (with_source (prepend_require keys n))).
Proof.
  intros H Hn. destruct keys; [congruence|].
  unfold get_template. rewrite Hn. reflexivity.
Qed.

Lemma get_template_by_name (fuel : nat) (debug : bool) (n : string)
                           (keys : list string) :
  has_char ch_nl n = false ->
  has_sub "{{" n = false ->
  get_template fuel debug (Some n) None keys
  = (let! _ <- debug_clear debug; Engine_get_template fuel (Some n) no_kwargs).
Proof. intros H1 H2. unfold get_template. rewrite H1, H2. reflexivity. Qed.

Lemma parse_iter_require (fuel : nat) (l : Z) (v : tvalue) (rest : list token) :
  parse_iter (S fuel) ((l, K_require, v) :: rest) []
  = do '(more, rest1) <- parse_iter fuel rest [];
    Ok (Node l K_require (NLeaf v) :: more, rest1).
Proof. reflexivity. Qed.

Lemma parse_nodes_require (keys : list string) (rest : list token) (nodes : list node) :
  parse_nodes ((1%Z, K_require, VList keys) :: rest) = Ok nodes ->
  exists body, nodes = require_node keys :: body.
Proof.
  unfold parse_nodes. cbn [end_continue kind_eqb length].
  generalize (end_continue rest). intros ts.
  rewrite parse_iter_require.
  generalize (parse_iter (S (length ts)) ts []). intros [[more rest1]| | |] H;
    [|discriminate H..].
  repeat (rewrite bind_Ok in H; cbv beta iota zeta in H).
  injection H as <-. now exists more.
Qed.

Lemma parsed_require (keys : list string) (source : string) (nodes : list node) :
  keys <> [] ->
  Forall (fun k => key_ok k = true) keys ->
  parsed (prepend_require keys source) = Ok nodes ->
  exists body, nodes = require_node keys :: body.
Proof.
  intros Hne Hk. unfold parsed.
  destruct (parser_tokenize (prepend_require keys source)) as [toks| | |] eqn:E;
    [|discriminate..].
  destruct (tokenize_require keys source toks Hne Hk E) as [rest ->].
  rewrite bind_Ok. apply parse_nodes_require.
Qed.

Lemma build_require_fresh (l : Z) (keys : list string) (b : builder) :
  local_vars b = [] ->
  build_require l keys b = add l (require_code keys) (set_local_vars b keys).
Proof.
  intros H. unfold build_require, require_code. rewrite H. cbn [app].
  f_equal. f_equal. f_equal. induction keys as [|k keys IH]; [reflexivity|].
  cbn [List.filter mem negb]. now rewrite IH.
Qed.

Lemma bind_assoc {A B C} (r : res A) (f : A -> res B) (g : B -> res C) :
  bind (bind r f) g = bind r (fun x => bind (f x) g).
Proof. now destruct r. Qed.

Lemma build_render_unfold (lr : Z) (v : tvalue) (nodes : list node) (b : builder) :
  build_token (Node lr K_render (NBlock v nodes)) b = build_render lr nodes b.
Proof.
  unfold build_render, build_general.
  transitivity
    (if (0 <? lr)%Z then raise AssertionError ""
     else
       match nodes with
       | [] => add lr "return ''" b
       | [n1] =>
           if is_extends n1 then build_extends n1 b
           else match out_markup n1 with
                | Some (ln, value) => add ln ("return " ++ repr value) b
                | None =>
                    do b1 <- add lr writer_declare b;
                    do b2 <- build_block_where (fun _ => true) nodes b1;
                    add (lineno b2 + 1) writer_return b2
                end
       | [_; n2] =>
           if is_extends n2 then build_extends n2 b
           else
             do b1 <- add lr writer_declare b;
             do b2 <- build_block_where (fun _ => true) nodes b1;
             add (lineno b2 + 1) writer_return b2
       | _ =>
           do b1 <- add lr writer_declare b;
           do b2 <- build_block_where (fun _ => true) nodes b1;
           add (lineno b2 + 1) writer_return b2
       end).
  - destruct nodes as [|n1 [|n2 [|n3 nodes]]]; [reflexivity| | |reflexivity].
    + unfold build_extends. destruct n1 as [l k [tv|os|[p|ks|] inner]]; reflexivity.
    + unfold build_extends. destruct n2 as [l k [tv|os|[p|ks|] inner]]; reflexivity.
  - assert (E : forall ns b1,
               build_block_where (fun _ => true) ns b1 = build_block ns b1)
      by apply build_block_where_all.
    destruct (0 <? lr)%Z; [reflexivity|].
    destruct nodes as [|n1 [|n2 [|n3 nodes]]]; [reflexivity|..].
    + destruct (is_extends n1); [reflexivity|].
      destruct (out_markup n1) as [[ln value]|]; [reflexivity|].
      generalize (add lr writer_declare b). intros [b1| | |]; [|reflexivity..].
      rewrite !bind_Ok. now rewrite E.
    + destruct (is_extends n2); [reflexivity|].
      generalize (add lr writer_declare b). intros [b1| | |]; [|reflexivity..].
      rewrite !bind_Ok. now rewrite E.
    + generalize (add lr writer_declare b). intros [b1| | |]; [|reflexivity..].
      rewrite !bind_Ok. now rewrite E.
Qed.

Lemma build_render_require (lr : Z) (v : tvalue) (keys : list string)
                           (body : list node) (b : builder) :
  (lr <= 0)%Z ->
  only_extends body = false ->
  build_token (Node lr K_render (NBlock v (require_node keys :: body))) b
  = do b1 <- add lr writer_declare b;
    do b2 <- build_require 1 keys b1;
    do b3 <- build_block body b2;
    add (lineno b3 + 1) writer_return b3.
Proof.
  intros Hl Hb. rewrite build_render_unfold. unfold build_render.
  replace (0 <? lr)%Z with false by (symmetry; apply Z.ltb_ge; exact Hl).
  assert (E : build_general lr (require_node keys :: body) b
              = do b1 <- add lr writer_declare b;
                do b2 <- build_require 1 keys b1;
                do b3 <- build_block body b2;
                add (lineno b3 + 1) writer_return b3).
  { unfold build_general.
    generalize (add lr writer_declare b). intros [b1| | |]; [|reflexivity..].
    rewrite !bind_Ok. rewrite build_block_cons, bind_assoc. reflexivity. }
  rewrite <- E. clear E.
  destruct body as [|n1 [|n2 body]]; [reflexivity| |reflexivity].
  unfold only_extends in Hb. unfold is_extends. now rewrite Hb.
Qed.

Lemma build_render_require_extends (lr l : Z) (v : tvalue) (keys : list string)
    (parent : string) (inner : list node) (b : builder) :
  (lr <= 0)%Z ->
  build_token (Node lr K_render
                 (NBlock v [require_node keys;
                            Node l K_extends (NBlock (VStr parent) inner)])) b
  = do b' <- build_block_where def_or_require inner b;
    add (lineno b' + 1) (extends_code parent) b'.
Proof.
  intros Hl. rewrite build_render_unfold. unfold build_render.
  replace (0 <? lr)%Z with false by (symmetry; apply Z.ltb_ge; exact Hl).
  reflexivity.
Qed.

(** ** C10: the module-level [get_template] and [render_template] *)

(** C10, as stated, fails: the keys of the context are not always bound
    before the body runs.  When the inline source is an [%extends] template,
    [build_render] drops the prepended [%require] line, the generated code
    has no [x = ctx['x']], and the block that reads [x] raises
    [NameError]. *)
Lemma require_dropped_before_extends :
  (do b <- generate (prepend_require ["x"] child_x) ["str"];
   Ok (existsb (has_sub "x = ctx['x']") (lines b)))
  = Ok false
  /\ fst (render_template_ 100 false None (Some child_x) [("x", L_str "v")]
            (new_world base_loader))
     = Raise (Exc NameError "name 'x' is not defined").
Proof. split; vm_compute; reflexivity. Qed.

(** C10, as amended.  For a non-empty list of keys that are free of white
    space, commas and closing parentheses, the module-level [get_template]
    on an inline source compiles the source with the line
    [%require(k1 k2 ...)] in front of it; the nodes of that text start with
    the [require] node of the keys; unless the rest of the nodes is one
    [extends] node, the render routine declares its writer, binds every key
    that is not local yet with [k = ctx['k']], and only then runs the code of
    the rest; when the rest is one [extends] node the [require] node is
    dropped, the code being that of the [extends] node alone.  A name
    without a newline and without ["{{"] is looked up by name, and no source
    is passed on. *)
Theorem require_line_prepended (fuel : nat) (debug : bool) (name : option string)
                               (keys : list string) (src : string) :
  keys <> [] ->
  Forall (fun k => key_ok k = true) keys ->
  get_template fuel debug name (Some src) keys
  = (let! _ <- debug_clear debug;
     Engine_get_template fuel name (with_source (prepend_require keys src)))
  /\ (forall nodes,
        parsed (prepend_require keys src) = Ok nodes ->
        exists body, nodes = require_node keys :: body)
  /\ (forall body b,
        only_extends body = false ->
        build_token (Node 0 K_render (NBlock VNone (require_node keys :: body))) b
        = do b1 <- add 0 writer_declare b;
          do b2 <- build_require 1 keys b1;
          do b3 <- build_block body b2;
          add (lineno b3 + 1) writer_return b3)
  /\ (forall b,
        local_vars b = [] ->
        build_require 1 keys b = add 1 (require_code keys) (set_local_vars b keys))
  /\ (forall n b,
        only_extends [n] = true ->
        build_token (Node 0 K_render (NBlock VNone [require_node keys; n])) b
        = build_token (Node 0 K_render (NBlock VNone [n])) b)
  /\ (forall n,
        has_char ch_nl n = false ->
        has_sub "{{" n = false ->
        get_template fuel debug (Some n) None keys
        = (let! _ <- debug_clear debug; Engine_get_template fuel (Some n) no_kwargs)).
Proof.
  intros Hne Hk. repeat apply conj.
  - now apply get_template_inline.
  - intros nodes. now apply parsed_require.
  - intros body b Hb. now apply build_render_require.
  - intros b Hb. now apply build_require_fresh.
  - intros n b Hn. rewrite !build_render_unfold. unfold build_render.
    cbn [Z.ltb Z.compare]. unfold only_extends in Hn. unfold is_extends.
    now rewrite Hn.
  - intros n H1 H2. now apply get_template_by_name.
Qed.

Lemma require_line_prepended_witness :
  get_template 100 false None (Some "Hello {{name}}!") ["name"]
  = (let! _ <- debug_clear false;
     Engine_get_template 100 None
       (with_source (prepend_require ["name"] "Hello {{name}}!")))
  /\ fst (render_template_ 100 false None (Some "Hello {{name}}!")
            [("name", L_str "World")] (new_world no_loader))
     = Ok (V_str "Hello World!").
Proof.
  split.
  - apply (require_line_prepended 100 false None ["name"] "Hello {{name}}!").
    + discriminate.
    + repeat constructor.
  - vm_compute. reflexivity.
Defined.

(** * Further properties of the template engine *)

(** ** The loops of the front end end *)

Lemma finished_bind {A B} (r : res A) (k : A -> res B) :
  finished r = true -> (forall a, r = Ok a -> finished (k a) = true) ->
  finished (bind r k) = true.
Proof. destruct r; intros H Hk; try reflexivity; [now apply Hk | discriminate H]. Qed.

Lemma first_match_finished (rules : list rule) (source : string) (pos : nat) :
  Forall (fun r : rule => forall s p, finished (r s p) = true) rules ->
  finished (first_match rules source pos) = true.
Proof.
  induction 1 as [|r rules Hr _ IH]; [reflexivity|]. cbn [first_match].
  apply finished_bind; [apply Hr|]. intros [m|] _; [reflexivity | exact IH].
Qed.

Lemma tokenize_loop_finished (rules : list rule) (fuel : nat) :
  Forall (fun r : rule => forall s p, finished (r s p) = true) rules ->
  forall source pos lineno0,
    (String.length source - pos <= fuel)%nat ->
    finished (tokenize_loop rules fuel source pos lineno0) = true.
Proof.
  intros Hrules.
  induction fuel as [|fuel IH]; intros source pos lineno0 Hle; cbn [tokenize_loop].
  - destruct (pos <? String.length source)%nat eqn:E; [|reflexivity].
    apply Nat.ltb_lt in E. lia.
  - destruct (pos <? String.length source)%nat eqn:E; [|reflexivity].
    apply Nat.ltb_lt in E.
    apply finished_bind; [now apply first_match_finished|].
    intros [[npos tok] value] _.
    destruct (npos <=? pos)%nat eqn:En; [reflexivity|].
    apply Nat.leb_gt in En.
    apply finished_bind; [apply IH; lia | reflexivity].
Qed.

Lemma parser_rules_finished :
  Forall (fun r : rule => forall s p, finished (r s p) = true) parser_rules.
Proof.
  repeat constructor; intros s p.
  - unfold stmt_token.
    destruct (Re.stmt_match (drop p s)) as [[[len g1] g2]|]; [|reflexivity].
    destruct (_ && _); [reflexivity|]. cbv zeta.
    destruct (TOKENS_get _); try reflexivity;
      destruct (Re.args_search _); reflexivity.
  - unfold var_token. now destruct (Re.var_match _) as [[len g1]|].
  - unfold mtok. now destruct (Re.markup_match _).
Qed.

(** The [while pos < end] loop of [Lexer.tokenize] ends on every source: the
    [assert npos > pos] lets no turn of the loop stand still, so the loop
    takes at most [len(source)] turns. *)
Theorem parser_tokenize_terminates (source : string) :
  finished (parser_tokenize source) = true.
Proof.
  unfold parser_tokenize, tokenize.
  apply tokenize_loop_finished; [exact parser_rules_finished | lia].
Qed.

Lemma parse_iter_finished (fuel : nat) :
  forall tokens operands,
    (length tokens < fuel)%nat ->
    match parse_iter fuel tokens operands with
    | Ok (_, rest) => (length rest <= length tokens)%nat
    | OutOfFuel => False
    | _ => True
    end.
Proof.
  induction fuel as [|fuel IH]; intros tokens operands Hlt; [lia|].
  cbn [parse_iter]. destruct tokens as [|[[l tok] value] rest]; [cbn; lia|].
  cbn [length] in Hlt |- *.
  destruct (OUT_TOKENS tok).
  { specialize (IH rest (operands ++ [(l, tok, value)])%list ltac:(lia)).
    destruct (parse_iter fuel rest _) as [[nodes rest']| | |]; auto. }
  cbv zeta. destruct (COMPOUND_TOKENS tok).
  - pose proof (IH rest [] ltac:(lia)) as H1.
    destruct (parse_iter fuel rest []) as [[vals rest1]| | |]; auto.
    rewrite bind_Ok. cbv beta iota. destruct (unclosed tok vals); [exact I|].
    pose proof (IH rest1 [] ltac:(lia)) as H2.
    destruct (parse_iter fuel rest1 []) as [[more rest2]| | |]; auto.
    rewrite bind_Ok. cbv beta iota. lia.
  - destruct (kind_eqb tok K_end); [lia|].
    pose proof (IH rest [] ltac:(lia)) as H1.
    destruct (parse_iter fuel rest []) as [[more rest1]| | |]; auto.
    rewrite bind_Ok. cbv beta iota. lia.
Qed.

(** [Parser.parse_iter] ends on every token list: each instance of the
    generator draws a token from the shared iterator before it starts
    another instance, so the nesting is bounded by the number of tokens. *)
Theorem parse_nodes_terminates (tokens : list token) :
  finished (parse_nodes tokens) = true.
Proof.
  unfold parse_nodes. cbv zeta.
  pose proof (parse_iter_finished (S (length (end_continue tokens)))
                (end_continue tokens) [] ltac:(lia)) as H.
  destruct (parse_iter _ _ _) as [[nodes rest]| | |]; try reflexivity.
  contradiction.
Qed.

(** ** [Parser.end_continue] *)

Lemma end_continue_no_continue (tokens : list token) :
  forallb (fun t => negb (kind_eqb (token_kind t) K_continue)) (end_continue tokens)
  = true.
Proof.
  induction tokens as [|[[l tok] value] tokens IH]; [reflexivity|].
  destruct tok; simpl; exact IH.
Qed.

Lemma end_continue_filter (tokens : list token) :
  forallb has_value tokens = true ->
  List.filter (fun t => negb (injected_end t)) (end_continue tokens)
  = map as_compound tokens.
Proof.
  induction tokens as [|[[l tok] value] tokens IH]; [reflexivity|].
  intros Hv. cbn [forallb] in Hv. apply andb_true_iff in Hv as [Hv1 Hv2].
  specialize (IH Hv2).
  destruct tok, value; try discriminate Hv1; simpl; now rewrite IH.
Qed.

Lemma end_continue_length (tokens : list token) :
  length (end_continue tokens)
  = (length tokens
     + length (List.filter (fun t => kind_eqb (token_kind t) K_continue) tokens))%nat.
Proof.
  induction tokens as [|[[l tok] value] tokens IH]; [reflexivity|].
  destruct tok; simpl; rewrite IH; lia.
Qed.

Lemma end_continue_idem (tokens : list token) :
  end_continue (end_continue tokens) = end_continue tokens.
Proof.
  induction tokens as [|[[l tok] value] tokens IH]; [reflexivity|].
  destruct tok; simpl; now rewrite IH.
Qed.

(** [Parser.end_continue] leaves no [continue] token: each becomes a
    [compound] token with the same line and text, and an [end] token of that
    line with the value [None] is put just in front of it; the tokens before
    and after are treated the same way, in their order.  Apart from these
    [end] tokens, the tokens are those of the input, in order; a second pass
    changes nothing. *)
Theorem end_continue_closes_blocks (tokens : list token) :
  forallb has_value tokens = true ->
  forallb (fun t => negb (kind_eqb (token_kind t) K_continue)) (end_continue tokens)
  = true
  /\ List.filter (fun t => negb (injected_end t)) (end_continue tokens)
     = map as_compound tokens
  /\ length (end_continue tokens)
     = (length tokens
        + length (List.filter (fun t => kind_eqb (token_kind t) K_continue) tokens))%nat
  /\ end_continue (end_continue tokens) = end_continue tokens
  /\ (forall pre l v rest,
        tokens = (pre ++ (l, K_continue, v) :: rest)%list ->
        end_continue tokens
        = (end_continue pre ++ (l, K_end, VNone) :: (l, K_compound, v)
             :: end_continue rest)%list)
  /\ (forall pre t rest,
        tokens = (pre ++ t :: rest)%list ->
        kind_eqb (token_kind t) K_continue = false ->
        end_continue tokens = (end_continue pre ++ t :: end_continue rest)%list).
Proof.
  intros Hv. repeat apply conj.
  - apply end_continue_no_continue.
  - now apply end_continue_filter.
  - apply end_continue_length.
  - apply end_continue_idem.
  - intros pre l v rest ->. now rewrite end_continue_app.
  - intros pre [[l k] v] rest -> Hk. unfold token_kind in Hk. cbn [fst snd] in Hk.
    rewrite end_continue_app. cbn [end_continue]. now rewrite Hk.
Qed.

Lemma end_continue_closes_blocks_witness :
  end_continue [(1%Z, K_compound, VStr "if a:"); (2%Z, K_markup, VStr "x");
                (3%Z, K_continue, VStr "else:"); (4%Z, K_end, VStr "endif")]
  = (end_continue [(1%Z, K_compound, VStr "if a:"); (2%Z, K_markup, VStr "x")]
       ++ (3%Z, K_end, VNone) :: (3%Z, K_compound, VStr "else:")
       :: end_continue [(4%Z, K_end, VStr "endif")])%list
  /\ end_continue [(1%Z, K_compound, VStr "if a:"); (2%Z, K_markup, VStr "x");
                   (3%Z, K_continue, VStr "else:"); (4%Z, K_end, VStr "endif")]
     = [(1%Z, K_compound, VStr "if a:"); (2%Z, K_markup, VStr "x");
        (3%Z, K_end, VNone); (3%Z, K_compound, VStr "else:");
        (4%Z, K_end, VStr "endif")].
Proof.
  split; [|reflexivity].
  destruct (end_continue_closes_blocks
              [(1%Z, K_compound, VStr "if a:"); (2%Z, K_markup, VStr "x");
               (3%Z, K_continue, VStr "else:"); (4%Z, K_end, VStr "endif")]
              eq_refl) as (_ & _ & _ & _ & H & _).
  exact (H [(1%Z, K_compound, VStr "if a:"); (2%Z, K_markup, VStr "x")]
           3%Z (VStr "else:") [(4%Z, K_end, VStr "endif")] eq_refl).
Defined.

(** ** [BlockBuilder.add]: the generated lines and the line counter *)

Lemma map_last_length (f : string -> string) (l : list string) :
  length (map_last f l) = length l.
Proof.
  induction l as [|x [|y l] IH]; [reflexivity..|].
  change (map_last f (x :: y :: l)) with (x :: map_last f (y :: l)).
  cbn [length]. now rewrite IH.
Qed.

Lemma count_nl_plain (s : string) : has_char ch_nl s = false -> count_nl s = 0%nat.
Proof.
  induction s as [|c s IH]; [reflexivity|]. cbn [has_char count_nl]. unfold is_nl.
  intros H. apply orb_false_iff in H as [-> H]. now rewrite IH.
Qed.

(** [BlockBuilder.add] refuses a line number below the current one; when it
    returns, the builder has grown by as many lines as the line number has
    advanced, the counter stands at the line given plus the newlines of the
    code, and nothing else has changed.  So code without a newline keeps the
    generated lines in step with the lines of the template. *)
Theorem add_line_accounting (l : Z) (code : string) (b b' : builder) :
  add l code b = Ok b' ->
  (lineno b <= l)%Z
  /\ Z.of_nat (length (lines b')) = (Z.of_nat (length (lines b)) + (l - lineno b))%Z
  /\ lineno b'
     = (l + Z.of_nat (count_nl (if String.eqb code "return"
                                then writer_return else code)))%Z
  /\ offset b' = offset b
  /\ indent b' = indent b
  /\ local_vars b' = local_vars b
  /\ (has_char ch_nl code = false -> in_step b -> in_step b' /\ lineno b' = l).
Proof.
  unfold add. destruct (l <? lineno b)%Z eqn:El; [discriminate|].
  apply Z.ltb_ge in El. cbv zeta.
  set (code' := if String.eqb code "return" then writer_return else code).
  assert (Hlines : forall new_lines,
             Z.of_nat (length new_lines)
             = (Z.of_nat (length (lines b)) + (l - lineno b))%Z ->
             Ok (set_lineno (set_lines b new_lines)
                            (l + Z.of_nat (count_nl code'))) = Ok b' ->
             (lineno b <= l)%Z
             /\ Z.of_nat (length (lines b'))
                = (Z.of_nat (length (lines b)) + (l - lineno b))%Z
             /\ lineno b' = (l + Z.of_nat (count_nl code'))%Z
             /\ offset b' = offset b
             /\ indent b' = indent b
             /\ local_vars b' = local_vars b
             /\ (has_char ch_nl code = false -> in_step b ->
                 in_step b' /\ lineno b' = l)).
  { intros new_lines Hlen [= <-]. cbn. repeat split; try assumption.
    - unfold in_step in *. cbn.
      assert (count_nl code' = 0%nat) as ->; [|lia].
      unfold code'. destruct (String.eqb code "return");
        [reflexivity | now apply count_nl_plain].
    - assert (count_nl code' = 0%nat) as ->; [|lia].
      unfold code'. destruct (String.eqb code "return");
        [reflexivity | now apply count_nl_plain]. }
  destruct (lineno b <? l)%Z eqn:Elt.
  - apply Z.ltb_lt in Elt. rewrite bind_Ok. apply Hlines.
    rewrite !length_app, repeat_length. cbn [length]. lia.
  - apply Z.ltb_ge in Elt. assert (l = lineno b) as -> by lia.
    destruct (negb (String.eqb code' "")).
    + destruct (last (lines b)); [|discriminate].
      rewrite bind_Ok. apply Hlines. rewrite map_last_length. lia.
    + rewrite bind_Ok. apply Hlines. lia.
Qed.

Lemma add_line_accounting_witness :
  let b := Builder [def_render] "    " (-1) (-2) [] ["str"] in
  let b' := Builder [def_render; ""; ""; ""; "    x = 1"] "    " 3 (-2) [] ["str"] in
  add 3 "x = 1" b = Ok b'
  /\ in_step b' /\ lineno b' = 3%Z.
Proof.
  intros b b'. split; [reflexivity|].
  apply (add_line_accounting 3 "x = 1" b b' eq_refl); reflexivity.
Defined.

(** A line number below the current one is refused. *)
Lemma add_refuses_earlier_line (l : Z) (code : string) (b : builder) :
  (l < lineno b)%Z -> add l code b = Raise (Exc AssertionError "").
Proof. intros H. unfold add. apply Z.ltb_lt in H. now rewrite H. Qed.

(** ** Errors of the tokenizer *)

Lemma has_char_replace_from (x : ascii) (old new : string) :
  has_char x new = false ->
  forall s k, has_char x s = false -> has_char x (replace_from old new k s) = false.
Proof.
  intros Hnew. induction s as [|c s IH]; intros k Hs; [reflexivity|].
  cbn [has_char] in Hs. apply orb_false_iff in Hs as [Hc Hs].
  cbn [replace_from]. destruct k as [|k]; [|now apply IH].
  destruct (startswith old (String c s)).
  - rewrite has_char_append, Hnew. now apply IH.
  - cbn [has_char]. rewrite Hc. now apply IH.
Qed.

Lemma has_char_span (x : ascii) (f : ascii -> bool) (s : string) :
  has_char x s = false -> has_char x (snd (span f s)) = false.
Proof.
  induction s as [|c s IH]; intros H; [reflexivity|].
  cbn [span]. destruct (f c); [|exact H].
  cbn [has_char] in H. apply orb_false_iff in H as [_ H].
  specialize (IH H). now destruct (span f s).
Qed.

Lemma find_rparen_none (s : string) :
  has_char ")" s = false -> Re.find_rparen s = None.
Proof.
  induction s as [|c s IH]; intros H; [reflexivity|].
  cbn [has_char] in H. apply orb_false_iff in H as [Hc Hs].
  cbn [Re.find_rparen]. now rewrite Hc, (IH Hs).
Qed.

Lemma args_search_none (s : string) :
  has_char ")" s = false -> Re.args_search s = None.
Proof.
  induction s as [|c s IH]; intros H; [reflexivity|].
  cbn [has_char] in H. apply orb_false_iff in H as [Hc Hs].
  cbn [Re.args_search]. rewrite (IH Hs).
  destruct (Ascii.eqb c "("); [|reflexivity].
  unfold lstrip. now rewrite find_rparen_none by now apply has_char_span.
Qed.

Lemma arg_char_no (x : ascii) (t : string) :
  all_chars arg_char t = true -> arg_char x = false -> has_char x t = false.
Proof. intros. now apply (has_char_all arg_char). Qed.

(** The spaces in front of the argument, and the argument after them. *)
Lemma span_sp_line (t tail : string) :
  line_end tail = true ->
  span is_sp (t ++ tail) = (fst (span is_sp t), snd (span is_sp t) ++ tail).
Proof.
  intros Htail. induction t as [|c t IH].
  - rewrite append_nil_l. destruct tail as [|c tail]; [reflexivity|].
    cbn [line_end] in Htail. cbn [span].
    replace (is_sp c) with false; [reflexivity|].
    unfold is_nl in Htail. apply Ascii.eqb_eq in Htail. now subst c.
  - rewrite append_cons. cbn [span]. destruct (is_sp c); [|reflexivity].
    rewrite IH. now destruct (span is_sp t).
Qed.

Lemma all_chars_span (f g : ascii -> bool) (t : string) :
  all_chars f t = true -> all_chars f (snd (span g t)) = true.
Proof.
  induction t as [|c t IH]; intros H; [reflexivity|].
  cbn [span]. destruct (g c); [|exact H].
  cbn [all_chars] in H. apply andb_true_iff in H as [_ H].
  specialize (IH H). now destruct (span g t).
Qed.

Lemma span_sp_last (t : string) : Ascii.eqb (last_char " " (fst (span is_sp t))) ch_bs = false.
Proof.
  assert (H : forall d, Ascii.eqb d ch_bs = false ->
                        Ascii.eqb (last_char d (fst (span is_sp t))) ch_bs = false).
  { induction t as [|c t IH]; intros d Hd; [exact Hd|].
    cbn [span]. destruct (is_sp c) eqn:Hc; [|exact Hd].
    specialize (IH c). destruct (span is_sp t) as [a r]. cbn [fst last_char] in *.
    apply IH. unfold is_sp in Hc. apply Ascii.eqb_eq in Hc. now subst c. }
  now apply H.
Qed.

Lemma last_char_arg (d : ascii) (t : string) :
  Ascii.eqb d ch_bs = false ->
  all_chars arg_char t = true ->
  Ascii.eqb (last_char d t) ch_bs = false.
Proof.
  revert d. induction t as [|c t IH]; intros d Hd Ht; [exact Hd|].
  cbn [all_chars] in Ht. apply andb_true_iff in Ht as [Hc Ht].
  cbn [last_char]. apply IH; [|exact Ht].
  unfold arg_char in Hc. apply negb_true_iff in Hc.
  now apply orb_false_iff in Hc as [_ Hc].
Qed.

(** The tail of [stmt_match] on a line without a backslash. *)
Lemma stmt_tail_end (a tail : string) :
  line_end tail = true ->
  forall prev,
    has_char ch_nl a = false ->
    Ascii.eqb (last_char prev a) ch_bs = false ->
    Re.stmt_tail prev (a ++ tail) = Some (a, drop 1 tail).
Proof.
  intros Htail. induction a as [|c a IH]; intros prev Hnl Hbs.
  - cbn [last_char] in Hbs. rewrite append_nil_l.
    destruct tail as [|c tail]; cbn [Re.stmt_tail line_end] in *.
    + now rewrite Hbs.
    + now rewrite Htail, Hbs.
  - cbn [has_char] in Hnl. apply orb_false_iff in Hnl as [Hc Ha].
    rewrite append_cons. cbn [Re.stmt_tail]. unfold is_nl. rewrite Hc.
    cbn [andb]. now rewrite (IH c Ha Hbs).
Qed.

Lemma stmt_match_directive (kw x : string) :
  directive kw = true ->
  Re.stmt_match ("%" ++ kw ++ " " ++ x)
  = let '(sp3, s5) := span is_sp x in
    match Re.stmt_tail (last_char " " sp3) s5 with
    | Some (g2, r) =>
        Some ((String.length ("%" ++ kw ++ " " ++ x) - String.length r)%nat,
              Some (kw ++ " "), g2)
    | None => None
    end.
Proof.
  unfold directive, mem. cbn [existsb]. rewrite orb_false_r. intros H.
  apply orb_true_iff in H as [H|H]; [|apply orb_true_iff in H as [H|H]];
    apply String.eqb_eq in H; subst kw; reflexivity.
Qed.

(** [stmt_token] at the start of a directive line whose argument has no
    closing parenthesis. *)
Lemma stmt_token_directive (source kw t tail : string) (p : nat) :
  directive kw = true ->
  all_chars arg_char t = true ->
  line_end tail = true ->
  drop p source = "%" ++ kw ++ " " ++ t ++ tail ->
  p = 0%nat \/ char_before source p = Some ch_nl ->
  stmt_token source p = Raise no_group.
Proof.
  intros Hkw Ht Htail Hdrop Hstart. unfold stmt_token. rewrite Hdrop.
  rewrite (stmt_match_directive kw _ Hkw), (span_sp_line t tail Htail).
  set (t' := snd (span is_sp t)).
  assert (Ht' : all_chars arg_char t' = true) by now apply all_chars_span.
  rewrite (stmt_tail_end t' tail Htail);
    [ | now apply arg_char_no | apply last_char_arg; [apply span_sp_last | exact Ht'] ].
  replace ((0 <? p)%nat
           && negb match char_before source p with
                   | Some c => is_nl c
                   | None => false
                   end) with false
    by (destruct Hstart as [-> | ->]; [reflexivity | now rewrite andb_false_r]).
  cbn [default from_option id].
  rewrite line_join_sub_plain by now apply arg_char_no.
  rewrite args_search_none.
  - unfold directive, mem in Hkw. cbn [existsb] in Hkw. rewrite orb_false_r in Hkw.
    apply orb_true_iff in Hkw as [H|H]; [|apply orb_true_iff in H as [H|H]];
      apply String.eqb_eq in H; subst kw; reflexivity.
  - rewrite !has_char_append, (arg_char_no ")" t' Ht' eq_refl).
    unfold directive, mem in Hkw. cbn [existsb] in Hkw. rewrite orb_false_r in Hkw.
    apply orb_true_iff in Hkw as [H|H]; [|apply orb_true_iff in H as [H|H]];
      apply String.eqb_eq in H; subst kw; reflexivity.
Qed.

(** An error of the statement rule at a position that the loop comes to is
    the outcome of the loop. *)
Lemma tokenize_loop_raises (source : string) (p : nat) (e : exc) :
  stmt_token source p = Raise e ->
  forall fuel pos l,
    In p (positions fuel source pos) ->
    tokenize_loop parser_rules fuel source pos l = Raise e.
Proof.
  intros He. induction fuel as [|fuel IH]; intros pos l Hin.
  - cbn [positions] in Hin. now destruct (pos <? String.length source)%nat.
  - cbn [positions] in Hin. cbn [tokenize_loop].
    destruct (pos <? String.length source)%nat; [|now destruct Hin].
    destruct Hin as [->|Hin].
    + unfold parser_rules. cbn [first_match]. now rewrite He.
    + destruct (first_match parser_rules source pos) as [[[npos k] v]| | |];
        try now destruct Hin.
      rewrite bind_Ok. cbv beta iota.
      destruct (npos <=? pos)%nat; [now destruct Hin|].
      now rewrite (IH npos _ Hin).
Qed.

(** [%require], [%include] and [%extends] take their argument from between
    parentheses.  A line of the source that starts with one of them and has
    no closing parenthesis (and no backslash) makes [tokenize] fail when the
    loop comes to the start of the line, whatever the argument is and
    wherever the line is, with the [AttributeError] of
    [re.search(...).group] on [None], not with a [SyntaxError]. *)
Theorem directive_without_parentheses (source kw t tail : string) (p : nat) :
  directive kw = true ->
  all_chars arg_char t = true ->
  line_end tail = true ->
  drop p (normalize source) = "%" ++ kw ++ " " ++ t ++ tail ->
  p = 0%nat \/ char_before (normalize source) p = Some ch_nl ->
  In p (positions (String.length (normalize source)) (normalize source) 0) ->
  parser_tokenize source = Raise no_group.
Proof.
  intros Hkw Ht Htail Hdrop Hstart Hin. unfold parser_tokenize, tokenize.
  fold (normalize source). cbv zeta.
  apply (tokenize_loop_raises _ p); [|exact Hin].
  exact (stmt_token_directive _ kw t tail p Hkw Ht Htail Hdrop Hstart).
Qed.

Lemma directive_without_parentheses_witness :
  parser_tokenize ("a" ++ nl ++ "%extends " ++ dq ++ "base" ++ dq ++ nl ++ "text")
  = Raise no_group
  /\ parser_tokenize "%require a b" = Raise no_group.
Proof.
  split.
  - apply (directive_without_parentheses
             ("a" ++ nl ++ "%extends " ++ dq ++ "base" ++ dq ++ nl ++ "text")
             "extends" (dq ++ "base" ++ dq) (nl ++ "text") 2
             eq_refl eq_refl eq_refl eq_refl (or_intror eq_refl)).
    right. left. reflexivity.
  - apply (directive_without_parentheses "%require a b" "require" "a b" "" 0
             eq_refl eq_refl eq_refl eq_refl (or_introl eq_refl)).
    left. reflexivity.
Defined.

(** *** A variable that is not closed *)

Lemma find_close_none (s : string) :
  has_char "}" s = false -> Re.find_close s = None.
Proof.
  induction s as [|c s IH]; intros H; [reflexivity|].
  cbn [has_char] in H. apply orb_false_iff in H as [Hc Hs].
  cbn [Re.find_close startswith]. rewrite Ascii.eqb_sym, Hc. cbn [andb].
  now rewrite (IH Hs).
Qed.

(** A ["{{"] with no ["}"] after it stops the tokenizer: [var_token] does
    not match, the markup rule matches the empty text in front of the
    ["{{"], and the loop's [assert npos > pos] fails.  The error is an
    [AssertionError] with no message. *)
Theorem unclosed_variable_assertion (t : string) :
  has_char "}" t = false ->
  parser_tokenize ("{{" ++ t) = Raise (Exc AssertionError "").
Proof.
  intros Ht. unfold parser_tokenize, tokenize.
  rewrite (replace_prefix "{{" t eq_refl). cbv zeta.
  assert (Hx : has_char "}" (replace (String ch_cr nl) nl t) = false)
    by (apply has_char_replace_from; [reflexivity | exact Ht]).
  set (x := replace (String ch_cr nl) nl t) in *.
  assert (Hvar : var_token ("{{" ++ x) 0 = Ok None).
  { unfold var_token. rewrite drop_0. unfold Re.var_match.
    change (startswith "{{" ("{{" ++ x)) with true. cbv iota.
    change (drop 2 ("{{" ++ x)) with x.
    unfold lstrip. now rewrite find_close_none by now apply has_char_span. }
  assert (Hlen : String.length ("{{" ++ x) = S (S (String.length x))) by reflexivity.
  rewrite Hlen. cbn [tokenize_loop]. rewrite Hlen.
  replace (0 <? S (S (String.length x)))%nat with true by reflexivity.
  unfold parser_rules. cbn [first_match].
  change (stmt_token ("{{" ++ x) 0) with (@Ok (option (nat * kind * tvalue)) None).
  rewrite bind_Ok. cbv beta iota. rewrite Hvar, bind_Ok. cbv beta iota.
  reflexivity.
Qed.

Lemma unclosed_variable_assertion_witness :
  parser_tokenize "{{ name" = Raise (Exc AssertionError "").
Proof. exact (unclosed_variable_assertion " name" eq_refl). Defined.

(** ** [BlockBuilder.build_require] *)

Lemma mem_app (x : string) (l1 l2 : list string) :
  mem x (l1 ++ l2) = mem x l1 || mem x l2.
Proof. unfold mem. apply existsb_app. Qed.

Lemma filter_all_local (locals values : list string) :
  forallb (fun v => mem v locals) values = true ->
  List.filter (fun v => negb (mem v locals)) values = [].
Proof.
  induction values as [|v values IH]; [reflexivity|]. cbn [forallb List.filter].
  intros H. apply andb_true_iff in H as [-> H]. cbn [negb]. now apply IH.
Qed.

Lemma has_char_join_first (x : ascii) (s : string) (l : list string) :
  has_char x s = true -> has_char x (join "; " (s :: l)) = true.
Proof.
  intros H. destruct l as [|y l]; [exact H|].
  change (join "; " (s :: y :: l)) with (s ++ "; " ++ join "; " (y :: l)).
  now rewrite has_char_append, H.
Qed.

Lemma binding_has_eq (v : string) : has_char "=" (binding v) = true.
Proof.
  unfold binding. rewrite has_char_append.
  change (has_char "=" (" = ctx['" ++ v ++ "']")) with true. apply orb_true_r.
Qed.

(** The statement of a non-empty list of names is neither empty nor the
    word [return], which [add] would replace. *)
Lemma bindings_code (v : string) (vs : list string) :
  let code := join "; " (map binding (v :: vs)) in
  String.eqb code "" = false /\ String.eqb code "return" = false.
Proof.
  intros code.
  assert (H : has_char "=" code = true)
    by (unfold code; cbn [map]; apply has_char_join_first, binding_has_eq).
  split; destruct (String.eqb_spec code "") as [E|_], (String.eqb_spec code "return") as [E'|_];
    try reflexivity; try (rewrite E in H; discriminate H);
    try (rewrite E' in H; discriminate H).
Qed.

(** [build_require] records every name it is given as local, and binds from
    the context the names that were not local before, and only those, each
    with [name = ctx['name']], in the order given: on a line of its own the
    generated line is the indentation and these bindings joined with
    semicolons.  When every name is local already no code is generated, only
    the empty lines up to the line of the directive. *)
Theorem build_require_binds_once (l : Z) (values : list string) (b b' : builder) :
  build_require l values b = Ok b' ->
  (forall v, mem v (local_vars b') = mem v (local_vars b) || mem v values)
  /\ ((lineno b < l)%Z ->
      new_names values b <> [] ->
      lines b' = (lines b ++ repeat "" (Z.to_nat (l - lineno b - 1))
                    ++ [(indent b ++ join "; " (map binding (new_names values b)))%string])%list)
  /\ (forall v, In v (new_names values b) <-> In v values /\ mem v (local_vars b) = false)
  /\ (forallb (fun v => mem v (local_vars b)) values = true ->
      lines b' = (lines b ++ repeat "" (Z.to_nat (l - lineno b)))%list).
Proof.
  unfold build_require. cbv zeta. fold binding. fold (new_names values b). intros H.
  destruct (add_frame _ _ _ _ H) as (_ & _ & _ & _ & Hlv & _).
  repeat apply conj.
  - intros v. rewrite Hlv. cbn [local_vars set_local_vars]. apply mem_app.
  - intros Hl Hnew. destruct (new_names values b) as [|v vs]; [now destruct Hnew|].
    destruct (bindings_code v vs) as [E1 E2]. cbv zeta in E1, E2.
    unfold add in H. cbn [lineno set_local_vars lines indent] in H.
    replace (l <? lineno b)%Z with false in H by (symmetry; apply Z.ltb_ge; lia).
    cbv zeta in H. rewrite E2 in H. cbv iota in H.
    apply Z.ltb_lt in Hl. rewrite Hl, E1 in H. rewrite bind_Ok in H.
    now injection H as <-.
  - intros v. unfold new_names. rewrite List.filter_In, negb_true_iff. reflexivity.
  - intros Hall. unfold new_names in H.
    rewrite (filter_all_local _ _ Hall) in H. cbn [map join] in H.
    unfold add in H. cbn [lineno set_local_vars lines indent] in H.
    destruct (l <? lineno b)%Z; [discriminate H|].
    cbn [String.eqb] in H. cbv zeta in H.
    destruct (lineno b <? l)%Z eqn:E.
    + rewrite bind_Ok in H. cbn [negb] in H. injection H as <-.
      cbn [lines set_lines set_lineno]. apply Z.ltb_lt in E.
      replace (Z.to_nat (l - lineno b)) with (S (Z.to_nat (l - lineno b - 1))) by lia.
      cbn [repeat]. now rewrite repeat_cons.
    + cbn [negb] in H. rewrite bind_Ok in H. injection H as <-.
      cbn [lines set_lines set_lineno]. apply Z.ltb_ge in E.
      replace (Z.to_nat (l - lineno b)) with 0%nat by lia.
      cbn [repeat]. now rewrite app_nil_r.
Qed.

Lemma build_require_binds_once_witness :
  let b := Builder ["    x = ctx['x']"] "    " 1 0 ["x"] ["str"] in
  build_require 3 ["x"; "y"; "z"] b
  = Ok (Builder ["    x = ctx['x']"; ""; "    y = ctx['y']; z = ctx['z']"] "    " 3 0
          ["x"; "x"; "y"; "z"] ["str"])
  /\ lines (Builder ["    x = ctx['x']"; ""; "    y = ctx['y']; z = ctx['z']"] "    " 3 0
              ["x"; "x"; "y"; "z"] ["str"])
     = (lines b ++ repeat "" (Z.to_nat (3 - lineno b - 1))
          ++ [(indent b ++ join "; " (map binding (new_names ["x"; "y"; "z"] b)))%string])%list.
Proof.
  intros b. split; [reflexivity|].
  refine (proj1 (proj2 (build_require_binds_once 3 ["x"; "y"; "z"] b _ eq_refl)) _ _).
  - reflexivity.
  - discriminate.
Defined.

(** ** The Engine's cache: [remove], and [get_template] with options *)

Lemma remove_entry_lookup (n : string) (e : Engine) :
  renders_cover e ->
  forall e', e' = remove_entry (Some n) e ->
  templates e' !! n = None
  /\ renders e' !! n = None
  /\ modules e' !! n = None
  /\ (forall m, m <> n ->
        templates e' !! m = templates e !! m
        /\ renders e' !! m = renders e !! m
        /\ modules e' !! m = modules e !! m)
  /\ locked e' = locked e
  /\ builds e' = builds e
  /\ renders_cover e'.
Proof.
  intros Hcover e' ->. unfold remove_entry. cbv zeta.
  destruct (bool_decide (is_Some (renders e !! n))) eqn:E; fields.
  - split; [apply lookup_delete_eq|]. split; [apply lookup_delete_eq|].
    split; [apply lookup_delete_eq|]. split; [|split; [reflexivity|split; [reflexivity|]]].
    + intros m Hm. now rewrite !lookup_delete_ne by congruence.
    + intros m Hm. fields. destruct (decide (m = n)) as [->|Hne].
      * rewrite lookup_delete_eq in Hm. now destruct Hm.
      * rewrite lookup_delete_ne in Hm by congruence.
        rewrite lookup_delete_ne by congruence. now apply Hcover.
  - apply bool_decide_eq_false in E.
    assert (Ht : templates e !! n = None).
    { destruct (templates e !! n) eqn:Ht; [|reflexivity].
      exfalso. apply E, Hcover. rewrite Ht. eauto. }
    assert (Hr : renders e !! n = None).
    { destruct (renders e !! n) eqn:Hr; [|reflexivity]. exfalso. apply E. eauto. }
    split; [exact Ht|]. split; [exact Hr|].
    split; [apply lookup_delete_eq|]. split; [|split; [reflexivity|split; [reflexivity|]]].
    + intros m Hm. now rewrite lookup_delete_ne by congruence.
    + intros m Hm. fields. now apply Hcover.
Qed.

(** [Engine.remove(name)], called with the lock free on paired caches,
    returns with the name in none of the three caches, every other name as
    it was, and the lock free. *)
Theorem remove_forgets_name (n : string) (w : world) :
  locked (engine w) = false ->
  caches_paired (engine w) ->
  exists w',
    remove (Some n) w = (Ok tt, w')
    /\ cached (templates (engine w')) (Some n) = None
    /\ cached (renders (engine w')) (Some n) = None
    /\ cached (modules (engine w')) (Some n) = None
    /\ (forall m, m <> n ->
          templates (engine w') !! m = templates (engine w) !! m
          /\ renders (engine w') !! m = renders (engine w) !! m
          /\ modules (engine w') !! m = modules (engine w) !! m)
    /\ locked (engine w') = false
    /\ heap w' = heap w.
Proof.
  intros Hfree Hpaired.
  assert (Hcover : renders_cover (engine w)) by (intros m; apply Hpaired).
  eexists. split; [now apply remove_free|].
  destruct (remove_entry_lookup n (engine w) Hcover _ eq_refl)
    as (Ht & Hr & Hm & Hother & Hl & _ & _).
  cbn [cached engine set_engine heap]. rewrite Hl.
  split; [exact Ht|]. split; [exact Hr|]. split; [exact Hm|].
  split; [exact Hother|]. split; [exact Hfree | reflexivity].
Qed.

Lemma remove_forgets_name_witness :
  let w := new_world (one_template "hello" "Hello!") in
  let w1 := snd (Engine_get_template 10 (Some "hello") no_kwargs w) in
  cached (templates (engine w1)) (Some "hello") = Some hello_template
  /\ exists w',
       remove (Some "hello") w1 = (Ok tt, w')
       /\ cached (templates (engine w')) (Some "hello") = None
       /\ cached (renders (engine w')) (Some "hello") = None
       /\ cached (modules (engine w')) (Some "hello") = None
       /\ (forall m, m <> "hello" ->
             templates (engine w') !! m = templates (engine w1) !! m
             /\ renders (engine w') !! m = renders (engine w1) !! m
             /\ modules (engine w') !! m = modules (engine w1) !! m)
       /\ locked (engine w') = false
       /\ heap w' = heap w1.
Proof.
  intros w w1. split; [vm_compute; reflexivity|].
  apply (remove_forgets_name "hello" w1).
  - vm_compute. reflexivity.
  - intros n.
    assert (E : templates (engine w1) = {["hello" := hello_template]})
      by (vm_compute; reflexivity).
    assert (E' : renders (engine w1) = {["hello" := render_template hello_template]})
      by (vm_compute; reflexivity).
    rewrite E, E'. split; intros [t Ht];
      apply lookup_singleton_Some in Ht as [<- _];
      rewrite lookup_singleton_eq; eauto.
Defined.

Lemma paired_insert (n : string) (t : Template) (e e' : Engine) :
  caches_paired e ->
  templates e' = <[n := t]> (templates e) ->
  renders e' = <[n := render_template t]> (renders e) ->
  caches_paired e'.
Proof.
  intros Hp Ht Hr m. rewrite Ht, Hr. destruct (decide (m = n)) as [->|Hne].
  - rewrite !lookup_insert_eq. split; eauto.
  - rewrite !lookup_insert_ne by congruence. apply Hp.
Qed.

Lemma paired_remove (n : string) (e : Engine) :
  caches_paired e -> caches_paired (remove_entry (Some n) e).
Proof.
  intros Hp m. unfold remove_entry. cbv zeta.
  destruct (bool_decide (is_Some (renders e !! n))) eqn:E; fields; [|apply Hp].
  destruct (decide (m = n)) as [->|Hne].
  - rewrite !lookup_delete_eq. split; intros [x Hx]; discriminate Hx.
  - rewrite !lookup_delete_ne by congruence. apply Hp.
Qed.

(** [Engine.get_template(name, source=..)] or [(name, default_filters=..)],
    for a name that is not empty: whatever the cache holds for the name is
    dropped and the template is compiled, once; the new template is the one
    returned and the one the caches hold for the name afterwards. *)
Theorem get_template_with_options_recompiles
    (fuel : nat) (n : string) (kw : kwargs) (w w' : world) (t : Template) :
  n <> "" ->
  given kw = true ->
  locked (engine w) = false ->
  caches_paired (engine w) ->
  Engine_get_template fuel (Some n) kw w = (Ok t, w') ->
  builds (engine w') = S (builds (engine w))
  /\ templates (engine w') !! n = Some t
  /\ renders (engine w') !! n = Some (render_template t)
  /\ locked (engine w') = false
  /\ caches_paired (engine w').
Proof.
  intros Hn Hkw Hfree Hp H. unfold Engine_get_template in H.
  rewrite (name_true_some n Hn), Hkw in H. cbn [andb] in H.
  unfold mbind at 1 in H. rewrite (remove_free (Some n) w Hfree) in H.
  set (w1 := set_engine w (remove_entry (Some n) (engine w))) in H.
  unfold mbind, get_engine in H. cbv beta iota in H.
  assert (Hcover : renders_cover (engine w)) by (intros m; apply Hp).
  destruct (remove_entry_lookup n (engine w) Hcover _ eq_refl)
    as (Ht & _ & _ & _ & Hl & Hb & _).
  assert (Hmiss : cached (templates (engine w1)) (Some n) = None) by exact Ht.
  rewrite Hmiss in H.
  assert (Hfree1 : locked (engine w1) = false) by (unfold w1; fields; congruence).
  destruct fuel as [|fuel]; [discriminate H|].
  pose proof (compile_template_miss fuel (Some n) kw w1 Hmiss Hfree1) as Hpost.
  apply (post_eq _ _ _ _ _ H) in Hpost. destruct Hpost as (Hl' & Hb' & Hc).
  rewrite (name_true_some n Hn) in Hc. unfold caches in Hc. cbn [default] in Hc.
  injection Hc as E1 E2 _.
  split; [rewrite Hb'; unfold w1; fields; now rewrite Hb|].
  split; [rewrite E1; apply lookup_insert_eq|].
  split; [rewrite E2; apply lookup_insert_eq|].
  split; [exact Hl'|].
  apply (paired_insert n t (engine w1)); [|exact E1|exact E2].
  unfold w1. fields. now apply paired_remove.
Qed.

Lemma get_template_with_options_recompiles_witness :
  let w := new_world (one_template "hello" "Hello!") in
  let w1 := snd (Engine_get_template 10 (Some "hello") no_kwargs w) in
  let r := Engine_get_template 10 (Some "hello") (inline "Bye!") w1 in
  builds (engine w1) = 1%nat
  /\ builds (engine (snd r)) = 2%nat
  /\ locked (engine (snd r)) = false.
Proof.
  intros w w1 r.
  assert (Hr : exists t, r = (Ok t, snd r)) by (eexists; vm_compute; reflexivity).
  destruct Hr as [t Hr].
  assert (Hp : caches_paired (engine w1)).
  { intros n.
    assert (E : templates (engine w1) = {["hello" := hello_template]})
      by (vm_compute; reflexivity).
    assert (E' : renders (engine w1) = {["hello" := render_template hello_template]})
      by (vm_compute; reflexivity).
    rewrite E, E'. split; intros [x Hx];
      apply lookup_singleton_Some in Hx as [<- _];
      rewrite lookup_singleton_eq; eauto. }
  destruct (get_template_with_options_recompiles 10 "hello" (inline "Bye!") w1 (snd r) t
              ltac:(discriminate) eq_refl eq_refl Hp Hr) as (Hb & _ & _ & Hl & _).
  split; [reflexivity|]. split; [exact Hb | exact Hl].
Defined.

Lemma lock_acquire_frees {A} (m : M A) (w : world) :
  locked (engine w) = false ->
  locked (engine (snd (lock_acquire m w))) = false.
Proof.
  intros Hfree. unfold lock_acquire. rewrite Hfree.
  generalize (m (set_engine w (set_locked true (engine w)))).
  now intros [r w'].
Qed.

Lemma compile_template_frees (fuel : nat) (name : option string) (kw : kwargs)
                             (w : world) :
  locked (engine w) = false ->
  locked (engine (snd (compile_template fuel name kw w))) = false.
Proof.
  intros Hfree. destruct fuel as [|fuel]; [exact Hfree|].
  rewrite compile_template_unfold. now apply lock_acquire_frees.
Qed.

(** Whatever [Engine.get_template] does when it is called with the lock
    free (return a cached template, compile one, or fail at any stage with
    any error), the lock is free when it is over: the [finally] of
    [lock_acquire] releases it. *)
Theorem get_template_releases_lock (fuel : nat) (name : option string)
                                   (kw : kwargs) (w : world) :
  locked (engine w) = false ->
  locked (engine (snd (Engine_get_template fuel name kw w))) = false.
Proof.
  intros Hfree. unfold Engine_get_template.
  assert (H1 : forall w1,
             locked (engine w1) = false ->
             locked (engine (snd ((let! e <- get_engine;
                                   match cached (templates e) name with
                                   | Some t => ret t
                                   | None => compile_template fuel name kw
                                   end) w1))) = false).
  { intros w1 Hf. unfold mbind, get_engine. cbv beta iota.
    destruct (cached (templates (engine w1)) name); [exact Hf|].
    now apply compile_template_frees. }
  destruct (name_true name && given kw).
  - unfold mbind at 1. rewrite (remove_free name w Hfree).
    apply H1. destruct name; [|exact Hfree].
    unfold remove_entry. cbv zeta. fields. exact Hfree.
  - unfold mbind at 1. unfold ret at 1. apply H1. exact Hfree.
Qed.

Lemma get_template_releases_lock_witness :
  locked (engine (snd (Engine_get_template 10 (Some "bad") no_kwargs
                         (new_world (one_template "bad" unclosed_if))))) = false.
Proof.
  exact (get_template_releases_lock 10 (Some "bad") no_kwargs
           (new_world (one_template "bad" unclosed_if)) eq_refl).
Defined.

(** * The helpers of the web layer *)

(** ** [compare_digest] *)

Lemma digest_fold_lor (a b : string) :
  forall r, digest_fold r a b = Z.lor r (digest_fold 0 a b).
Proof.
  revert b. induction a as [|x a IH]; intros b r.
  - cbn [digest_fold]. now rewrite Z.lor_0_r.
  - destruct b as [|y b]; cbn [digest_fold]; [now rewrite Z.lor_0_r|].
    rewrite (IH b (Z.lor r _)), (IH b (Z.lor 0 _)).
    rewrite Z.lor_0_l. now rewrite Z.lor_assoc.
Qed.

Lemma ordZ_inj (x y : ascii) : ordZ x = ordZ y -> x = y.
Proof.
  unfold ordZ, ord. intros H. apply Nat2Z.inj in H.
  rewrite <- (ascii_nat_embedding x), <- (ascii_nat_embedding y). now rewrite H.
Qed.

Lemma digest_fold_eq (a b : string) :
  String.length a = String.length b ->
  digest_fold 0 a b = 0%Z <-> a = b.
Proof.
  revert b. induction a as [|x a IH]; intros [|y b] Hlen; try discriminate Hlen.
  - split; reflexivity.
  - cbn [digest_fold]. rewrite digest_fold_lor, Z.lor_0_l, Z.lor_eq_0_iff.
    rewrite Z.lxor_eq_0_iff. injection Hlen as Hlen. rewrite (IH b Hlen).
    split.
    + intros [Hx ->]. now rewrite (ordZ_inj _ _ Hx).
    + intros [= -> ->]. split; reflexivity.
Qed.

(** [compare_digest(a, b)] is true exactly when the two strings are equal:
    a difference of the lengths or of any pair of characters leaves a bit in
    the folded result. *)
Theorem compare_digest_is_equality (a b : string) :
  compare_digest a b = String.eqb a b.
Proof.
  unfold compare_digest. cbv zeta. rewrite digest_fold_lor.
  destruct (String.eqb_spec a b) as [->|Hne].
  - rewrite Z.lxor_nilpotent, Z.lor_0_l.
    apply Z.eqb_eq. now apply digest_fold_eq.
  - apply Z.eqb_neq. intros H. apply Z.lor_eq_0_iff in H as [Hlen Hfold].
    apply Z.lxor_eq_0_iff, Nat2Z.inj in Hlen.
    apply Hne. now apply digest_fold_eq.
Qed.

(** ** [escape_html] *)

Lemma replace_one (o : ascii) (new s : string) :
  replace (String o "") new s = flat_chars (one_for o new) s.
Proof.
  unfold replace. induction s as [|c s IH]; [reflexivity|].
  cbn [replace_from startswith String.length Nat.sub flat_chars]. unfold one_for at 1.
  rewrite andb_true_r, Ascii.eqb_sym.
  destruct (Ascii.eqb c o); rewrite IH; [reflexivity|].
  now rewrite append_cons, append_nil_l.
Qed.

Lemma flat_chars_app (f : ascii -> string) (a b : string) :
  flat_chars f (a ++ b) = flat_chars f a ++ flat_chars f b.
Proof.
  induction a as [|c a IH]; [now rewrite !append_nil_l|].
  rewrite append_cons. cbn [flat_chars]. now rewrite IH, append_assoc.
Qed.

Lemma flat_chars_flat (f g : ascii -> string) (s : string) :
  flat_chars g (flat_chars f s) = flat_chars (fun c => flat_chars g (f c)) s.
Proof.
  induction s as [|c s IH]; [reflexivity|].
  cbn [flat_chars]. now rewrite flat_chars_app, IH.
Qed.

Lemma flat_chars_ext (f g : ascii -> string) (s : string) :
  (forall c, f c = g c) -> flat_chars f s = flat_chars g s.
Proof.
  intros H. induction s as [|c s IH]; [reflexivity|].
  cbn [flat_chars]. now rewrite H, IH.
Qed.

Lemma has_char_flat (x : ascii) (f : ascii -> string) (s : string) :
  (forall c, has_char x (f c) = false) -> has_char x (flat_chars f s) = false.
Proof.
  intros H. induction s as [|c s IH]; [reflexivity|].
  cbn [flat_chars]. now rewrite has_char_append, H, IH.
Qed.

Lemma flat_chars_plain (f : ascii -> string) (s : string) :
  (forall c, has_char c s = true -> f c = String c "") -> flat_chars f s = s.
Proof.
  induction s as [|c s IH]; intros H; [reflexivity|].
  cbn [flat_chars]. rewrite H by (cbn [has_char]; now rewrite Ascii.eqb_refl).
  rewrite IH; [now rewrite append_cons, append_nil_l|].
  intros c' Hc'. apply H. cbn [has_char]. rewrite Hc'. apply orb_true_r.
Qed.

Ltac each_char c :=
  destruct c as [[] [] [] [] [] [] [] []]; reflexivity.

Lemma html_entity_safe (c : ascii) :
  has_char "<" (html_entity c) = false
  /\ has_char ">" (html_entity c) = false
  /\ has_char ch_dq (html_entity c) = false
  /\ has_char "'" (html_entity c) = false.
Proof. repeat split; each_char c. Qed.

Lemma html_entity_plain (c : ascii) :
  html_special c = false -> html_entity c = String c "".
Proof. destruct c as [[] [] [] [] [] [] [] []]; intros H; try discriminate H; reflexivity. Qed.

(** [escape_html] replaces each of the five characters (ampersand, the two
    angle brackets and the two quotes) by its entity and leaves every other
    character alone; the ampersands of the entities are not escaped a second
    time, the ampersand being replaced first.  The
    result holds no [<], [>], double quote or single quote, and a text
    without the five characters is returned as it is. *)
Theorem escape_html_entities (s : string) :
  escape_html s = flat_chars html_entity s
  /\ has_char "<" (escape_html s) = false
  /\ has_char ">" (escape_html s) = false
  /\ has_char ch_dq (escape_html s) = false
  /\ has_char "'" (escape_html s) = false
  /\ (all_chars (fun c => negb (html_special c)) s = true -> escape_html s = s).
Proof.
  assert (E : escape_html s = flat_chars html_entity s).
  { unfold escape_html.
    change dq with (String ch_dq "").
    change "'" with (String "'"%char "") at 1.
    change ">" with (String ">"%char "") at 1.
    change "<" with (String "<"%char "") at 1.
    change "&" with (String "&"%char "") at 1.
    rewrite !replace_one, !flat_chars_flat.
    apply flat_chars_ext. intros c. each_char c. }
  rewrite E. split; [reflexivity|].
  repeat split; try (apply has_char_flat; intros c; apply html_entity_safe).
  intros H. apply flat_chars_plain. intros c Hc. apply html_entity_plain.
  destruct (html_special c) eqn:Hs; [|reflexivity].
  rewrite (has_char_all _ c s H) in Hc; [discriminate Hc|].
  now rewrite Hs.
Qed.

Lemma escape_html_entities_witness :
  escape_html "a < b & c" = "a &lt; b &amp; c"
  /\ escape_html "plain text" = "plain text".
Proof.
  split; [reflexivity|].
  apply (escape_html_entities "plain text"). reflexivity.
Defined.

(** * HTTPHeaders *)

Lemma named_cons (j k v : string) (h : HTTPHeaders.t) :
  named j ((k, v) :: h)
  = if String.eqb (lower k) j then (k, v) :: named j h else named j h.
Proof. reflexivity. Qed.

Lemma without_cons (i k v : string) (h : HTTPHeaders.t) :
  without i ((k, v) :: h)
  = if String.eqb (lower k) i then without i h else (k, v) :: without i h.
Proof.
  unfold without. cbn [List.filter]. unfold HTTPHeaders.same_key at 1. cbn [fst].
  now destruct (String.eqb (lower k) i).
Qed.

Lemma getitem_named (h : HTTPHeaders.t) (m : string) :
  HTTPHeaders.getitem h m = hd_error (map snd (named (lower m) h)).
Proof.
  induction h as [|[k v] h IH]; [reflexivity|].
  cbn [HTTPHeaders.getitem]. rewrite named_cons.
  destruct (String.eqb (lower k) (lower m)); [reflexivity | exact IH].
Qed.

Lemma named_without (i j : string) (h : HTTPHeaders.t) :
  named j (without i h) = if String.eqb j i then [] else named j h.
Proof.
  induction h as [|[k v] h IH]; [now destruct (String.eqb j i)|].
  rewrite without_cons, named_cons.
  destruct (String.eqb_spec (lower k) i) as [Hi|Hi].
  - rewrite IH. destruct (String.eqb_spec j i) as [->|Hj]; [reflexivity|].
    destruct (String.eqb_spec (lower k) j); [congruence | reflexivity].
  - rewrite named_cons, IH. destruct (String.eqb_spec j i) as [->|Hj]; [|reflexivity].
    destruct (String.eqb_spec (lower k) i); [contradiction | reflexivity].
Qed.

Lemma named_replace_first (h h' : HTTPHeaders.t) (i j name v : string) :
  lower name = i ->
  HTTPHeaders.replace_first h i name v = Some h' ->
  named j h' = if String.eqb j i then [(name, v)] else named j h.
Proof.
  intros Hname. revert h'. induction h as [|[k old] h IH]; intros h' H;
    [discriminate H|].
  cbn [HTTPHeaders.replace_first] in H. fold (without i h) in H.
  rewrite named_cons.
  destruct (String.eqb_spec (lower k) i) as [Hi|Hi].
  - injection H as <-. rewrite named_cons, Hname, named_without.
    rewrite (String.eqb_sym i j).
    destruct (String.eqb_spec j i) as [->|Hj]; [reflexivity|].
    destruct (String.eqb_spec (lower k) j); [congruence | reflexivity].
  - destruct (HTTPHeaders.replace_first h i name v) as [r|]; [|discriminate H].
    injection H as <-. rewrite named_cons, (IH r eq_refl).
    destruct (String.eqb_spec j i) as [->|Hj]; [|reflexivity].
    destruct (String.eqb_spec (lower k) i); [contradiction | reflexivity].
Qed.

Lemma named_no_first (h : HTTPHeaders.t) (i name v : string) :
  HTTPHeaders.replace_first h i name v = None -> named i h = [].
Proof.
  induction h as [|[k old] h IH]; intros H; [reflexivity|].
  cbn [HTTPHeaders.replace_first] in H. rewrite named_cons.
  destruct (String.eqb (lower k) i); [discriminate H|].
  destruct (HTTPHeaders.replace_first h i name v); [discriminate H|].
  now apply IH.
Qed.

Lemma named_app (j : string) (h1 h2 : HTTPHeaders.t) :
  named j (h1 ++ h2)%list = (named j h1 ++ named j h2)%list.
Proof. unfold named. apply List.filter_app. Qed.

Lemma format_vkw_one_line (value : string) (kw : list (string * option string))
                          (v : string) :
  _format_vkw value kw = Ok v -> one_line v = true.
Proof.
  unfold _format_vkw. cbv zeta. unfold one_line.
  destruct (negb (String.eqb (format_kw value kw) "") && _) eqn:E; [discriminate|].
  intros [= <-]. apply andb_false_iff in E as [E|E].
  - apply negb_false_iff, String.eqb_eq in E. now rewrite E.
  - now rewrite E.
Qed.

(** [set(name, value)] leaves one header with the name, whatever the case
    of the letters it is asked by, and that header has the new value; the
    headers with other names are as before, in order.  The value stored
    holds no carriage return and no newline. *)
Theorem set_then_get (h h' : HTTPHeaders.t) (name value : string)
                     (kw : list (string * option string)) :
  HTTPHeaders.set h name value kw = Ok h' ->
  exists v,
    _format_vkw value kw = Ok v
    /\ one_line v = true
    /\ (forall name',
          lower name' = lower name ->
          HTTPHeaders.getitem h' name' = Some v
          /\ HTTPHeaders.get_all h' name' = [v])
    /\ (forall m,
          lower m <> lower name ->
          HTTPHeaders.getitem h' m = HTTPHeaders.getitem h m
          /\ HTTPHeaders.get_all h' m = HTTPHeaders.get_all h m).
Proof.
  unfold HTTPHeaders.set. cbv zeta.
  destruct (_format_vkw value kw) as [v| | |] eqn:Ev; try discriminate.
  rewrite bind_Ok. intros H. exists v. split; [reflexivity|].
  split; [exact (format_vkw_one_line _ _ _ Ev)|].
  assert (Hn : forall j, named j h'
                         = if String.eqb j (lower name)
                           then [(name, v)] else named j h).
  { intros j.
    destruct (HTTPHeaders.replace_first h (lower name) name v) as [r|] eqn:Er;
      injection H as <-.
    - exact (named_replace_first h r (lower name) j name v eq_refl Er).
    - rewrite named_app, named_cons. rewrite (String.eqb_sym (lower name) j).
      destruct (String.eqb_spec j (lower name)) as [->|Hj].
      + now rewrite (named_no_first h _ name v Er).
      + apply app_nil_r. }
  split.
  - intros name' Hsame. rewrite getitem_named. unfold HTTPHeaders.get_all.
    fold (named (lower name') h'). rewrite Hn, Hsame, String.eqb_refl.
    split; reflexivity.
  - intros m Hm. rewrite !getitem_named. unfold HTTPHeaders.get_all.
    fold (named (lower m) h') (named (lower m) h). rewrite Hn.
    destruct (String.eqb_spec (lower m) (lower name)); [contradiction|].
    split; reflexivity.
Qed.

Lemma set_then_get_witness :
  let h := [("Content-Type", "text/html"); ("X-A", "1"); ("content-type", "x")] in
  HTTPHeaders.set h "CONTENT-TYPE" "text/plain" []
  = Ok [("CONTENT-TYPE", "text/plain"); ("X-A", "1")]
  /\ exists v,
       _format_vkw "text/plain" [] = Ok v
       /\ one_line v = true
       /\ (forall name',
             lower name' = lower "CONTENT-TYPE" ->
             HTTPHeaders.getitem [("CONTENT-TYPE", "text/plain"); ("X-A", "1")] name'
             = Some v
             /\ HTTPHeaders.get_all [("CONTENT-TYPE", "text/plain"); ("X-A", "1")] name'
                = [v])
       /\ (forall m,
             lower m <> lower "CONTENT-TYPE" ->
             HTTPHeaders.getitem [("CONTENT-TYPE", "text/plain"); ("X-A", "1")] m
             = HTTPHeaders.getitem h m
             /\ HTTPHeaders.get_all [("CONTENT-TYPE", "text/plain"); ("X-A", "1")] m
                = HTTPHeaders.get_all h m).
Proof.
  intros h. split; [reflexivity|].
  apply (set_then_get h _ "CONTENT-TYPE" "text/plain" []). reflexivity.
Defined.

(** [del headers[name]] removes every header with the name, whatever the
    case of its letters, and no other header. *)
Theorem delitem_removes_all (h : HTTPHeaders.t) (name : string) :
  (forall name',
      lower name' = lower name ->
      HTTPHeaders.contains (HTTPHeaders.delitem h name) name' = false
      /\ HTTPHeaders.get_all (HTTPHeaders.delitem h name) name' = [])
  /\ (forall m,
        lower m <> lower name ->
        HTTPHeaders.getitem (HTTPHeaders.delitem h name) m = HTTPHeaders.getitem h m
        /\ HTTPHeaders.get_all (HTTPHeaders.delitem h name) m
           = HTTPHeaders.get_all h m).
Proof.
  assert (Hn : forall j, named j (HTTPHeaders.delitem h name)
                         = if String.eqb j (lower name) then [] else named j h)
    by (intros j; apply (named_without (lower name) j h)).
  split.
  - intros name' Hsame. unfold HTTPHeaders.contains. rewrite getitem_named.
    unfold HTTPHeaders.get_all. fold (named (lower name') (HTTPHeaders.delitem h name)).
    rewrite Hn, Hsame, String.eqb_refl. split; reflexivity.
  - intros m Hm. rewrite !getitem_named. unfold HTTPHeaders.get_all.
    fold (named (lower m) (HTTPHeaders.delitem h name)) (named (lower m) h).
    rewrite Hn. destruct (String.eqb_spec (lower m) (lower name)); [contradiction|].
    split; reflexivity.
Qed.

Lemma delitem_removes_all_witness :
  HTTPHeaders.delitem [("Set-Cookie", "a=1"); ("X-A", "1"); ("set-cookie", "b=2")]
                      "SET-COOKIE"
  = [("X-A", "1")]
  /\ HTTPHeaders.contains
       (HTTPHeaders.delitem [("Set-Cookie", "a=1"); ("X-A", "1"); ("set-cookie", "b=2")]
                            "SET-COOKIE") "Set-Cookie" = false.
Proof.
  split; [reflexivity|].
  apply (delitem_removes_all
           [("Set-Cookie", "a=1"); ("X-A", "1"); ("set-cookie", "b=2")] "SET-COOKIE").
  reflexivity.
Defined.

(** [add(name, value)] appends: the values of the name are those it had,
    with the new one last; a name that had a value keeps it as the value
    that [headers[name]] returns; the other names are not touched. *)
Theorem add_appends (h h' : HTTPHeaders.t) (name value : string)
                    (kw : list (string * option string)) :
  HTTPHeaders.add h name value kw = Ok h' ->
  exists v,
    _format_vkw value kw = Ok v
    /\ one_line v = true
    /\ h' = (h ++ [(name, v)])%list
    /\ (forall name',
          lower name' = lower name ->
          HTTPHeaders.get_all h' name' = (HTTPHeaders.get_all h name' ++ [v])%list
          /\ HTTPHeaders.getitem h' name'
             = match HTTPHeaders.getitem h name' with
               | Some old => Some old
               | None => Some v
               end)
    /\ (forall m,
          lower m <> lower name ->
          HTTPHeaders.getitem h' m = HTTPHeaders.getitem h m
          /\ HTTPHeaders.get_all h' m = HTTPHeaders.get_all h m).
Proof.
  unfold HTTPHeaders.add.
  destruct (_format_vkw value kw) as [v| | |] eqn:Ev; try discriminate.
  rewrite bind_Ok. intros [= <-]. exists v. split; [reflexivity|].
  split; [exact (format_vkw_one_line _ _ _ Ev)|]. split; [reflexivity|].
  assert (Hn : forall j, named j (h ++ [(name, v)])%list
                         = (named j h
                            ++ if String.eqb (lower name) j then [(name, v)] else [])%list).
  { intros j. rewrite named_app, named_cons.
    now destruct (String.eqb (lower name) j). }
  split.
  - intros name' Hsame. rewrite !getitem_named. unfold HTTPHeaders.get_all.
    fold (named (lower name') (h ++ [(name, v)])%list) (named (lower name') h).
    rewrite Hn, Hsame, String.eqb_refl, map_app. split; [reflexivity|].
    now destruct (named (lower name) h).
  - intros m Hm. rewrite !getitem_named. unfold HTTPHeaders.get_all.
    fold (named (lower m) (h ++ [(name, v)])%list) (named (lower m) h).
    rewrite Hn. destruct (String.eqb_spec (lower name) (lower m)); [congruence|].
    rewrite app_nil_r. split; reflexivity.
Qed.

Lemma add_appends_witness :
  HTTPHeaders.add [("Set-Cookie", "a=1")] "set-cookie" "b=2" [("path", Some "/")]
  = Ok [("Set-Cookie", "a=1"); ("set-cookie", "b=2; path=" ++ dq ++ "/" ++ dq)]
  /\ exists v,
       _format_vkw "b=2" [("path", Some "/")] = Ok v
       /\ one_line v = true
       /\ [("Set-Cookie", "a=1"); ("set-cookie", "b=2; path=" ++ dq ++ "/" ++ dq)]
          = ([("Set-Cookie", "a=1")] ++ [("set-cookie", v)])%list
       /\ (forall name',
             lower name' = lower "set-cookie" ->
             HTTPHeaders.get_all
               [("Set-Cookie", "a=1"); ("set-cookie", "b=2; path=" ++ dq ++ "/" ++ dq)]
               name'
             = (HTTPHeaders.get_all [("Set-Cookie", "a=1")] name' ++ [v])%list
             /\ HTTPHeaders.getitem
                  [("Set-Cookie", "a=1"); ("set-cookie", "b=2; path=" ++ dq ++ "/" ++ dq)]
                  name'
                = match HTTPHeaders.getitem [("Set-Cookie", "a=1")] name' with
                  | Some old => Some old
                  | None => Some v
                  end)
       /\ (forall m,
             lower m <> lower "set-cookie" ->
             HTTPHeaders.getitem
               [("Set-Cookie", "a=1"); ("set-cookie", "b=2; path=" ++ dq ++ "/" ++ dq)] m
             = HTTPHeaders.getitem [("Set-Cookie", "a=1")] m
             /\ HTTPHeaders.get_all
                  [("Set-Cookie", "a=1"); ("set-cookie", "b=2; path=" ++ dq ++ "/" ++ dq)] m
                = HTTPHeaders.get_all [("Set-Cookie", "a=1")] m).
Proof.
  split; [reflexivity|].
  apply (add_appends [("Set-Cookie", "a=1")] _ "set-cookie" "b=2" [("path", Some "/")]).
  reflexivity.
Defined.

Lemma replace_first_absent (h : HTTPHeaders.t) (name v : string) :
  HTTPHeaders.getitem h name = None ->
  HTTPHeaders.replace_first h (lower name) name v = None.
Proof.
  induction h as [|[k old] h IH]; intros H; [reflexivity|].
  cbn [HTTPHeaders.getitem HTTPHeaders.replace_first] in *.
  destruct (String.eqb (lower k) (lower name)); [discriminate H|].
  now rewrite (IH H).
Qed.

(** [setdefault(name, value)] returns the value that the name has and
    leaves the headers as they are; when the name has none, it appends the
    header and returns the value given, which must hold no newline. *)
Theorem setdefault_keeps_existing (h : HTTPHeaders.t) (name value : string) :
  (forall old,
      HTTPHeaders.getitem h name = Some old ->
      HTTPHeaders.setdefault h name value = Ok (old, h))
  /\ (HTTPHeaders.getitem h name = None ->
      one_line value = true ->
      HTTPHeaders.setdefault h name value = Ok (value, (h ++ [(name, value)])%list)
      /\ HTTPHeaders.getitem (h ++ [(name, value)])%list name = Some value)
  /\ (HTTPHeaders.getitem h name = None ->
      one_line value = false ->
      HTTPHeaders.setdefault h name value = Raise (invalid_header value)).
Proof.
  unfold HTTPHeaders.setdefault. repeat split.
  - intros old ->. reflexivity.
  - rewrite H. unfold HTTPHeaders.set, _format_vkw. cbv zeta. cbn [format_kw].
    unfold one_line in H0. apply negb_true_iff in H0. rewrite H0, andb_false_r.
    rewrite bind_Ok, (replace_first_absent h name value H). reflexivity.
  - rewrite getitem_named, named_app, named_cons, String.eqb_refl, map_app.
    rewrite getitem_named in H. now destruct (named (lower name) h).
  - intros H Hv. rewrite H. unfold HTTPHeaders.set, _format_vkw. cbv zeta.
    cbn [format_kw]. unfold one_line in Hv. apply negb_false_iff in Hv. rewrite Hv.
    destruct (String.eqb_spec value "") as [->|_]; [discriminate Hv | reflexivity].
Qed.

Lemma setdefault_keeps_existing_witness :
  HTTPHeaders.setdefault [("Content-Type", "text/html")] "content-type" "text/plain"
  = Ok ("text/html", [("Content-Type", "text/html")])
  /\ HTTPHeaders.setdefault [("Content-Type", "text/html")] "X-A" "1"
     = Ok ("1", [("Content-Type", "text/html"); ("X-A", "1")])
  /\ HTTPHeaders.setdefault [] "X-A" ("1" ++ nl ++ "Set-Cookie: a=b")
     = Raise (invalid_header ("1" ++ nl ++ "Set-Cookie: a=b")).
Proof.
  pose proof (setdefault_keeps_existing [("Content-Type", "text/html")]
                "content-type" "text/plain") as (H1 & _ & _).
  pose proof (setdefault_keeps_existing [("Content-Type", "text/html")]
                "X-A" "1") as (_ & H2 & _).
  pose proof (setdefault_keeps_existing [] "X-A" ("1" ++ nl ++ "Set-Cookie: a=b"))
    as (_ & _ & H3).
  split; [exact (H1 "text/html" eq_refl)|].
  split; [exact (proj1 (H2 eq_refl eq_refl)) | exact (H3 eq_refl eq_refl)].
Defined.

(** [str(headers)] writes each header on a line of its own that ends with a
    carriage return and a newline, and an empty line after the last. *)
Theorem headers_text_lines :
  HTTPHeaders.str [] = String ch_cr nl
  /\ forall kv h,
       HTTPHeaders.str (kv :: h)
       = HTTPHeaders.line kv ++ String ch_cr nl ++ HTTPHeaders.str h.
Proof.
  split; [reflexivity|]. intros kv h. unfold HTTPHeaders.str. cbn [map app].
  now destruct h.
Qed.

(** ** The grouping of [Parser.parse_iter] *)

Lemma parse_iter_out (tokens : list token) :
  forall fuel operands,
    (length tokens < fuel)%nat ->
    forallb (fun t => OUT_TOKENS (token_kind t)) tokens = true ->
    parse_iter fuel tokens operands
    = Ok (flush_operands (operands ++ tokens), []).
Proof.
  induction tokens as [|[[l tok] value] tokens IH]; intros fuel operands Hlt Hout.
  - destruct fuel as [|fuel]; [cbn in Hlt; lia|]. cbn [parse_iter].
    now rewrite app_nil_r.
  - destruct fuel as [|fuel]; [cbn in Hlt; lia|].
    cbn [forallb] in Hout. apply andb_true_iff in Hout as [Hk Hout].
    unfold token_kind in Hk. cbn [fst snd] in Hk.
    cbn [parse_iter]. rewrite Hk. cbn [length] in Hlt.
    rewrite IH by (try lia; exact Hout). now rewrite <- app_assoc.
Qed.

Lemma end_continue_out (tokens : list token) :
  forallb (fun t => OUT_TOKENS (token_kind t)) tokens = true ->
  end_continue tokens = tokens.
Proof.
  induction tokens as [|[[l tok] value] tokens IH]; [reflexivity|].
  cbn [forallb]. intros H. apply andb_true_iff in H as [Hk H].
  unfold token_kind in Hk. cbn [fst snd] in Hk.
  cbn [end_continue]. rewrite (IH H). now destruct tok.
Qed.

(** The operands that [parse_iter] holds when it comes to a token that is
    not output are flushed in front of the nodes of that token and of the
    tokens after it. *)
Lemma parse_iter_flush (fuel : nat) (t : token) (tokens operands : list token) :
  OUT_TOKENS (token_kind t) = false ->
  parse_iter fuel (t :: tokens) operands
  = do '(nodes, rest) <- parse_iter fuel (t :: tokens) [];
    Ok ((flush_operands operands ++ nodes)%list, rest).
Proof.
  destruct t as [[l k] v]. unfold token_kind. cbn [fst snd]. intros Hk.
  destruct fuel as [|fuel]; [reflexivity|]. cbn [parse_iter]. rewrite Hk. cbv zeta.
  cbn [flush_operands app].
  destruct (COMPOUND_TOKENS k).
  - destruct (parse_iter fuel tokens []) as [[vals rest1]| | |]; try reflexivity.
    rewrite !bind_Ok. cbv beta iota.
    destruct (unclosed k vals); [reflexivity|].
    destruct (parse_iter fuel rest1 []) as [[more rest2]| | |]; reflexivity.
  - destruct (kind_eqb k K_end); [reflexivity|].
    destruct (parse_iter fuel tokens []) as [[more rest1]| | |]; reflexivity.
Qed.

Lemma parse_iter_run (run : list token) :
  forall fuel tokens operands,
    forallb (fun t => OUT_TOKENS (token_kind t)) run = true ->
    parse_iter (length run + fuel) (run ++ tokens) operands
    = parse_iter fuel tokens (operands ++ run).
Proof.
  induction run as [|[[l k] v] run IH]; intros fuel tokens operands Hout.
  - now rewrite app_nil_r.
  - cbn [forallb] in Hout. apply andb_true_iff in Hout as [Hk Hout].
    unfold token_kind in Hk. cbn [fst snd] in Hk.
    cbn [length Nat.add app parse_iter]. rewrite Hk.
    rewrite IH by exact Hout. now rewrite <- app_assoc.
Qed.

Lemma end_continue_head (s : token) (tokens : list token) :
  OUT_TOKENS (token_kind s) = false ->
  exists s' tokens',
    end_continue (s :: tokens) = s' :: tokens' /\ OUT_TOKENS (token_kind s') = false.
Proof.
  destruct s as [[l k] v]. unfold token_kind. cbn [fst snd end_continue]. intros Hk.
  destruct (kind_eqb k K_continue); eexists; eexists; split;
    try reflexivity; assumption.
Qed.

(** Markup, variables and includes that follow one another are one [out]
    node, which has the line of the first of them and holds them in order.
    The run ends at the first token of another kind: the node of the run is
    yielded first, and the nodes of that token and of the tokens after it
    follow as they would without the run. *)
Theorem out_tokens_grouped (t : token) (tokens : list token) :
  forallb (fun t => OUT_TOKENS (token_kind t)) (t :: tokens) = true ->
  parse_nodes (t :: tokens) = Ok [Node (token_line t) K_out (NOut (t :: tokens))]
  /\ (forall s rest,
        OUT_TOKENS (token_kind s) = false ->
        parse_nodes ((t :: tokens) ++ s :: rest)
        = do nodes <- parse_nodes (s :: rest);
          Ok (Node (token_line t) K_out (NOut (t :: tokens)) :: nodes)).
Proof.
  intros Hout. split.
  - unfold parse_nodes. cbv zeta. rewrite (end_continue_out _ Hout).
    rewrite parse_iter_out by (try exact Hout; lia).
    now destruct t as [[l k] v].
  - intros s rest Hs. unfold parse_nodes. cbv zeta.
    rewrite end_continue_app, (end_continue_out _ Hout).
    destruct (end_continue_head s rest Hs) as (s' & tokens' & -> & Hs').
    rewrite length_app.
    replace (S (length (t :: tokens) + length (s' :: tokens')))
      with (length (t :: tokens) + S (length (s' :: tokens')))%nat by lia.
    rewrite (parse_iter_run (t :: tokens) _ _ [] Hout). cbn [app].
    rewrite parse_iter_flush by exact Hs'.
    destruct (parse_iter (S (length (s' :: tokens'))) (s' :: tokens') [])
      as [[nodes r]| | |]; try reflexivity.
    rewrite !bind_Ok. cbv beta iota. rewrite ?bind_Ok.
    now destruct t as [[l k] v].
Qed.

Lemma out_tokens_grouped_witness :
  parse_nodes [(1%Z, K_markup, VStr "Hello "); (1%Z, K_var, VStr "name");
               (2%Z, K_statement, VStr "x = 1"); (3%Z, K_markup, VStr "!")]
  = Ok [Node 1 K_out (NOut [(1%Z, K_markup, VStr "Hello "); (1%Z, K_var, VStr "name")]);
        Node 2 K_statement (NLeaf (VStr "x = 1"));
        Node 3 K_out (NOut [(3%Z, K_markup, VStr "!")])].
Proof.
  etransitivity;
    [ exact (proj2 (out_tokens_grouped (1%Z, K_markup, VStr "Hello ")
                      [(1%Z, K_var, VStr "name")] eq_refl)
               (2%Z, K_statement, VStr "x = 1") [(3%Z, K_markup, VStr "!")] eq_refl)
    | reflexivity ].
Defined.

(** ** The module-level [get_template] in debug mode *)

Lemma debug_clear_true {A} (k : M A) (w : world) :
  (let! _ <- debug_clear true; k) w = k (set_engine w (clear (engine w))).
Proof. reflexivity. Qed.

(** With [get_app().debug] set, [get_template(name)] clears the Engine's
    caches first, so every call compiles the template, whatever was cached:
    one compilation is counted at each call, the lock is free afterwards,
    and when the call returns a template for a name that is not empty the
    caches hold that template and nothing else. *)
Theorem debug_always_compiles (fuel : nat) (n : string) (keys : list string)
                              (w : world) :
  has_char ch_nl n = false ->
  has_sub "{{" n = false ->
  locked (engine w) = false ->
  let r := get_template (S fuel) true (Some n) None keys w in
  builds (engine (snd r)) = S (builds (engine w))
  /\ locked (engine (snd r)) = false
  /\ (forall t,
        fst r = Ok t ->
        n <> "" ->
        templates (engine (snd r)) = {[n := t]}
        /\ renders (engine (snd r)) = {[n := render_template t]}
        /\ modules (engine (snd r)) = ∅).
Proof.
  intros Hnl Hsub Hfree r. subst r.
  rewrite (get_template_by_name (S fuel) true n keys Hnl Hsub).
  rewrite debug_clear_true.
  set (w1 := set_engine w (clear (engine w))).
  rewrite get_template_plain.
  assert (Hmiss : cached (templates (engine w1)) (Some n) = None)
    by (unfold w1, clear; fields; apply lookup_empty).
  rewrite Hmiss.
  assert (Hfree1 : locked (engine w1) = false) by (unfold w1, clear; fields; exact Hfree).
  pose proof (compile_template_miss fuel (Some n) no_kwargs w1 Hmiss Hfree1) as Hpost.
  unfold post, compiled_once in Hpost.
  destruct (compile_template (S fuel) (Some n) no_kwargs w1) as [res w'].
  cbn [fst snd] in *. destruct Hpost as (Hl & Hb & Hc).
  split; [rewrite Hb; unfold w1, clear; now fields|].
  split; [exact Hl|].
  intros t -> Hn. rewrite (name_true_some n Hn) in Hc.
  unfold caches in Hc. cbn [default] in Hc. injection Hc as E1 E2 E3.
  rewrite E1, E2, E3. unfold w1, clear. fields.
  repeat split; reflexivity.
Qed.

Lemma debug_always_compiles_witness :
  let w := new_world (one_template "hello" "Hello!") in
  let w1 := snd (get_template 10 true (Some "hello") None [] w) in
  let w2 := snd (get_template 10 true (Some "hello") None [] w1) in
  builds (engine w1) = 1%nat /\ builds (engine w2) = 2%nat.
Proof.
  intros w w1 w2.
  assert (H1 : locked (engine w1) = false) by (vm_compute; reflexivity).
  destruct (debug_always_compiles 9 "hello" [] w eq_refl eq_refl eq_refl)
    as (Hb1 & _ & _).
  destruct (debug_always_compiles 9 "hello" [] w1 eq_refl eq_refl H1)
    as (Hb2 & _ & _).
  fold w1 in Hb1. fold w2 in Hb2. split; [exact Hb1|].
  rewrite Hb2. now rewrite Hb1.
Defined.

(** ** The escaped statement leader *)

Lemma replace_no_nl (s : string) :
  has_char ch_nl s = false -> replace (String ch_cr nl) nl s = s.
Proof.
  unfold replace. induction s as [|c s IH]; intros H; [reflexivity|].
  cbn [has_char] in H. apply orb_false_iff in H as [Hc Hs].
  cbn [replace_from]. rewrite (IH Hs).
  replace (startswith (String ch_cr nl) (String c s)) with false; [reflexivity|].
  cbn [startswith]. destruct (Ascii.eqb ch_cr c); [|reflexivity].
  destruct s as [|c' s]; [reflexivity|].
  cbn [has_char] in Hs. apply orb_false_iff in Hs as [Hc' _].
  unfold nl. cbn [startswith]. rewrite Ascii.eqb_sym, Hc'. reflexivity.
Qed.

Lemma markup_stop_line (s : string) :
  has_sub "{{" s = false -> has_char ch_nl s = false -> Re.markup_stop s = None.
Proof.
  induction s as [|c s IH]; intros Hv Hn; [reflexivity|].
  apply has_sub_cons in Hv as [Hv1 Hv2].
  cbn [has_char] in Hn. apply orb_false_iff in Hn as [Hc Hn].
  cbn [Re.markup_stop]. rewrite Hv1, (IH Hv2 Hn). unfold is_nl. now rewrite Hc.
Qed.

Lemma unescape_line (s : string) :
  has_char ch_nl s = false -> Re.unescape_from false s = s.
Proof.
  induction s as [|c s IH]; intros Hn; [reflexivity|].
  cbn [has_char] in Hn. apply orb_false_iff in Hn as [Hc Hn].
  cbn [Re.unescape_from andb]. unfold is_nl. rewrite Hc. cbn [orb andb].
  now rewrite (IH Hn).
Qed.

(** A source of one line that starts with a doubled [%] is markup, not a
    statement: the tokenizer yields one markup token, whose text has a
    single [%] in front. *)
Theorem doubled_leader_is_markup (t : string) :
  has_char ch_nl t = false ->
  has_sub "{{" t = false ->
  parser_tokenize ("%%" ++ t) = Ok [(1%Z, K_markup, VStr ("%" ++ t))].
Proof.
  intros Hn Hv. unfold parser_tokenize, tokenize.
  rewrite (replace_no_nl ("%%" ++ t)) by exact Hn. cbv zeta.
  set (s := "%%" ++ t).
  assert (Hlen : String.length s = S (S (String.length t))) by reflexivity.
  rewrite Hlen. generalize (S (String.length t)). intros f.
  cbn [tokenize_loop]. rewrite Hlen.
  replace (0 <? S (S (String.length t)))%nat with true by reflexivity.
  unfold parser_rules. cbn [first_match].
  change (stmt_token s 0) with (@Ok (option (nat * kind * tvalue)) None).
  rewrite bind_Ok. cbv beta iota.
  change (var_token s 0) with (@Ok (option (nat * kind * tvalue)) None).
  rewrite bind_Ok. cbv beta iota.
  assert (Hm : mtok s 0 = Ok (Some (String.length s, K_markup, VStr ("%" ++ t)))).
  { unfold mtok. rewrite drop_0. unfold Re.markup_match.
    rewrite (markup_stop_line s) by (try exact Hn; exact Hv).
    change (String.eqb s "") with false. cbv iota. cbn [char_before]. cbv zeta.
    unfold Re.unescape.
    change (Re.unescape_from false (String ch_nl s))
      with (String ch_nl (String "%" (Re.unescape_from false t))).
    rewrite (unescape_line t Hn). cbn [drop].
    rewrite line_join_sub_plain by exact Hn. reflexivity. }
  assert (Hend : forall fuel l,
             tokenize_loop [stmt_token; var_token; mtok] fuel s
               (String.length s) l = Ok []).
  { intros fuel l. destruct fuel; cbn [tokenize_loop]; now rewrite Nat.ltb_irrefl. }
  rewrite Hm, !bind_Ok. cbv beta iota.
  replace (String.length s <=? 0)%nat with false by (rewrite Hlen; reflexivity).
  rewrite Hend, bind_Ok. reflexivity.
Qed.

Lemma doubled_leader_is_markup_witness :
  parser_tokenize "%%if x:" = Ok [(1%Z, K_markup, VStr "%if x:")].
Proof. exact (doubled_leader_is_markup "if x:" eq_refl eq_refl). Defined.

(** ** The line numbers of the generated code *)

Lemma count_nl_append (a b : string) :
  count_nl (a ++ b) = (count_nl a + count_nl b)%nat.
Proof.
  induction a as [|c a IH]; [now rewrite append_nil_l|].
  rewrite append_cons. cbn [count_nl]. rewrite IH. lia.
Qed.

Lemma text_lines_app (l1 l2 : list string) :
  text_lines (l1 ++ l2) = (text_lines l1 + text_lines l2)%nat.
Proof. induction l1 as [|x l1 IH]; [reflexivity|]. cbn [app text_lines]. rewrite IH. lia. Qed.

Lemma text_lines_repeat (n : nat) : text_lines (repeat "" n) = n.
Proof. induction n as [|n IH]; [reflexivity|]. cbn [repeat text_lines count_nl]. now rewrite IH. Qed.

Lemma text_lines_map_last (f : string -> string) (ls : list string) (l0 : string) :
  last ls = Some l0 ->
  (text_lines (map_last f ls) + count_nl l0 = text_lines ls + count_nl (f l0))%nat.
Proof.
  induction ls as [|x [|y ls] IH]; intros H; [discriminate H| |].
  - injection H as <-. cbn [map_last text_lines]. lia.
  - change (map_last f (x :: y :: ls)) with (x :: map_last f (y :: ls)).
    change (last (x :: y :: ls)) with (last (y :: ls)) in H.
    specialize (IH H). cbn [text_lines] in *. lia.
Qed.

(** [BlockBuilder.add] keeps the builder in step, whatever the code. *)
Lemma add_synced (o l : Z) (code : string) : keeps o (add l code).
Proof.
  intros b b' (Ho & Hs & Hi). unfold add.
  destruct (l <? lineno b)%Z eqn:El; [discriminate|]. apply Z.ltb_ge in El.
  cbv zeta. set (code' := if String.eqb code "return" then writer_return else code).
  assert (Hind : count_nl (indent b) = 0%nat) by now apply count_nl_plain.
  destruct (lineno b <? l)%Z eqn:Elt.
  - apply Z.ltb_lt in Elt. rewrite bind_Ok. intros [= <-].
    repeat split; cbn [offset lines indent lineno set_lines set_lineno]; try assumption.
    rewrite !text_lines_app, text_lines_repeat. cbn [text_lines].
    assert (E : count_nl (if String.eqb code' "" then "" else indent b ++ code')
                = count_nl code').
    { destruct (String.eqb_spec code' "") as [->|_]; [reflexivity|].
      rewrite count_nl_append. lia. }
    rewrite E. lia.
  - apply Z.ltb_ge in Elt. assert (l = lineno b) as -> by lia.
    destruct (negb (String.eqb code' "")) eqn:Ec.
    + destruct (last (lines b)) as [l0|] eqn:Hlast; [|discriminate].
      rewrite bind_Ok. intros [= <-].
      repeat split; cbn [offset lines indent lineno set_lines set_lineno]; try assumption.
      pose proof (text_lines_map_last
                    (fun l1 => (if String.eqb l1 "" then indent b
                                else if negb (String.eqb
                                                (drop (String.length l1 - 1) l1) ":")
                                     then l1 ++ "; " else l1) ++ code')
                    (lines b) l0 Hlast) as H.
      cbv beta in H. rewrite count_nl_append in H.
      assert (E : count_nl (if String.eqb l0 "" then indent b
                            else if negb (String.eqb (drop (String.length l0 - 1) l0) ":")
                                 then l0 ++ "; " else l0)
                  = count_nl l0).
      { destruct (String.eqb_spec l0 "") as [->|_]; [exact Hind|].
        destruct (negb (String.eqb (drop (String.length l0 - 1) l0) ":"));
          [|reflexivity].
        rewrite count_nl_append. change (count_nl "; ") with 0%nat. lia. }
      rewrite E in H. lia.
    + rewrite bind_Ok. intros [= <-].
      repeat split; cbn [offset lines indent lineno set_lines set_lineno]; try assumption.
      apply negb_false_iff, String.eqb_eq in Ec. rewrite Ec. cbn [count_nl]. lia.
Qed.

Lemma keeps_ok (o : Z) : keeps o (fun b => Ok b).
Proof. now intros b b' H [= <-]. Qed.

Lemma keeps_bind (o : Z) (f g : builder -> res builder) :
  keeps o f -> keeps o g -> keeps o (fun b => do b1 <- f b; g b1).
Proof.
  intros Hf Hg b b' Hb H. cbv beta in H.
  destruct (f b) as [b1| | |] eqn:E; try discriminate H.
  rewrite bind_Ok in H. exact (Hg b1 b' (Hf b b1 Hb E) H).
Qed.

Lemma synced_enter (o : Z) (b : builder) : synced o b -> synced o (enter b).
Proof.
  intros (Ho & Hs & Hi). repeat split; try assumption.
  unfold enter. cbn [indent set_indent]. now rewrite has_char_append, Hi.
Qed.

Lemma has_char_take (x : ascii) (s : string) :
  has_char x s = false -> forall n, has_char x (take n s) = false.
Proof.
  induction s as [|c s IH]; intros H n; [now destruct n|].
  cbn [has_char] in H. apply orb_false_iff in H as [Hc Hs].
  destruct n as [|n]; [reflexivity|]. cbn [take has_char]. now rewrite Hc, (IH Hs).
Qed.

Lemma synced_exit (o : Z) (b : builder) : synced o b -> synced o (exit b).
Proof.
  intros (Ho & Hs & Hi). repeat split; try assumption.
  unfold exit. cbn [indent set_indent]. now apply has_char_take.
Qed.

Lemma synced_local_vars (o : Z) (b : builder) (v : list string) :
  synced o b -> synced o (set_local_vars b v).
Proof. intros (Ho & Hs & Hi). now repeat split. Qed.

Lemma keeps_build_import (o l : Z) (value : string) : keeps o (build_import l value).
Proof. intros b b' Hb. unfold build_import. cbv zeta. now apply add_synced. Qed.

Lemma keeps_build_from (o l : Z) (value : string) : keeps o (build_from l value).
Proof.
  intros b b' Hb. unfold build_from.
  destruct (rsplit2 (drop 5 value)) as [|name [|tok [|var [|x r]]]]; try discriminate.
  cbv zeta.
  destruct (String.eqb tok "as").
  - destruct (rsplit2 name) as [|n1 [|t1 [|v1 [|x r]]]]; try discriminate.
    rewrite bind_Ok. cbv beta iota.
    destruct (negb (String.eqb t1 "import")); [discriminate|]. now apply add_synced.
  - rewrite bind_Ok. cbv beta iota.
    destruct (negb (String.eqb tok "import")); [discriminate|]. now apply add_synced.
Qed.

Lemma keeps_build_require (o l : Z) (values : list string) :
  keeps o (build_require l values).
Proof.
  intros b b' Hb. unfold build_require. cbv zeta.
  apply add_synced. now apply synced_local_vars.
Qed.

Lemma keeps_build_end (o l : Z) : keeps o (build_end l).
Proof.
  intros b b' Hb. unfold build_end.
  destruct (negb (lineno b =? l)%Z); [now apply add_synced | now intros [= <-]].
Qed.

Lemma keeps_build_out (o : Z) (nodes : list token) : keeps o (build_out nodes).
Proof.
  induction nodes as [|[[l tok] value] nodes IH]; intros b b' Hb;
    [now intros [= <-]|].
  cbn [build_out]. destruct value as [value| |]; try discriminate.
  rewrite bind_Ok. cbv beta.
  match goal with
  | |- bind (if negb (String.eqb ?c "") then _ else _) _ = _ -> _ =>
      generalize c; intros code
  end.
  destruct (negb (String.eqb code "")).
  - destruct (add l ("w(" ++ code ++ ")") b) as [b1| | |] eqn:E; try discriminate.
    rewrite bind_Ok. apply IH. exact (add_synced o l _ b b1 Hb E).
  - rewrite bind_Ok. now apply IH.
Qed.

Lemma keeps_block_where (o : Z) (keep : kind -> bool) (nodes : list node) :
  Forall (fun n => keeps o (build_token n)) nodes ->
  keeps o (build_block_where keep nodes).
Proof.
  induction 1 as [|n nodes Hn _ IH]; intros b b' Hb; [now intros [= <-]|].
  rewrite build_block_where_cons. destruct (keep (node_kind n)); [|now apply IH].
  destruct (build_token n b) as [b1| | |] eqn:E; try discriminate.
  rewrite bind_Ok. apply IH. exact (Hn b b1 Hb E).
Qed.

Lemma keeps_block (o : Z) (nodes : list node) :
  Forall (fun n => keeps o (build_token n)) nodes -> keeps o (build_block nodes).
Proof.
  intros H b b' Hb. rewrite <- build_block_where_all. now apply keeps_block_where.
Qed.

(** *** The rules, as equations of [build_token] *)

Lemma build_token_statement (l : Z) (code : string) (b : builder) :
  build_token (Node l K_statement (NLeaf (VStr code))) b = add l code b.
Proof. reflexivity. Qed.

Lemma build_token_comment (l : Z) (v : nvalue) (b : builder) :
  build_token (Node l K_comment v) b = Ok b.
Proof. now destruct v. Qed.

Lemma build_token_import (l : Z) (value : string) (b : builder) :
  build_token (Node l K_import (NLeaf (VStr value))) b = build_import l value b.
Proof. reflexivity. Qed.

Lemma build_token_from (l : Z) (value : string) (b : builder) :
  build_token (Node l K_from (NLeaf (VStr value))) b = build_from l value b.
Proof. reflexivity. Qed.

Lemma build_token_require (l : Z) (values : list string) (b : builder) :
  build_token (Node l K_require (NLeaf (VList values))) b = build_require l values b.
Proof. reflexivity. Qed.

Lemma build_token_out (l : Z) (nodes : list token) (b : builder) :
  build_token (Node l K_out (NOut nodes)) b = build_out nodes b.
Proof. reflexivity. Qed.

Lemma build_token_end (l : Z) (v : nvalue) (b : builder) :
  build_token (Node l K_end v) b = build_end l b.
Proof. now destruct v. Qed.

Lemma build_token_compound (l : Z) (stmt : string) (nodes : list node) (b : builder) :
  build_token (Node l K_compound (NBlock (VStr stmt) nodes)) b
  = do b1 <- add l stmt b;
    do b2 <- build_block_where (fun _ => true) nodes (enter b1);
    Ok (exit b2).
Proof. reflexivity. Qed.

Lemma build_token_def (l : Z) (stmt : string) (nodes : list node) (b : builder) :
  build_token (Node l K_def (NBlock (VStr stmt) nodes)) b
  = match nodes with
    | [] => raise IndexError "list index out of range"
    | Node ln tok' _ :: _ =>
        if COMPOUND_TOKENS tok' then
          do b1 <- add l stmt b;
          do b2 <- add ln ("raise SyntaxError(" ++ repr (def_error tok' stmt) ++ ")")
                       (enter b1);
          Ok (exit b2)
        else
          do b1 <- add l stmt b;
          do '(ln, b2) <-
            match single_markup l nodes with
            | None =>
                do b2 <- add (l + 1) writer_declare (enter b1);
                do b3 <- build_block_where (fun _ => true) nodes b2;
                let ln := lineno b3 in
                do b4 <- add ln writer_return b3;
                Ok (ln, b4)
            | Some (ln, markup) =>
                do b2 <- add ln ("return " ++ repr markup) (enter b1);
                Ok (ln, b2)
            end;
          let b3 := exit b2 in
          match index_from "(" 5 0 stmt with
          | Some i => add (ln + 1) (setdefs (take (i - 4) (drop 4 stmt))) b3
          | None => raise ValueError "substring not found"
          end
    end.
Proof. reflexivity. Qed.

Lemma nodes_size_cons (x : node) (r : list node) :
  nodes_size (x :: r) = (node_size x + nodes_size r)%nat.
Proof. reflexivity. Qed.

Lemma node_size_block (l : Z) (k : kind) (tv : tvalue) (ns : list node) :
  node_size (Node l k (NBlock tv ns)) = S (nodes_size ns).
Proof. reflexivity. Qed.

Lemma node_size_value (n : node) : node_size n = S (nvalue_size (node_value n)).
Proof. now destruct n. Qed.

Lemma children_smaller (P : node -> Prop) (k : nat) (ns : list node) :
  (forall n, (node_size n < k)%nat -> P n) ->
  (nodes_size ns < k)%nat ->
  Forall P ns.
Proof.
  intros IH. induction ns as [|x r IHr]; intros H; [constructor|].
  rewrite nodes_size_cons in H. constructor; [apply IH; lia | apply IHr; lia].
Qed.

(** One step of a rule: the outcome of an [add] or of a block, with what it
    keeps. *)
Ltac keep_add H :=
  rewrite ?bind_assoc in H;
  lazymatch type of H with
  | bind (add ?l ?c ?b) _ = Ok _ =>
      let b1 := fresh "b" in
      let E := fresh "E" in
      destruct (add l c b) as [b1| | |] eqn:E; [|discriminate H..];
      rewrite bind_Ok in H; cbv beta iota zeta in H;
      lazymatch goal with
      | Hs : synced ?o _ |- _ =>
          apply (add_synced o l c b b1) in E; [|auto using synced_enter, synced_exit]
      end
  end.

Ltac keep_block H Hns :=
  rewrite ?bind_assoc in H;
  lazymatch type of H with
  | bind (build_block_where ?keep ?ns ?b) _ = Ok _ =>
      let b1 := fresh "b" in
      let E := fresh "E" in
      destruct (build_block_where keep ns b) as [b1| | |] eqn:E; [|discriminate H..];
      rewrite bind_Ok in H; cbv beta iota zeta in H;
      apply (keeps_block_where _ keep ns Hns b b1) in E;
      [|auto using synced_enter, synced_exit]
  | bind (build_block ?ns ?b) _ = Ok _ =>
      let b1 := fresh "b" in
      let E := fresh "E" in
      destruct (build_block ns b) as [b1| | |] eqn:E; [|discriminate H..];
      rewrite bind_Ok in H; cbv beta iota zeta in H;
      apply (keeps_block _ ns Hns b b1) in E;
      [|auto using synced_enter, synced_exit]
  end.

Lemma keeps_build_extends (o : Z) (n : node) :
  Forall (fun x => keeps o (build_token x))
         (match node_value n with NBlock _ inner => inner | _ => [] end) ->
  keeps o (build_extends n).
Proof.
  intros Hin b b' Hb H. unfold build_extends in H.
  destruct (node_value n) as [tv|ops|[parent| |] inner]; try discriminate H.
  keep_block H Hin. exact (add_synced o _ _ _ _ E H).
Qed.

Lemma keeps_build_general (o l : Z) (ns : list node) :
  Forall (fun x => keeps o (build_token x)) ns ->
  keeps o (build_general l ns).
Proof.
  intros Hns b b' Hb H. unfold build_general in H.
  keep_add H. keep_block H Hns. exact (add_synced o _ _ _ _ E0 H).
Qed.

Lemma keeps_build_token (o : Z) :
  forall k n, (node_size n < k)%nat -> keeps o (build_token n).
Proof.
  induction k as [|k IH]; intros n Hlt; [lia|].
  destruct n as [l tok v].
  assert (Hchildren : forall tv ns, v = NBlock tv ns ->
                                    Forall (fun x => keeps o (build_token x)) ns).
  { intros tv ns ->. rewrite node_size_block in Hlt.
    apply (children_smaller _ k); [exact IH | lia]. }
  intros b b' Hb H.
  destruct tok.
  - destruct v as [[]| |]; discriminate H.
  - destruct v as [[]| |]; discriminate H.
  - destruct v as [[]| |]; discriminate H.
  - (* require *)
    destruct v as [[s|values|]|ops|tv ns]; try discriminate H.
    rewrite build_token_require in H. exact (keeps_build_require o l values b b' Hb H).
  - (* import *)
    destruct v as [[value|vs|]|ops|tv ns]; try discriminate H.
    rewrite build_token_import in H. exact (keeps_build_import o l value b b' Hb H).
  - (* from *)
    destruct v as [[value|vs|]|ops|tv ns]; try discriminate H.
    rewrite build_token_from in H. exact (keeps_build_from o l value b b' Hb H).
  - (* statement *)
    destruct v as [[code|vs|]|ops|tv ns]; try discriminate H.
    rewrite build_token_statement in H. exact (add_synced o l code b b' Hb H).
  - (* compound *)
    destruct v as [tv|ops|[stmt|vs|] ns]; try discriminate H.
    rewrite build_token_compound in H.
    pose proof (Hchildren _ _ eq_refl) as Hns.
    keep_add H. keep_block H Hns. injection H as <-. now apply synced_exit.
  - destruct v as [[]| |]; discriminate H.
  - (* end *)
    rewrite build_token_end in H. exact (keeps_build_end o l b b' Hb H).
  - (* comment *)
    rewrite build_token_comment in H. now injection H as <-.
  - destruct v as [[]| |]; discriminate H.
  - (* def *)
    destruct v as [tv|ops|[stmt|vs|] ns]; try discriminate H.
    rewrite build_token_def in H.
    pose proof (Hchildren _ _ eq_refl) as Hns.
    destruct ns as [|[ln tok' v'] ns']; [discriminate H|].
    destruct (COMPOUND_TOKENS tok').
    + keep_add H. keep_add H. injection H as <-. now apply synced_exit.
    + keep_add H.
      destruct (single_markup l _) as [[ln1 markup]|].
      * keep_add H. rewrite bind_Ok in H. cbv beta iota zeta in H.
        destruct (index_from "(" 5 0 stmt); [|discriminate H].
        refine (add_synced o _ _ _ _ _ H); now apply synced_exit.
      * keep_add H. keep_block H Hns. keep_add H.
        rewrite bind_Ok in H. cbv beta iota zeta in H.
        destruct (index_from "(" 5 0 stmt); [|discriminate H].
        refine (add_synced o _ _ _ _ _ H); now apply synced_exit.
  - (* out *)
    destruct v as [tv|ops|tv ns]; try discriminate H.
    rewrite build_token_out in H. exact (keeps_build_out o ops b b' Hb H).
  - (* render *)
    destruct v as [tv|ops|tv ns]; try discriminate H.
    rewrite build_render_unfold in H. unfold build_render in H.
    pose proof (Hchildren _ _ eq_refl) as Hns.
    destruct (0 <? l)%Z; [discriminate H|].
    assert (Hext : forall x, In x ns -> keeps o (build_extends x)).
    { intros x Hx. apply keeps_build_extends.
      destruct (node_value x) as [| |tv' inner] eqn:Ex; try constructor.
      apply (children_smaller _ k); [exact IH|].
      assert (Hsx : (node_size x <= nodes_size ns)%nat).
      { clear -Hx. induction ns as [|y r IHr]; [destruct Hx|].
        rewrite nodes_size_cons. destruct Hx as [->|Hx]; [lia|].
        specialize (IHr Hx). lia. }
      rewrite node_size_block in Hlt. rewrite node_size_value, Ex in Hsx.
      change (nvalue_size (NBlock tv' inner)) with (nodes_size inner) in Hsx. lia. }
    destruct ns as [|n1 [|n2 [|n3 r]]].
    + exact (add_synced o _ _ b b' Hb H).
    + destruct (is_extends n1).
      * exact (Hext n1 (or_introl eq_refl) b b' Hb H).
      * destruct (out_markup n1) as [[ln value]|].
        -- exact (add_synced o _ _ b b' Hb H).
        -- exact (keeps_build_general o l _ Hns b b' Hb H).
    + destruct (is_extends n2).
      * exact (Hext n2 (or_intror (or_introl eq_refl)) b b' Hb H).
      * exact (keeps_build_general o l _ Hns b b' Hb H).
    + exact (keeps_build_general o l _ Hns b b' Hb H).
Qed.

Lemma text_lines_join (ls : list string) :
  ls <> [] -> S (count_nl (join nl ls)) = text_lines ls.
Proof.
  induction ls as [|x [|y ls] IH]; intros H; [contradiction| |].
  - cbn [join text_lines]. lia.
  - change (join nl (x :: y :: ls)) with (x ++ nl ++ join nl (y :: ls)).
    rewrite !count_nl_append. change (count_nl nl) with 1%nat.
    specialize (IH ltac:(discriminate)). cbn [text_lines] in *. lia.
Qed.

(** Whatever the nodes, the code that [BlockBuilder] generates is in step
    with the template: when the builder is done, the text handed to
    [compile] has as many lines as the line counter has advanced from the
    line number given at the start (the number of its newlines, plus one).
    The code of line [k] of the template is on line [k - lineno] of the
    text, which is what makes the line numbers of a traceback, once shifted
    by the offset, those of the template. *)
Theorem generated_code_in_step (l : Z) (nodes : list node) (filters : list string)
                               (b : builder) :
  BlockBuilder l nodes filters = Ok b ->
  offset b = l
  /\ Z.of_nat (text_lines (lines b)) = (lineno b - l)%Z
  /\ (lines b = []
      \/ (Z.of_nat (count_nl (source_text b)) + 1 = lineno b - l)%Z).
Proof.
  unfold BlockBuilder. intros H.
  assert (Hs : synced l b).
  { apply (keeps_block l nodes) with (b := Builder [] "" l l [] filters).
    - apply Forall_forall. intros n _.
      exact (keeps_build_token l (S (node_size n)) n (Nat.lt_succ_diag_r _)).
    - repeat split. cbn. lia.
    - exact H. }
  destruct Hs as (Ho & Hl & _). split; [exact Ho|]. split; [exact Hl|].
  destruct (lines b) as [|x ls] eqn:E; [now left|]. right.
  unfold source_text. rewrite E.
  pose proof (text_lines_join (x :: ls) ltac:(discriminate)). lia.
Qed.

Lemma generated_code_in_step_witness :
  let nodes :=
    render_nodes
      [Node 1 K_out (NOut [(1%Z, K_markup, VStr ("a" ++ nl))]);
       Node 2 K_compound
         (NBlock (VStr "if x:")
            [Node 3 K_out (NOut [(3%Z, K_markup, VStr ("b" ++ nl))]);
             Node 4 K_end (NLeaf (VStr "end"))])] in
  let b :=
    Builder [def_render; "    " ++ writer_declare; "    w('a\n')"; "    if x:";
             "        w('b\n')"; "    " ++ writer_return] "" 4 (-2) [] ["str"] in
  BlockBuilder (-2) nodes ["str"] = Ok b
  /\ Z.of_nat (text_lines (lines b)) = (lineno b - -2)%Z.
Proof.
  intros nodes b. split; [reflexivity|].
  exact (proj1 (proj2 (generated_code_in_step (-2) nodes ["str"] b eq_refl))).
Defined.

(** ** C1: [%extends] *)








